(** * Cute Chess: adjudicator, PGN codec, game conductor and match controller

    A shallow embedding of
      - projects/lib/src/gameadjudicator.cpp  (GameAdjudicator)
      - projects/lib/src/pgngame.cpp          (PgnGame)
      - projects/lib/src/chessgame.cpp        (ChessGame)
      - projects/cli/src/enginematch.cpp      (EngineMatch)
    followed by the properties proved about it.

    Conventions.
      - A C++ [int] is a [Z].  Signed overflow is undefined in C++, so the
        model gives it no meaning: scores are centipawns, counters count
        half-moves, and the statements are about those magnitudes.
        Integer division is [Z.quot] and [%] is [Z.rem] (both truncate).
      - A [QString] is a [string]; [QString::size] is [String.length].
      - A [QMap<QString, QString>] is a [gmap string string]; iteration
        visits the keys in ascending order ([QMap.toList]).
      - A [QVector] is a [list], [append] adds at the end.
      - [Q_ASSERT] is a check of debug builds only; where a property
        depends on it the build flavour is a parameter
        ([ChessGame.Q_ASSERT]).
      - Calls into objects the code only holds pointers to (players,
        engines, timers, signals) are recorded as a list of effects.
*)

From Stdlib Require Import ZArith String Ascii List Bool Lia.
From stdpp Require Import gmap strings sorting pretty.
Import ListNotations.

Local Open Scope string_scope.

(* ===================================================================== *)
(** * Part I: the embedding                                               *)
(* ===================================================================== *)

(** ** Chess::Side and Chess::Result *)

Module Chess.

Inductive Side := White | Black | NoSide.

#[global] Instance Side_eq_dec : EqDecision Side.
Proof. solve_decision. Defined.

(** Modelled from the spec: [Side::opposite] swaps the two colours (the
    class [Chess::Side] is declared in board/side.h). *)
Definition opposite (s : Side) : Side :=
  match s with
  | White => Black
  | Black => White
  | NoSide => NoSide
  end.

(** The conversion of a side to an array index: [White] is 0, [Black]
    is 1, [NoSide] is 2. *)
Definition sideIndex (s : Side) : nat :=
  match s with
  | White => 0
  | Black => 1
  | NoSide => 2
  end.

(** Modelled from the spec: the kinds of a [Chess::Result] (section 3,
    data model); the class itself is declared in board/result.h. *)
Inductive ResultType :=
| RNone | Win | Draw | Adjudication | Timeout | Disconnection
| StalledConnection | IllegalMove | Resignation | Agreement
| NoResult | ResultError.

#[global] Instance ResultType_eq_dec : EqDecision ResultType.
Proof. solve_decision. Defined.

Record Result := mkResult {
  type : ResultType;
  winner : Side;
  description : string
}.

#[global] Instance Result_eq_dec : EqDecision Result.
Proof. solve_decision. Defined.

(** [Chess::Result()], the default-constructed value. *)
Definition Result_default : Result := mkResult RNone NoSide "".

(** Modelled from the spec: a result is "none" while the game has no
    outcome, every other kind is terminal. *)
Definition isNone (r : Result) : bool :=
  bool_decide (type r = RNone).

(** Modelled from the spec: "Draw and None have no winner"; a result
    without a winner that is neither None, NoResult nor ResultError is a
    draw. *)
Definition isDraw (r : Result) : bool :=
  bool_decide (winner r = NoSide)
  && negb (bool_decide (type r = RNone))
  && negb (bool_decide (type r = NoResult))
  && negb (bool_decide (type r = ResultError)).

End Chess.

(** ** MoveEvaluation *)

(** Modelled from the spec: [MoveEvaluation] is the value
    [{ depth, score_centipawns, time_ms, pv }] (declared in
    moveevaluation.h). *)
Record MoveEvaluation := mkEval {
  depth : Z;
  score : Z;
  time : Z;
  pv : string
}.

(** ** GameAdjudicator (gameadjudicator.cpp) *)

Module GameAdjudicator.
Import Chess.
Local Open Scope Z_scope.

(** What [addEval] asks of the [Chess::Board] it is handed: three
    const queries. *)
Record Board := mkBoard {
  sideToMove : Side;
  plyCount : Z;
  tablebaseResult : Result
}.

(** [int m_resignScoreCount[2]]. *)
Definition IntArray2 : Type := Z * Z.

(** Writing slot [i]; an index past the end is undefined behaviour in
    C++ and leaves the model's array as it is. *)
Definition array_set (a : IntArray2) (i : nat) (v : Z) : IntArray2 :=
  match i with
  | O => (v, snd a)
  | S O => (fst a, v)
  | _ => a
  end.

(** Reading slot [i]; there is no value past the end. *)
Definition array_get (a : IntArray2) (i : nat) : option Z :=
  match i with
  | O => Some (fst a)
  | S O => Some (snd a)
  | _ => None
  end.

Record t := mk {
  m_drawMoveNum : Z;
  m_drawMoveCount : Z;
  m_drawScore : Z;
  m_drawScoreCount : Z;
  m_resignMoveCount : Z;
  m_resignScore : Z;
  m_resignScoreCount : IntArray2;
  m_tbEnabled : bool;
  m_result : Result
}.

Definition with_result (a : t) (r : Result) : t :=
  mk (m_drawMoveNum a) (m_drawMoveCount a) (m_drawScore a)
     (m_drawScoreCount a) (m_resignMoveCount a) (m_resignScore a)
     (m_resignScoreCount a) (m_tbEnabled a) r.

Definition with_drawScoreCount (a : t) (n : Z) : t :=
  mk (m_drawMoveNum a) (m_drawMoveCount a) (m_drawScore a)
     n (m_resignMoveCount a) (m_resignScore a)
     (m_resignScoreCount a) (m_tbEnabled a) (m_result a).

Definition with_resignScoreCount (a : t) (c : IntArray2) : t :=
  mk (m_drawMoveNum a) (m_drawMoveCount a) (m_drawScore a)
     (m_drawScoreCount a) (m_resignMoveCount a) (m_resignScore a)
     c (m_tbEnabled a) (m_result a).

(** [GameAdjudicator::GameAdjudicator()]. *)
Definition new : t :=
  mk 0 0 0 0 0 0 (0, 0) false Result_default.

(** [setDrawThreshold]; its two [Q_ASSERT]s ask for
    [moveNumber >= 0] and [moveCount >= 0]. *)
Definition setDrawThreshold (a : t) (moveNumber moveCount score : Z) : t :=
  mk moveNumber moveCount score 0
     (m_resignMoveCount a) (m_resignScore a)
     (m_resignScoreCount a) (m_tbEnabled a) (m_result a).

(** [setResignThreshold]; its [Q_ASSERT] asks for [moveCount >= 0]. *)
Definition setResignThreshold (a : t) (moveCount score : Z) : t :=
  mk (m_drawMoveNum a) (m_drawMoveCount a) (m_drawScore a)
     (m_drawScoreCount a) moveCount score
     (0, 0) (m_tbEnabled a) (m_result a).

Definition setTablebaseAdjudication (a : t) (enable : bool) : t :=
  mk (m_drawMoveNum a) (m_drawMoveCount a) (m_drawScore a)
     (m_drawScoreCount a) (m_resignMoveCount a) (m_resignScore a)
     (m_resignScoreCount a) enable (m_result a).

Definition resetDrawMoveCount (a : t) : t := with_drawScoreCount a 0.

Definition result (a : t) : Result := m_result a.

(** The two results the heuristic rules produce. *)
Definition drawResult : Result :=
  mkResult Adjudication NoSide "TCEC draw rule".

Definition winResult (side : Side) : Result :=
  mkResult Adjudication (opposite side) "TCEC win rule".

(** The resign rule, the last block of [addEval]. *)
Definition resignRule (a : t) (side : Side) (eval : MoveEvaluation) : t :=
  if 0 <? m_resignMoveCount a then
    let old := default 0 (array_get (m_resignScoreCount a) (sideIndex side)) in
    let count := if score eval <=? m_resignScore a then old + 1 else 0 in
    let a1 :=
      with_resignScoreCount a
        (array_set (m_resignScoreCount a) (sideIndex side) count) in
    if m_resignMoveCount a <=? count
    then with_result a1 (winResult side)
    else a1
  else a.

(** The draw rule: the counter update, then the test.  The boolean
    tells whether the rule fired (the [return] inside the block). *)
Definition drawRule (a : t) (board : Board) (eval : MoveEvaluation)
  : t * bool :=
  if 0 <? m_drawMoveNum a then
    let a1 :=
      if Z.abs (score eval) <=? m_drawScore a
      then with_drawScoreCount a (m_drawScoreCount a + 1)
      else with_drawScoreCount a 0 in
    if (m_drawMoveNum a1 <=? plyCount board ÷ 2)
       && (m_drawMoveCount a1 * 2 <=? m_drawScoreCount a1)
    then (with_result a1 drawResult, true)
    else (a1, false)
  else (a, false).

(** [GameAdjudicator::addEval]. *)
Definition addEval (a : t) (board : Board) (eval : MoveEvaluation) : t :=
  let side := opposite (sideToMove board) in
  (* Tablebase adjudication *)
  let a := if m_tbEnabled a
           then with_result a (tablebaseResult board) else a in
  if m_tbEnabled a && negb (isNone (m_result a)) then a
  else
    (* Moves forced by the user *)
    if depth eval <=? 0 then
      with_resignScoreCount (with_drawScoreCount a 0)
        (array_set (m_resignScoreCount a) (sideIndex side) 0)
    else
      (* Draw adjudication *)
      let '(a, fired) := drawRule a board eval in
      if fired then a
      else
        (* Resign adjudication *)
        resignRule a side eval.

(** A game's stream of evaluations, each with the board it was made
    on, fed to the adjudicator in order. *)
Definition addEvals (a : t) (calls : list (Board * MoveEvaluation)) : t :=
  fold_left (fun acc c => addEval acc (fst c) (snd c)) calls a.

(** *** The draw rule in the words of its description

    An evaluation is evidence for a draw when it is a real one
    (depth above zero) whose absolute score is within the bound. *)
Definition quiet (drawScore : Z) (c : Board * MoveEvaluation) : bool :=
  (0 <? depth (snd c)) && (Z.abs (score (snd c)) <=? drawScore).

Fixpoint takeWhile {A} (p : A -> bool) (l : list A) : list A :=
  match l with
  | [] => []
  | x :: l' => if p x then x :: takeWhile p l' else []
  end.

(** How many evaluations in a row, counted back from the latest one,
    are quiet. *)
Definition consecutiveQuiet (drawScore : Z)
    (calls : list (Board * MoveEvaluation)) : Z :=
  Z.of_nat (length (takeWhile (quiet drawScore) (rev calls))).

(** The same count when every evaluation within the bound is taken as
    evidence, whatever its depth. *)
Definition withinBound (drawScore : Z) (c : Board * MoveEvaluation) : bool :=
  Z.abs (score (snd c)) <=? drawScore.

Definition consecutiveWithinBound (drawScore : Z)
    (calls : list (Board * MoveEvaluation)) : Z :=
  Z.of_nat (length (takeWhile (withinBound drawScore) (rev calls))).

(** Whether the tablebase rule fires on a board: tablebase
    adjudication is on and the board has a tablebase result.  A call
    in which it fires returns before the heuristic rules. *)
Definition tablebaseFires (a : t) (board : Board) : bool :=
  m_tbEnabled a && negb (isNone (tablebaseResult board)).

(** The calls that reach the heuristic rules: those in which the
    tablebase rule does not fire. *)
Definition heard (a : t) (calls : list (Board * MoveEvaluation))
  : list (Board * MoveEvaluation) :=
  List.filter (fun c => negb (tablebaseFires a (fst c))) calls.

(** *** Concrete adjudicators and boards *)

Definition boardAt (side : Side) (ply : Z) (tb : Result) : Board :=
  mkBoard side ply tb.

Definition tbWin : Result := mkResult Win White "tablebase".

(** The draw rule of scenario 4 together with a resign rule. *)
Definition tcecAdjudicator : t :=
  setResignThreshold (setDrawThreshold new 40 5 10) 3 (-500).

(** The same game under tablebase adjudication. *)
Definition tbAdjudicator : t :=
  setTablebaseAdjudication tcecAdjudicator true.

(** The state after one real, quiet evaluation of White's 41st move. *)
Definition tbAfterOne : t :=
  addEval tbAdjudicator (boardAt Black 81 Result_default)
          (mkEval 12 5 1000 "").

(** A draw rule that needs two quiet half-moves from move 1 on. *)
Definition quickDraw : t := setDrawThreshold new 1 1 10.

Definition quietCall (side : Side) (ply : Z) : Board * MoveEvaluation :=
  (boardAt side ply Result_default, mkEval 9 3 1000 "").

Definition bookCall (side : Side) (ply : Z) : Board * MoveEvaluation :=
  (boardAt side ply Result_default, mkEval 0 0 0 "").

(** A quiet evaluation on a board the tablebases know as won. *)
Definition tbCall (side : Side) (ply : Z) : Board * MoveEvaluation :=
  (boardAt side ply tbWin, mkEval 9 3 1000 "").

Definition quickDrawTb : t := setTablebaseAdjudication quickDraw true.

End GameAdjudicator.

(** ** Text *)

Module Text.

(** The two characters that string literals cannot hold here. *)
Definition dquote : string := String "034"%char "".
Definition nl : string := String "010"%char "".

Definition isEmpty (s : string) : bool :=
  match s with
  | EmptyString => true
  | String _ _ => false
  end.

(** [QString::size] as an [int]. *)
Definition size (s : string) : Z := Z.of_nat (String.length s).

(** [QString::number(int)]: decimal digits, with a minus sign for a
    negative number. *)
Definition QString_number (n : Z) : string := pretty n.

(** The lines of a text: the pieces between its newline characters. *)
Fixpoint linesFrom (cur : string) (s : string) : list string :=
  match s with
  | EmptyString => [cur]
  | String c rest =>
      if Ascii.eqb c "010"%char
      then cur :: linesFrom "" rest
      else linesFrom (cur ++ String c "") rest
  end.

Definition lines (s : string) : list string := linesFrom "" s.

Definition longestLine (s : string) : nat :=
  fold_right Nat.max 0%nat (map String.length (lines s)).

End Text.

(** ** QMap<QString, QString> *)

Module QMap.

Definition keyLe (a b : string * string) : Prop :=
  String.leb (fst a) (fst b) = true.

#[global] Instance keyLe_dec a b : Decision (keyLe a b).
Proof. unfold keyLe. solve_decision. Defined.

(** [value(key)]: the value stored under [key], or a default
    constructed (empty) string. *)
Definition value (m : gmap string string) (key : string) : string :=
  default "" (m !! key).

Definition contains (m : gmap string string) (key : string) : bool :=
  bool_decide (is_Some (m !! key)).

Definition isEmpty (m : gmap string string) : bool :=
  bool_decide (m = ∅).

(** Iteration from [constBegin] to [constEnd]: ascending keys. *)
Definition toList (m : gmap string string) : list (string * string) :=
  merge_sort keyLe (map_to_list m).

End QMap.

(** ** PgnGame (pgngame.cpp) *)

(** An [EcoNode] is a node of the opening catalogue; the class is
    declared in econode.h, and the game uses it through these
    members. *)
Class EcoCatalogue (EcoNode : Type) := {
  eco_root : option EcoNode;
  eco_child : EcoNode -> string -> option EcoNode;
  eco_isLeaf : EcoNode -> bool;
  eco_ecoCode : EcoNode -> string;
  eco_opening : EcoNode -> string;
  eco_variation : EcoNode -> string
}.

(** Modelled from the spec: a generic move is "a coordinate-form
    representation independent of side-to-move": source square, target
    square and promotion piece (declared in board/genericmove.h). *)
Record GenericMove := mkGenericMove {
  sourceSquare : Z * Z;
  targetSquare : Z * Z;
  promotion : Z
}.

#[global] Instance GenericMove_eq_dec : EqDecision GenericMove.
Proof. solve_decision. Defined.

Module PgnGame.
Import Chess Text.
Local Open Scope Z_scope.

Inductive PgnMode := Minimal | Verbose.

#[global] Instance PgnMode_eq_dec : EqDecision PgnMode.
Proof. solve_decision. Defined.

(** [PgnGame::MoveData]. *)
Record MoveData := mkMoveData {
  key : Z;
  genericMove : GenericMove;
  moveString : string;
  comment : string
}.

#[global] Instance MoveData_eq_dec : EqDecision MoveData.
Proof. solve_decision. Defined.

Section Game.
Context {EcoNode : Type} `{EcoCatalogue EcoNode}.

Record t := mk {
  m_startingSide : Side;
  m_eco : option EcoNode;
  m_tags : gmap string string;
  m_moves : list MoveData
}.

Definition with_tags (g : t) (tags : gmap string string) : t :=
  mk (m_startingSide g) (m_eco g) tags (m_moves g).

(** [PgnGame::PgnGame()]. *)
Definition new : t := mk White eco_root ∅ [].

Definition isNull (g : t) : bool :=
  QMap.isEmpty (m_tags g) && bool_decide (m_moves g = []).

(** [clear]; [Chess::Side()] is [NoSide]. *)
Definition clear (g : t) : t := mk NoSide eco_root ∅ [].

Definition moves (g : t) : list MoveData := m_moves g.

Definition tagValue (g : t) (tag : string) : string :=
  QMap.value (m_tags g) tag.

Definition variant (g : t) : string :=
  if QMap.contains (m_tags g) "Variant"
  then QMap.value (m_tags g) "Variant"
  else "standard".

Definition isStandard (g : t) : bool :=
  bool_decide (variant g = "standard")
  && negb (QMap.contains (m_tags g) "FEN").

Definition startingSide (g : t) : Side := m_startingSide g.

Definition startingFenString (g : t) : string :=
  QMap.value (m_tags g) "FEN".

(** [PgnGame::setTag]. *)
Definition setTag (g : t) (tag value : string) : t :=
  if isEmpty value
  then with_tags g (delete tag (m_tags g))
  else with_tags g (<[tag := value]> (m_tags g)).

Definition setEvent (g : t) (event : string) : t :=
  with_tags g (<["Event" := event]> (m_tags g)).

Definition setSite (g : t) (site : string) : t :=
  with_tags g (<["Site" := site]> (m_tags g)).

Definition setRound (g : t) (round : Z) : t :=
  with_tags g (<["Round" := QString_number round]> (m_tags g)).

Definition setPlayerName (g : t) (side : Side) (name : string) : t :=
  match side with
  | White => with_tags g (<["White" := name]> (m_tags g))
  | Black => with_tags g (<["Black" := name]> (m_tags g))
  | NoSide => g
  end.

Definition setVariant (g : t) (v : string) : t :=
  if bool_decide (v = "standard")
  then with_tags g (delete "Variant" (m_tags g))
  else with_tags g (<["Variant" := v]> (m_tags g)).

Definition setStartingSide (g : t) (side : Side) : t :=
  mk side (m_eco g) (m_tags g) (m_moves g).

Definition setStartingFenString (g : t) (side : Side) (fen : string) : t :=
  if isEmpty fen
  then mk side (m_eco g) (delete "SetUp" (delete "FEN" (m_tags g)))
          (m_moves g)
  else mk side (m_eco g)
          (<["SetUp" := "1"]> (<["FEN" := fen]> (m_tags g)))
          (m_moves g).

(** [setResultDescription]: the description joins the comment of the
    last move. *)
Definition setResultDescription (g : t) (descr : string) : t :=
  if isEmpty descr then g
  else
    match List.rev (m_moves g) with
    | [] => g
    | lastMove :: before =>
        let c := comment lastMove in
        let c := if isEmpty c then c else c ++ ", " in
        mk (m_startingSide g) (m_eco g) (m_tags g)
           (List.rev before
            ++ [mkMoveData (key lastMove) (genericMove lastMove)
                           (moveString lastMove) (c ++ descr)])
    end.

(** [PgnGame::addMove]. *)
Definition addMove (g : t) (data : MoveData) : t :=
  let g1 := mk (m_startingSide g) (m_eco g) (m_tags g)
               (m_moves g ++ [data]) in
  let eco :=
    match m_eco g1 with
    | Some node =>
        if isStandard g1 then eco_child node (moveString data) else None
    | None => None
    end in
  let g2 := mk (m_startingSide g1) eco (m_tags g1) (m_moves g1) in
  match eco with
  | Some node =>
      if eco_isLeaf node then
        setTag (setTag (setTag g2 "ECO" (eco_ecoCode node))
                       "Opening" (eco_opening node))
               "Variation" (eco_variation node)
      else g2
  | None => g2
  end.

(** *** Writing *)

(** The static function [writeTag]: the text it sends to the stream. *)
Definition writeTag (tag value : string) : string :=
  if negb (isEmpty value)
  then "[" ++ tag ++ " " ++ dquote ++ value ++ dquote ++ "]" ++ nl
  else "[" ++ tag ++ " " ++ dquote ++ "?" ++ dquote ++ "]" ++ nl.

(** The seven tag roster. *)
Definition roster : list string :=
  ["Event"; "Site"; "Date"; "Round"; "White"; "Black"; "Result"].

Definition rosterContains (tag : string) : bool :=
  bool_decide (tag ∈ roster).

(** The first loop of [write]. *)
Definition writeRoster (tags : gmap string string) : string :=
  fold_right (fun tag out => writeTag tag (QMap.value tags tag) ++ out)
             "" roster.

(** The tags the loop of the [Verbose] branch writes, in its order. *)
Definition supplementaryTags (tags : gmap string string)
  : list (string * string) :=
  List.filter (fun kv => negb (rosterContains (fst kv))
                         && negb (isEmpty (snd kv)))
              (QMap.toList tags).

(** "Other supported tags". *)
Definition writeOtherTags (mode : PgnMode) (tags : gmap string string)
  : string :=
  match mode with
  | Verbose =>
      fold_right (fun kv out => writeTag (fst kv) (snd kv) ++ out)
                 "" (supplementaryTags tags)
  | Minimal =>
      if QMap.contains tags "FEN"
      then writeTag "FEN" (QMap.value tags "FEN")
           ++ writeTag "SetUp" (QMap.value tags "SetUp")
      else ""
  end.

(** The text of a move: its number when due, the move string, the
    comment in braces in [Verbose] mode. *)
Definition moveToken (mode : PgnMode) (numbered : bool) (movenum : Z)
    (data : MoveData) : string :=
  (if numbered then QString_number movenum ++ ". " else "")
  ++ moveString data
  ++ (if bool_decide (mode = Verbose) && negb (isEmpty (comment data))
      then " {" ++ comment data ++ "}" else "").

(** The move loop of [write] and the termination marker after it.
    [i], [lineLength], [movenum] and [side] are the loop's variables;
    [result] is the value of the "Result" tag. *)
Fixpoint writeMoves (mode : PgnMode) (result : string)
    (moves : list MoveData) (i lineLength movenum side : Z) : string :=
  match moves with
  | [] =>
      if 80 <=? lineLength + size result
      then nl ++ result ++ nl ++ nl
      else " " ++ result ++ nl ++ nl
  | data :: rest =>
      let numbered := (side =? Z.of_nat (sideIndex White)) || (i =? 0) in
      let movenum := if numbered then movenum + 1 else movenum in
      let str := moveToken mode numbered movenum data in
      let side := if side =? 0 then 1 else 0 in
      (* Limit the lines to 80 characters *)
      if (lineLength =? 0) || (80 <=? lineLength + size str)
      then nl ++ str
           ++ writeMoves mode result rest (i + 1) (size str) movenum side
      else " " ++ str
           ++ writeMoves mode result rest (i + 1)
                (lineLength + (size str + 1)) movenum side
  end.

(** The tokens the move loop builds, one per move, with the loop's
    numbering. *)
Fixpoint moveTokens (mode : PgnMode) (moves : list MoveData)
    (i movenum side : Z) : list string :=
  match moves with
  | [] => []
  | data :: rest =>
      let numbered := (side =? Z.of_nat (sideIndex White)) || (i =? 0) in
      let movenum := if numbered then movenum + 1 else movenum in
      moveToken mode numbered movenum data
      :: moveTokens mode rest (i + 1) movenum (if side =? 0 then 1 else 0)
  end.

(** Everything [write] sends after the tags. *)
Definition writeMovetext (g : t) (mode : PgnMode) : string :=
  writeMoves mode (QMap.value (m_tags g) "Result") (m_moves g)
             0 0 0 (Z.of_nat (sideIndex (m_startingSide g))).

Definition movetextTokens (g : t) (mode : PgnMode) : list string :=
  moveTokens mode (m_moves g) 0 0 (Z.of_nat (sideIndex (m_startingSide g))).

(** [PgnGame::write(QTextStream&, PgnMode)]: the stream's content
    after the call. *)
Definition write (out : string) (g : t) (mode : PgnMode) : string :=
  if QMap.isEmpty (m_tags g) then out
  else out ++ writeRoster (m_tags g)
           ++ writeOtherTags mode (m_tags g)
           ++ writeMovetext g mode.

End Game.

Arguments t EcoNode : clear implicits.

(** *** The written format, for the statements about it

    A tag pair line, [[Name "value"]]. *)
Definition tagLine (name value : string) : string :=
  "[" ++ name ++ " " ++ dquote ++ value ++ dquote ++ "]" ++ nl.

(** The value a tag line shows for a tag: the stored one, or a
    question mark when the tag is missing or its value is empty. *)
Definition shown (tags : gmap string string) (tag : string) : string :=
  match tags !! tag with
  | Some (String c v) => String c v
  | Some EmptyString | None => "?"
  end.

End PgnGame.

(** ** ChessGame (chessgame.cpp) *)

Module ChessGame.
Import Chess Text.
Local Open Scope Z_scope.

(** [Q_ASSERT(cond)]: a debug build stops the program when [cond] is
    false, a release build compiles the check away.  [None] is the
    stopped program. *)
Definition Q_ASSERT {A} (debug cond : bool) (k : option A) : option A :=
  if debug && negb cond then None else k.

(** What the game asks of its [Chess::Board] (chessboard.h). *)
Class BoardRules (Board Move : Type) := {
  sideToMove : Board -> Side;
  isLegalMove : Board -> Move -> bool;
  makeMove : Board -> Move -> Board;
  boardResult : Board -> Result
}.

(** A [ChessPlayer*]; 0 is the null pointer. *)
Definition Player : Type := nat.

(** What the game does to the world around it: calls of its players'
    members, signal connections, emitted signals, debug output. *)
Inductive Effect (Move : Type) :=
| PlayerEndGame (p : Player) (r : Result)
| PlayerMakeMove (p : Player) (m : Move)
| PlayerGo (p : Player)
| ConnectReady (p : Player)
| DisconnectReady (p : Player)
| ConnectGameEnded
| EmitPlayersReady
| EmitMoveMade (m : Move)
| Debug (msg : string).

Arguments PlayerEndGame {Move}.
Arguments PlayerMakeMove {Move}.
Arguments PlayerGo {Move}.
Arguments ConnectReady {Move}.
Arguments DisconnectReady {Move}.
Arguments ConnectGameEnded {Move}.
Arguments EmitPlayersReady {Move}.
Arguments EmitMoveMade {Move}.
Arguments Debug {Move}.

(** [QString::number(x / 100.0, 'f', 2)] for an [int] x: the quotient
    has at most two decimals, so the printed text is exact: sign,
    integer part, point, two digits. *)
Definition formatHundredths (x : Z) : string :=
  let a := Z.abs x in
  (if x <? 0 then "-" else "")
  ++ QString_number (a ÷ 100) ++ "."
  ++ QString_number (Z.rem a 100 ÷ 10) ++ QString_number (Z.rem a 10).

Section Game.
Context {Board Move : Type} `{BoardRules Board Move}.

(** [MoveEvaluation::isEmpty], declared in moveevaluation.h. *)
Variable evalIsEmpty : MoveEvaluation -> bool.

(** The members of the game and of its base class that the handlers
    below use, and the effects so far. *)
Record t := mk {
  m_board : Board;
  m_player : Player * Player;
  m_gameInProgress : bool;
  m_result : Result;
  m_moves : list Move;
  m_comments : list string;
  effects : list (Effect Move)
}.

Definition emit (g : t) (e : Effect Move) : t :=
  mk (m_board g) (m_player g) (m_gameInProgress g) (m_result g)
     (m_moves g) (m_comments g) (effects g ++ [e]).

Definition with_result (g : t) (r : Result) : t :=
  mk (m_board g) (m_player g) (m_gameInProgress g) r
     (m_moves g) (m_comments g) (effects g).

Definition with_gameInProgress (g : t) (b : bool) : t :=
  mk (m_board g) (m_player g) b (m_result g)
     (m_moves g) (m_comments g) (effects g).

(** [m_player[i]]; there are two slots. *)
Definition playerAt (g : t) (i : nat) : Player :=
  match i with
  | O => fst (m_player g)
  | S O => snd (m_player g)
  | _ => O
  end.

Definition playerToMove (g : t) : Player :=
  match sideToMove (m_board g) with
  | NoSide => O
  | side => playerAt g (sideIndex side)
  end.

(** [m_player[!((int)side)]]. *)
Definition playerToWait (g : t) : Player :=
  match sideToMove (m_board g) with
  | NoSide => O
  | side => playerAt g (if Nat.eqb (sideIndex side) 0 then 1 else 0)%nat
  end.

Definition arePlayersReady (ready : Player -> bool) (g : t) : bool :=
  ready (playerAt g 0) && ready (playerAt g 1).

(** [syncPlayers(ignoreSender)]; [sender] is [QObject::sender()], 0
    when the call is not made from a player's signal; [ready] answers
    [ChessPlayer::isReady].  [emit playersReady()] is recorded as the
    effect [EmitPlayersReady] and the slots connected to the signal
    are not run here: [start], which connects itself to the signal
    while it waits for the players, is run on the signal by
    [ChessGameStart.syncPlayersSlot]. *)
Definition syncPlayers (ready : Player -> bool) (g : t) (sender : Player)
    (ignoreSender : bool) : t :=
  let '(g, sender) :=
    if ignoreSender && negb (Nat.eqb sender 0)
    then (emit g (DisconnectReady sender), O)
    else (g, sender) in
  if Nat.eqb sender 0 then
    let poll (g : t) (i : nat) :=
      if negb (ready (playerAt g i))
      then emit g (ConnectReady (playerAt g i)) else g in
    let g := poll (poll g 0%nat) 1%nat in
    if arePlayersReady ready g then emit g EmitPlayersReady else g
  else
    let g := emit g (DisconnectReady sender) in
    if negb (arePlayersReady ready g) then g else emit g EmitPlayersReady.

(** [ChessGame::endGame]. *)
Definition endGame (ready : Player -> bool) (g : t) (sender : Player) : t :=
  if negb (m_gameInProgress g) then g
  else
    let g := with_gameInProgress g false in
    let g := emit g (PlayerEndGame (playerAt g 0) (m_result g)) in
    let g := emit g (PlayerEndGame (playerAt g 1) (m_result g)) in
    let g := emit g ConnectGameEnded in
    syncPlayers ready g sender true.

(** The PGN comment [onMoveMade] derives from an evaluation. *)
Definition evalComment (eval : MoveEvaluation) : string :=
  if evalIsEmpty eval then ""
  else
    (if 0 <? depth eval
     then (if 0 <? score eval then "+" else "")
          ++ formatHundredths (score eval) ++ "/"
          ++ QString_number (depth eval) ++ " "
     else "")
    ++ QString_number ((time eval + 500) ÷ 1000) ++ "s".

(** [ChessGame::onMoveMade]; [sender] is the player whose signal
    arrived, [eval] its [evaluation()]. *)
Definition onMoveMade (debug : bool) (ready : Player -> bool) (g : t)
    (sender : Player) (move : Move) (eval : MoveEvaluation) : option t :=
  Q_ASSERT debug (negb (Nat.eqb sender 0)) (
  Q_ASSERT debug (m_gameInProgress g) (
  Q_ASSERT debug (isLegalMove (m_board g) move) (
    if negb (Nat.eqb sender (playerToMove g)) then
      Some (emit g (Debug "tried to make a move on the opponent's turn"))
    else
      (* Save the evaluation as a PGN comment *)
      let g := mk (m_board g) (m_player g) (m_gameInProgress g) (m_result g)
                  (m_moves g ++ [move])
                  (m_comments g ++ [evalComment eval]) (effects g) in
      let g := emit g (PlayerMakeMove (playerToWait g) move) in
      let g := mk (makeMove (m_board g) move) (m_player g)
                  (m_gameInProgress g) (m_result g) (m_moves g)
                  (m_comments g) (effects g) in
      let g := with_result g (boardResult (m_board g)) in
      let g := if isNone (m_result g)
               then emit g (PlayerGo (playerToMove g))
               else endGame ready g sender in
      Some (emit g (EmitMoveMade move))))).

(** [ChessGame::onForfeit]. *)
Definition onForfeit (ready : Player -> bool) (g : t) (sender : Player)
    (result : Result) : t :=
  if negb (m_gameInProgress g) then g
  else endGame ready (with_result g result) sender.

(** The state the claims about the conductor speak of. *)
Definition gameState (g : t)
  : Result * list Move * list string * Board :=
  (m_result g, m_moves g, m_comments g, m_board g).

End Game.

Arguments t Board Move : clear implicits.

(** *** A board for concrete games

    The position is the number of half-moves played; every move is
    legal, White moves on even counts, and the game never ends by
    itself. *)
#[export] Instance plyBoard : BoardRules nat string := {
  sideToMove := fun b => if Nat.even b then White else Black;
  isLegalMove := fun _ _ => true;
  makeMove := fun b _ => S b;
  boardResult := fun _ => Result_default
}.

Definition neverEmpty (e : MoveEvaluation) : bool := false.

Definition bothReady (p : Player) : bool := true.

(** White (player 1) to move against Black (player 2), game running. *)
Definition running : t nat string :=
  mk 0%nat (1%nat, 2%nat) true Result_default [] [] [].

(** White loses on time. *)
Definition timedOut : t nat string :=
  onForfeit bothReady running 1%nat (mkResult Timeout Black "").

End ChessGame.

(** ** EngineMatch (enginematch.cpp) *)

Module EngineMatch.
Import Chess Text.
Local Open Scope Z_scope.
Local Open Scope list_scope.

(** Modelled from the spec: the per-engine configuration is "command,
    working-directory?, name?, protocol, time-control spec" (the
    classes are declared in engineconfiguration.h and
    enginesettings.h). *)
Record EngineConfiguration := mkConfig {
  command : string;
  workingDirectory : string;
  name : string;
  protocol : string
}.

Record EngineSettings := mkSettings {
  timeControlValid : bool
}.

(** [EngineMatch::EngineData]; [engine] and [process] are pointers, 0
    is the null pointer. *)
Record EngineData := mkEngineData {
  config : EngineConfiguration;
  settings : EngineSettings;
  wins : Z;
  engine : nat;
  process : nat
}.

(** [result.code()]: the kind of the result; the code
    [WinByDisconnection] is the kind [Disconnection]. *)
Definition code (r : Result) : ResultType := type r.

Section Match.
Context {Move : Type}.

(** What the match does to the world around it. *)
Inductive Effect :=
| Warning (msg : string)
| DebugMsg (msg : string)
| SetPlayer (side : Side) (engine : nat)
| SetFenString (fen : string)
| SetOpeningMoves (moves : list Move)
| SetOpeningBook (bookDepth : Z)
| LoadPgn (maxMoves : Z)
| RewindPgn
| StartGame
| WritePgn (file event site : string) (round : Z)
| SingleShot (msec : Z)
| QuitEngine (engine process : nat)
| EmitFinished.

Record t := mk {
  m_bookDepth : Z;
  m_gameCount : Z;
  m_drawCount : Z;
  m_currentGame : Z;
  m_pgnGamesRead : Z;
  m_white : option nat;
  m_black : option nat;
  m_book : option string;
  m_debug : bool;
  m_repeatOpening : bool;
  m_variant : string;
  m_engines : list EngineData;
  m_fen : string;
  m_openingMoves : list Move;
  m_event : string;
  m_site : string;
  m_pgnInputOpen : bool;
  m_pgnOutput : string;
  effects : list Effect
}.

(** [EngineMatch::EngineMatch]. *)
Definition new : t :=
  mk 30 1 0 0 0 None None None false false "standard" [] "" [] "" ""
     false "" [].

Definition emit (m : t) (e : Effect) : t :=
  mk (m_bookDepth m) (m_gameCount m) (m_drawCount m) (m_currentGame m)
     (m_pgnGamesRead m) (m_white m) (m_black m) (m_book m) (m_debug m)
     (m_repeatOpening m) (m_variant m) (m_engines m) (m_fen m)
     (m_openingMoves m) (m_event m) (m_site m) (m_pgnInputOpen m)
     (m_pgnOutput m) (effects m ++ [e]).

Definition with_engines (m : t) (engines : list EngineData) : t :=
  mk (m_bookDepth m) (m_gameCount m) (m_drawCount m) (m_currentGame m)
     (m_pgnGamesRead m) (m_white m) (m_black m) (m_book m) (m_debug m)
     (m_repeatOpening m) (m_variant m) engines (m_fen m)
     (m_openingMoves m) (m_event m) (m_site m) (m_pgnInputOpen m)
     (m_pgnOutput m) (effects m).

Definition with_counters (m : t) (drawCount currentGame pgnGamesRead : Z) : t :=
  mk (m_bookDepth m) (m_gameCount m) drawCount currentGame
     pgnGamesRead (m_white m) (m_black m) (m_book m) (m_debug m)
     (m_repeatOpening m) (m_variant m) (m_engines m) (m_fen m)
     (m_openingMoves m) (m_event m) (m_site m) (m_pgnInputOpen m)
     (m_pgnOutput m) (effects m).

Definition with_colours (m : t) (white black : option nat) : t :=
  mk (m_bookDepth m) (m_gameCount m) (m_drawCount m) (m_currentGame m)
     (m_pgnGamesRead m) white black (m_book m) (m_debug m)
     (m_repeatOpening m) (m_variant m) (m_engines m) (m_fen m)
     (m_openingMoves m) (m_event m) (m_site m) (m_pgnInputOpen m)
     (m_pgnOutput m) (effects m).

Definition with_opening (m : t) (fen : string) (moves : list Move) : t :=
  mk (m_bookDepth m) (m_gameCount m) (m_drawCount m) (m_currentGame m)
     (m_pgnGamesRead m) (m_white m) (m_black m) (m_book m) (m_debug m)
     (m_repeatOpening m) (m_variant m) (m_engines m) fen
     moves (m_event m) (m_site m) (m_pgnInputOpen m)
     (m_pgnOutput m) (effects m).

(** [EngineMatch::addEngine]. *)
Definition addEngine (m : t) (engineConfig : EngineConfiguration)
    (engineSettings : EngineSettings) : t :=
  (* We don't allow more than 2 engines at this point *)
  if 2 <=? Z.of_nat (length (m_engines m)) then
    emit m (Warning "Only two engines can be added")
  else if isEmpty (command engineConfig) then m
  else
    with_engines m
      (m_engines m ++ [mkEngineData engineConfig engineSettings 0 0 0]).

Definition setBookDepth (m : t) (bookDepth : Z) : t :=
  if bookDepth <=? 0 then
    emit m (Warning "Book depth must be bigger than zero")
  else
    mk bookDepth (m_gameCount m) (m_drawCount m) (m_currentGame m)
       (m_pgnGamesRead m) (m_white m) (m_black m) (m_book m) (m_debug m)
       (m_repeatOpening m) (m_variant m) (m_engines m) (m_fen m)
       (m_openingMoves m) (m_event m) (m_site m) (m_pgnInputOpen m)
       (m_pgnOutput m) (effects m).

(** [setBookFile]; [opens] tells whether the file can be opened. *)
Definition setBookFile (m : t) (filename : string) (opens : bool) : t :=
  let book := if opens then Some filename else None in
  let m :=
    mk (m_bookDepth m) (m_gameCount m) (m_drawCount m) (m_currentGame m)
       (m_pgnGamesRead m) (m_white m) (m_black m) book (m_debug m)
       (m_repeatOpening m) (m_variant m) (m_engines m) (m_fen m)
       (m_openingMoves m) (m_event m) (m_site m) (m_pgnInputOpen m)
       (m_pgnOutput m) (effects m) in
  if opens then m else emit m (Warning "Can't open book file").

Definition setDebugMode (m : t) (debug : bool) : t :=
  mk (m_bookDepth m) (m_gameCount m) (m_drawCount m) (m_currentGame m)
     (m_pgnGamesRead m) (m_white m) (m_black m) (m_book m) debug
     (m_repeatOpening m) (m_variant m) (m_engines m) (m_fen m)
     (m_openingMoves m) (m_event m) (m_site m) (m_pgnInputOpen m)
     (m_pgnOutput m) (effects m).

Definition setEvent (m : t) (event : string) : t :=
  mk (m_bookDepth m) (m_gameCount m) (m_drawCount m) (m_currentGame m)
     (m_pgnGamesRead m) (m_white m) (m_black m) (m_book m) (m_debug m)
     (m_repeatOpening m) (m_variant m) (m_engines m) (m_fen m)
     (m_openingMoves m) event (m_site m) (m_pgnInputOpen m)
     (m_pgnOutput m) (effects m).

Definition setGameCount (m : t) (gameCount : Z) : t :=
  mk (m_bookDepth m) gameCount (m_drawCount m) (m_currentGame m)
     (m_pgnGamesRead m) (m_white m) (m_black m) (m_book m) (m_debug m)
     (m_repeatOpening m) (m_variant m) (m_engines m) (m_fen m)
     (m_openingMoves m) (m_event m) (m_site m) (m_pgnInputOpen m)
     (m_pgnOutput m) (effects m).

(** [setPgnInput]; [opens] tells whether the file can be opened. *)
Definition setPgnInput (m : t) (filename : string) (opens : bool) : t :=
  let m :=
    mk (m_bookDepth m) (m_gameCount m) (m_drawCount m) (m_currentGame m)
       (m_pgnGamesRead m) (m_white m) (m_black m) (m_book m) (m_debug m)
       (m_repeatOpening m) (m_variant m) (m_engines m) (m_fen m)
       (m_openingMoves m) (m_event m) (m_site m) opens
       (m_pgnOutput m) (effects m) in
  if opens then m else emit m (Warning "Can't open PGN file:").

Definition setPgnOutput (m : t) (filename : string) : t :=
  mk (m_bookDepth m) (m_gameCount m) (m_drawCount m) (m_currentGame m)
     (m_pgnGamesRead m) (m_white m) (m_black m) (m_book m) (m_debug m)
     (m_repeatOpening m) (m_variant m) (m_engines m) (m_fen m)
     (m_openingMoves m) (m_event m) (m_site m) (m_pgnInputOpen m)
     filename (effects m).

Definition setRepeatOpening (m : t) (repeatOpening : bool) : t :=
  mk (m_bookDepth m) (m_gameCount m) (m_drawCount m) (m_currentGame m)
     (m_pgnGamesRead m) (m_white m) (m_black m) (m_book m) (m_debug m)
     repeatOpening (m_variant m) (m_engines m) (m_fen m)
     (m_openingMoves m) (m_event m) (m_site m) (m_pgnInputOpen m)
     (m_pgnOutput m) (effects m).

Definition setSite (m : t) (site : string) : t :=
  mk (m_bookDepth m) (m_gameCount m) (m_drawCount m) (m_currentGame m)
     (m_pgnGamesRead m) (m_white m) (m_black m) (m_book m) (m_debug m)
     (m_repeatOpening m) (m_variant m) (m_engines m) (m_fen m)
     (m_openingMoves m) (m_event m) site (m_pgnInputOpen m)
     (m_pgnOutput m) (effects m).

Definition setVariant (m : t) (variant : string) : t :=
  mk (m_bookDepth m) (m_gameCount m) (m_drawCount m) (m_currentGame m)
     (m_pgnGamesRead m) (m_white m) (m_black m) (m_book m) (m_debug m)
     (m_repeatOpening m) variant (m_engines m) (m_fen m)
     (m_openingMoves m) (m_event m) (m_site m) (m_pgnInputOpen m)
     (m_pgnOutput m) (effects m).

(** The loop of [initialize] over the engines; [starts] tells whether
    the process of a command starts, [next] numbers the objects the
    loop creates.  The result is the engines as the loop leaves them,
    and the warning that ended the loop if one did. *)
Fixpoint initEngines (starts : string -> bool) (next : nat)
    (engines : list EngineData) : list EngineData * option string :=
  match engines with
  | [] => ([], None)
  | it :: rest =>
      if negb (timeControlValid (settings it))
      then (it :: rest, Some "Invalid or missing time control")
      else
        let started :=
          mkEngineData (config it) (settings it) 0 (engine it) next in
        if negb (starts (command (config it)))
        then (started :: rest, Some "Cannot start engine")
        else
          let ready := mkEngineData (config it) (settings it) 0 next next in
          let '(rest', warning) := initEngines starts (S next) rest in
          (ready :: rest', warning)
  end.

(** [EngineMatch::initialize]. *)
Definition initialize (m : t) (starts : string -> bool) : t * bool :=
  if Z.of_nat (length (m_engines m)) <? 2 then
    (emit m (Warning "Two engines are needed"), false)
  else
    let m := with_colours (with_counters m 0 0 (m_pgnGamesRead m)) None None in
    let '(engines, warning) := initEngines starts 1 (m_engines m) in
    let m := with_engines m engines in
    match warning with
    | Some msg => (emit m (Warning msg), false)
    | None => (m, true)
    end.

(** [EngineMatch::killEngines]. *)
Definition killEngines (m : t) : t :=
  fold_left (fun acc data => emit acc (QuitEngine (engine data) (process data)))
            (m_engines m) m.

(** [m_white->wins++], through the pointer into [m_engines]. *)
Definition addWin (m : t) (who : option nat) : t :=
  match who with
  | Some i =>
      with_engines m
        (alter (fun d => mkEngineData (config d) (settings d) (wins d + 1)
                                      (engine d) (process d))
               i (m_engines m))
  | None => m
  end.

(** The first part of [onGameEnded]: the score, the archive, the game
    counter. *)
Definition recordResult (m : t) (result : Result) : t :=
  let m := emit m (DebugMsg "Game ended") in
  let m :=
    if isDraw result then
      with_counters m (m_drawCount m + 1) (m_currentGame m) (m_pgnGamesRead m)
    else if bool_decide (winner result = White) then
      emit (addWin m (m_white m)) (DebugMsg "wins the game as white")
    else if bool_decide (winner result = Black) then
      emit (addWin m (m_black m)) (DebugMsg "wins the game as black")
    else m in
  let m :=
    if negb (isEmpty (m_pgnOutput m))
    then emit m (WritePgn (m_pgnOutput m) (m_event m) (m_site m)
                          (m_currentGame m + 1))
    else m in
  let m := with_counters m (m_drawCount m) (m_currentGame m + 1)
                         (m_pgnGamesRead m) in
  emit m (DebugMsg "Score").

(** [EngineMatch::onGameEnded]; [result] is the result of the game
    that sent the signal. *)
Definition onGameEnded (m : t) (result : Result) : t :=
  let m := recordResult m result in
  if (m_currentGame m <? m_gameCount m)
     && negb (bool_decide (code result = ResultError))
     && negb (bool_decide (code result = Disconnection))
  then emit m (SingleShot 2000)
  else
    let m := killEngines m in
    let m := emit m (DebugMsg "Finished match") in
    emit m EmitFinished.

(** What [start] learns from the game it sets up: whether the first
    attempt to load from the PGN input succeeds (the second one, after
    rewinding, is only asserted to), and the starting position and
    moves of the game once seeded. *)
Record Seeding := mkSeeding {
  loads : bool;
  startingFen : string;
  seededMoves : list Move
}.

(** [m_engines[i].engine]. *)
Definition engineAt (m : t) (i : nat) : nat :=
  default O (engine <$> (m_engines m !! i)).

(** [who->engine], for a pointer into [m_engines]. *)
Definition engineOf (m : t) (who : option nat) : nat :=
  match who with
  | Some i => engineAt m i
  | None => O
  end.

(** The opening of the game [start] sets up. *)
Definition seedGame (m : t) (seeding : Seeding) : t :=
  if negb (isEmpty (m_fen m))
     || negb (bool_decide (length (m_openingMoves m) = O))
  then
    let m :=
      if negb (isEmpty (m_fen m))
      then with_opening (emit m (SetFenString (m_fen m))) "" (m_openingMoves m)
      else m in
    if negb (bool_decide (length (m_openingMoves m) = O))
    then with_opening (emit m (SetOpeningMoves (m_openingMoves m)))
                      (m_fen m) []
    else m
  else if bool_decide (is_Some (m_book m)) then
    emit m (SetOpeningBook (m_bookDepth m))
  else if m_pgnInputOpen m then
    let m := emit m (LoadPgn (m_bookDepth m)) in
    if loads seeding then
      with_counters m (m_drawCount m) (m_currentGame m) (m_pgnGamesRead m + 1)
    else if 0 <? m_pgnGamesRead m then
      (* Rewind the PGN input file *)
      let m := emit (emit m RewindPgn) (LoadPgn (m_bookDepth m)) in
      with_counters m (m_drawCount m) (m_currentGame m) (m_pgnGamesRead m + 1)
    else m
  else m.

(** The colours of the game [start] sets up. *)
Definition assignColours (m : t) : t :=
  let m :=
    if Z.rem (m_currentGame m) 2 =? 0
    then with_colours m (Some 0%nat) (Some 1%nat)
    else with_colours m (Some 1%nat) (Some 0%nat) in
  let m := emit m (SetPlayer White (engineOf m (m_white m))) in
  emit m (SetPlayer Black (engineOf m (m_black m))).

(** The memo for a repeated opening. *)
Definition rememberOpening (m : t) (seeding : Seeding) : t :=
  if m_repeatOpening m && (Z.rem (m_currentGame m) 2 =? 0)
  then with_opening m (startingFen seeding) (seededMoves seeding)
  else m.

(** [EngineMatch::start]. *)
Definition start (m : t) (seeding : Seeding) : t :=
  let m := emit m (DebugMsg "Started game") in
  let m := assignColours m in
  let m := seedGame m seeding in
  let m := rememberOpening m seeding in
  emit m StartGame.

(** Whether the match has announced its end. *)
Definition finished (m : t) : bool :=
  match List.rev (effects m) with
  | EmitFinished :: _ => true
  | _ => false
  end.

(** What [killEngines] sends. *)
Definition quitAll (m : t) : list Effect :=
  map (fun data => QuitEngine (engine data) (process data)) (m_engines m).

(** Output that is neither a timer nor the end of the match. *)
Definition isLog (e : Effect) : bool :=
  match e with
  | DebugMsg _ | WritePgn _ _ _ _ => true
  | _ => false
  end.

(** A match as it unfolds: from [m], each game is started and ends
    with the given result, until the match announces its end.  The
    list holds the state at the end of each game, when [onGameEnded]
    is called. *)
Fixpoint gamesPlayed (m : t) (outcomes : list (Seeding * Result)) : list t :=
  match outcomes with
  | [] => []
  | (seeding, result) :: rest =>
      let playing := start m seeding in
      let after := onGameEnded playing result in
      playing :: (if finished after then [] else gamesPlayed after rest)
  end.

(** The states a match object can be in: a new one, and what the
    public members and the two slots make of it. *)
Inductive reachable : t -> Prop :=
| reach_new : reachable new
| reach_addEngine m c s : reachable m -> reachable (addEngine m c s)
| reach_setBookDepth m d : reachable m -> reachable (setBookDepth m d)
| reach_setBookFile m f o : reachable m -> reachable (setBookFile m f o)
| reach_setDebugMode m d : reachable m -> reachable (setDebugMode m d)
| reach_setEvent m e : reachable m -> reachable (setEvent m e)
| reach_setGameCount m n : reachable m -> reachable (setGameCount m n)
| reach_setPgnInput m f o : reachable m -> reachable (setPgnInput m f o)
| reach_setPgnOutput m f : reachable m -> reachable (setPgnOutput m f)
| reach_setRepeatOpening m r :
    reachable m -> reachable (setRepeatOpening m r)
| reach_setSite m x : reachable m -> reachable (setSite m x)
| reach_setVariant m v : reachable m -> reachable (setVariant m v)
| reach_initialize m starts :
    reachable m -> reachable (fst (initialize m starts))
| reach_start m seeding : reachable m -> reachable (start m seeding)
| reach_onGameEnded m result :
    reachable m -> reachable (onGameEnded m result).

End Match.

Arguments t Move : clear implicits.
Arguments Effect Move : clear implicits.
Arguments Seeding Move : clear implicits.

(** *** A concrete match *)

Definition engineA : EngineConfiguration := mkConfig "enginea" "" "A" "uci".
Definition engineB : EngineConfiguration := mkConfig "engineb" "" "B" "xboard".
Definition blitz : EngineSettings := mkSettings true.

Definition twoEngines : t string :=
  addEngine (addEngine new engineA blitz) engineB blitz.

(** Four games between A and B, archived. *)
Definition fourGames : t string :=
  fst (initialize (setPgnOutput (setGameCount twoEngines 4) "out.pgn")
                  (fun _ => true)).

Definition noSeed : Seeding string := mkSeeding false "" [].

(** How the first three games go. *)
Definition threeOutcomes : list (Seeding string * Result) :=
  [(noSeed, mkResult Win White "White mates");
   (noSeed, mkResult Draw NoSide "Draw by stalemate");
   (noSeed, mkResult Draw NoSide "Draw by stalemate")].

(** The third game of the four, under way. *)
Definition thirdGame : t string :=
  start (onGameEnded
           (start (onGameEnded (start fourGames noSeed)
                               (mkResult Win White "White mates"))
                  noSeed)
           (mkResult Draw NoSide "Draw by stalemate"))
        noSeed.

End EngineMatch.

(** ** PgnStream and PgnGame::read *)

Module PgnStream.
Import Chess Text.

(** The token types [read] switches on, and the two it leaves to its
    default branch. *)
Inductive TokenType :=
| NoToken | PgnMove | PgnMoveNumber | PgnTag | PgnComment
| PgnLineComment | PgnNag | PgnResult.

(** The stream is [Ok] until its text is used up. *)
Inductive Status := Ok | ReadPastEnd.

(** Where the stream is: between games, in the tag section of a
    game, or in its movetext. *)
Inductive Phase := OutOfGame | InTags | InGame.

(** What the reader asks of the [Chess::Board] the stream holds
    (board/board.h), and of the factory behind
    [PgnStream::setVariant]. *)
Class PgnBoard (Board Move : Type) := {
  createBoard : string -> option Board;
  variantOf : Board -> string;
  isRandomVariant : Board -> bool;
  defaultFenString : Board -> string;
  setFenString : Board -> string -> option Board;
  boardStartingSide : Board -> Side;
  moveFromString : Board -> string -> option Move;
  boardKey : Board -> Z;
  boardGenericMove : Board -> Move -> GenericMove;
  boardMakeMove : Board -> Move -> Board
}.

Definition isSpace (c : ascii) : bool :=
  Ascii.eqb c " " || Ascii.eqb c "010" || Ascii.eqb c "009"
  || Ascii.eqb c "013".

Definition isDigit (c : ascii) : bool :=
  (48 <=? N_of_ascii c)%N && (N_of_ascii c <=? 57)%N.

Definition isLetter (c : ascii) : bool :=
  ((65 <=? N_of_ascii c)%N && (N_of_ascii c <=? 90)%N)
  || ((97 <=? N_of_ascii c)%N && (N_of_ascii c <=? 122)%N).

Fixpoint skipSpaces (s : string) : string :=
  match s with
  | EmptyString => ""
  | String c rest => if isSpace c then skipSpaces rest else s
  end.

(** The characters before the first one that [stop] accepts, and the
    text from that character on. *)
Fixpoint takeUntil (stop : ascii -> bool) (s : string) : string * string :=
  match s with
  | EmptyString => ("", "")
  | String c rest =>
      if stop c then ("", s)
      else let '(word, after) := takeUntil stop rest in (String c word, after)
  end.

Fixpoint lastChar (s : string) : option ascii :=
  match s with
  | EmptyString => None
  | String c EmptyString => Some c
  | String _ rest => lastChar rest
  end.

Fixpoint allChars (p : ascii -> bool) (s : string) : bool :=
  match s with
  | EmptyString => true
  | String c rest => p c && allChars p rest
  end.

(** A word of the movetext ends at white space or at a comment. *)
Definition wordEnd (c : ascii) : bool := isSpace c || Ascii.eqb c "{".

Definition isResultWord (word : string) : bool :=
  bool_decide (word ∈ ["1-0"; "0-1"; "1/2-1/2"]).

(** Modelled from the spec: the words of the movetext are move
    numbers ("numbered with N."), termination markers and moves. *)
Definition classify (word : string) : TokenType :=
  match word with
  | EmptyString => NoToken
  | String c _ =>
      if isDigit c then
        if bool_decide (lastChar word = Some "."%char) then PgnMoveNumber
        else if isResultWord word then PgnResult
        else PgnMove
      else if bool_decide (word = "*") then PgnResult
      else PgnMove
  end.

(** A character a word of the movetext can start with. *)
Definition wordStart (c : ascii) : bool :=
  negb (isSpace c) && negb (Ascii.eqb c "[") && negb (Ascii.eqb c "{")
  && negb (Ascii.eqb c "$").

(** A text that is empty or starts with a character [stop] accepts. *)
Definition stopsAt (stop : ascii -> bool) (s : string) : Prop :=
  match s with
  | EmptyString => True
  | String c _ => stop c = true
  end.

Section Stream.
Context {Board Move : Type} `{PgnBoard Board Move}.

(** Modelled from the spec: the stream is the text still to be read,
    the board moves are checked on, and the last token.  The class is
    declared in pgnstream.h; the spec names its tokens ("tag, move,
    result, comment, NAG, end-of-game sentinel") and the format they
    come from: tag pairs [[Name "value"]], moves "numbered with N.",
    "separated by single spaces", "comments in braces", the result as
    termination marker, games separated by a blank line. *)
Record t := mk {
  input : string;
  board : Board;
  status : Status;
  phase : Phase;
  tokenString : string;
  tagName : string;
  tagValue : string
}.

(** A stream on a text, before the first game. *)
Definition open (text : string) (b : Board) : t :=
  mk text b Ok OutOfGame "" "" "".

Definition atEnd (s : t) : t :=
  mk "" (board s) ReadPastEnd OutOfGame (tokenString s) (tagName s)
     (tagValue s).

(** Modelled from the spec: "Advance to the next game's header; if
    none, return no game". *)
Definition nextGame (s : t) : bool * t :=
  let '(_, rest) := takeUntil (fun c => Ascii.eqb c "[") (input s) in
  match rest with
  | EmptyString => (false, atEnd s)
  | _ => (true, mk rest (board s) Ok InTags "" "" "")
  end.

(** Modelled from the spec: [setVariant] "resolves the variant": a
    board of the named variant replaces the stream's board, if the
    variant is known. *)
Definition setVariant (s : t) (variant : string) : bool * t :=
  match createBoard variant with
  | Some b =>
      (true, mk (input s) b (status s) (phase s) (tokenString s)
                (tagName s) (tagValue s))
  | None => (false, s)
  end.

(** Modelled from the spec: a tag pair, after its opening bracket:
    the name up to the white space, the value between the quotes, the
    closing bracket. *)
Definition readTag (s : t) (r : string) : TokenType * t :=
  let '(name, r1) := takeUntil isSpace r in
  match skipSpaces r1 with
  | String q r2 =>
      if Ascii.eqb q "034" then
        let '(value, r3) := takeUntil (fun c => Ascii.eqb c "034") r2 in
        match r3 with
        | String _ r4 =>
            let '(_, r5) := takeUntil (fun c => Ascii.eqb c "]") r4 in
            match r5 with
            | String _ r6 =>
                (PgnTag, mk r6 (board s) Ok InTags "" name value)
            | EmptyString => (NoToken, atEnd s)
            end
        | EmptyString => (NoToken, atEnd s)
        end
      else (NoToken, atEnd s)
  | EmptyString => (NoToken, atEnd s)
  end.

(** Modelled from the spec: [readNext] skips white space and reads
    one token: a tag pair, a comment in braces, a NAG ([$] and
    digits), or a word of the movetext.  A bracket after the tags
    belongs to the next game: it ends this one. *)
Definition readNext (s : t) : TokenType * t :=
  match phase s with
  | OutOfGame => (NoToken, s)
  | _ =>
      match skipSpaces (input s) with
      | EmptyString => (NoToken, atEnd s)
      | String c r =>
          if Ascii.eqb c "[" then
            match phase s with
            | InTags => readTag s r
            | _ =>
                (NoToken,
                 mk (String c r) (board s) (status s) OutOfGame
                    (tokenString s) (tagName s) (tagValue s))
            end
          else if Ascii.eqb c "{" then
            let '(text, rest) := takeUntil (fun c => Ascii.eqb c "}") r in
            (PgnComment,
             mk (match rest with String _ after => after | _ => "" end)
                (board s) Ok InGame text (tagName s) (tagValue s))
          else if Ascii.eqb c "$" then
            let '(digits, rest) := takeUntil (fun c => negb (isDigit c)) r in
            (PgnNag, mk rest (board s) Ok InGame digits (tagName s)
                        (tagValue s))
          else
            let '(word, rest) := takeUntil wordEnd (String c r) in
            (classify word,
             mk rest (board s) Ok InGame word (tagName s) (tagValue s))
      end
  end.

End Stream.

Arguments t Board : clear implicits.

End PgnStream.

Module PgnReader.
Import Chess Text PgnGame PgnStream.
Local Open Scope Z_scope.

Section Reader.
Context {EcoNode : Type} `{EcoCatalogue EcoNode}.
Context {Board Move : Type} `{PgnBoard Board Move}.

Definition with_board (s : PgnStream.t Board) (b : Board)
  : PgnStream.t Board :=
  PgnStream.mk (input s) b (status s) (phase s) (tokenString s)
               (tagName s) (tagValue s).

(** The block of [parseMove] that runs before the first move, as it
    acts on the board and the tags: the variant, then the starting
    position.  The boolean is false where the code returns false; what
    was changed until then stays changed. *)
Definition setUpPosition (b : Board) (tags : gmap string string)
  : bool * Board * gmap string string :=
  let tmp := QMap.value tags "Variant" in
  let '(ok, b) :=
    if negb (isEmpty tmp)
    then match createBoard tmp with
         | Some b' => (true, b')
         | None => (false, b)
         end
    else (true, b) in
  if negb ok then (false, b, tags)
  else
    let tags :=
      if isEmpty tmp && negb (bool_decide (variantOf b = "standard"))
      then <["Variant" := variantOf b]> tags
      else tags in
    let tmp := QMap.value tags "FEN" in
    if isEmpty tmp && isRandomVariant b then (false, b, tags)
    else
      let fen := if isEmpty tmp then defaultFenString b else tmp in
      match setFenString b fen with
      | None => (false, b, tags)
      | Some b' => (true, b', tags)
      end.

(** The same block on the stream and the game: on success the game
    remembers the side to move of the starting position. *)
Definition firstMoveSetup (s : PgnStream.t Board) (g : PgnGame.t EcoNode)
  : bool * PgnStream.t Board * PgnGame.t EcoNode :=
  let '(ok, b, tags) := setUpPosition (board s) (m_tags g) in
  (ok, with_board s b,
   PgnGame.mk (if ok then boardStartingSide b else m_startingSide g)
              (m_eco g) tags (m_moves g)).

(** [PgnGame::parseMove]; the debug output is left out. *)
Definition parseMove (s : PgnStream.t Board) (g : PgnGame.t EcoNode)
  : bool * PgnStream.t Board * PgnGame.t EcoNode :=
  if QMap.isEmpty (m_tags g) then (false, s, g)
  else
    let '(ok, s, g) :=
      match m_moves g with
      | [] => firstMoveSetup s g
      | _ => (true, s, g)
      end in
    if negb ok then (false, s, g)
    else
      let str := tokenString s in
      match moveFromString (board s) str with
      | None => (false, s, g)
      | Some move =>
          let md := mkMoveData (boardKey (board s))
                               (boardGenericMove (board s) move) str "" in
          (true, with_board s (boardMakeMove (board s) move), addMove g md)
      end.

(** [m_moves.last().comment.append(text)]. *)
Definition appendComment (g : PgnGame.t EcoNode) (text : string)
  : PgnGame.t EcoNode :=
  match List.rev (m_moves g) with
  | [] => g
  | lastMove :: before =>
      PgnGame.mk (m_startingSide g) (m_eco g) (m_tags g)
        (List.rev before
         ++ [mkMoveData (key lastMove) (genericMove lastMove)
                        (moveString lastMove) (comment lastMove ++ text)])
  end.

(** One turn of the loop of [read]: the token, and whether the loop
    stops after it. *)
Definition readToken (maxMoves : Z) (s : PgnStream.t Board)
    (g : PgnGame.t EcoNode)
  : bool * PgnStream.t Board * PgnGame.t EcoNode :=
  let '(token, s) := readNext s in
  match token with
  | PgnTag =>
      (false, s, with_tags g (<[tagName s := tagValue s]> (m_tags g)))
  | PgnMove =>
      let '(ok, s, g) := parseMove s g in
      (negb ok || (maxMoves <=? Z.of_nat (length (m_moves g))), s, g)
  | PgnComment =>
      (false, s, appendComment g (tokenString s))
  | PgnResult =>
      (true, s, with_tags g (<["Result" := tokenString s]> (m_tags g)))
  | PgnNag => (false, s, g)
  | NoToken => (true, s, g)
  | _ => (false, s, g)
  end.

(** The loop of [read].  Every turn that does not stop reads at least
    one character, so the length of the text bounds the turns. *)
Fixpoint readLoop (fuel : nat) (maxMoves : Z) (s : PgnStream.t Board)
    (g : PgnGame.t EcoNode) : PgnStream.t Board * PgnGame.t EcoNode :=
  match fuel with
  | O => (s, g)
  | S fuel =>
      match status s with
      | ReadPastEnd => (s, g)
      | Ok =>
          let '(stop, s, g) := readToken maxMoves s g in
          if stop then (s, g) else readLoop fuel maxMoves s g
      end
  end.

(** [PgnGame::read]. *)
Definition read (s : PgnStream.t Board) (g : PgnGame.t EcoNode)
    (maxMoves : Z) : bool * PgnStream.t Board * PgnGame.t EcoNode :=
  let g := clear g in
  let '(found, s) := nextGame s in
  if negb found then (false, s, g)
  else
    let '(s, g) := readLoop (S (String.length (input s))) maxMoves s g in
    if QMap.isEmpty (m_tags g) then (false, s, g)
    else
      (true, s,
       with_tags g
         (<["PlyCount" := QString_number (Z.of_nat (length (m_moves g)))]>
            (m_tags g))).

(** *** Reading back what was written *)

(** The moves of a list of move strings, played from [b]: whether the
    board takes them all. *)
Fixpoint playable (b : Board) (strs : list string) : bool :=
  match strs with
  | [] => true
  | str :: rest =>
      match moveFromString b str with
      | Some move => playable (boardMakeMove b move) rest
      | None => false
      end
  end.

(** Whether a reader whose stream holds board [b] and that has read
    the tags [tags] can set up the position and play the moves. *)
Definition readable (b : Board) (tags : gmap string string)
    (strs : list string) : bool :=
  match strs with
  | [] => true
  | _ =>
      let '(ok, b', _) := setUpPosition b tags in
      ok && playable b' strs
  end.

End Reader.

(** A move string the lexer reads back as one move: it starts with a
    letter and holds neither white space nor a brace. *)
Definition sanOk (str : string) : bool :=
  match str with
  | EmptyString => false
  | String c _ => isLetter c && allChars (fun c => negb (wordEnd c)) str
  end.

(** A tag pair the lexer reads back: a name without white space, a
    value without a quote. *)
Definition tagOk (kv : string * string) : bool :=
  allChars (fun c => negb (isSpace c)) (fst kv)
  && allChars (fun c => negb (Ascii.eqb c "034")) (snd kv).

(** A comment the lexer reads back: no closing brace inside. *)
Definition commentOk (c : string) : bool :=
  allChars (fun c => negb (Ascii.eqb c "}")) c.

(** The values of the "Result" tag that are termination markers; the
    empty value writes none. *)
Definition resultOk (value : string) : bool :=
  bool_decide (value ∈ [""; "1-0"; "0-1"; "1/2-1/2"; "*"]).

(** The tag pairs [write] emits, in its order, as they are shown. *)
Definition writtenTags (mode : PgnMode) (tags : gmap string string)
  : list (string * string) :=
  map (fun tag => (tag, shown tags tag)) roster
  ++ match mode with
     | Verbose => supplementaryTags tags
     | Minimal =>
         if QMap.contains tags "FEN"
         then [("FEN", shown tags "FEN"); ("SetUp", shown tags "SetUp")]
         else []
     end.

(** Tag pair lines, one after the other. *)
Definition tagLines (pairs : list (string * string)) : string :=
  fold_right (fun kv out => tagLine (fst kv) (snd kv) ++ out) "" pairs.

(** The tag map a reader builds from those pairs. *)
Definition tagsRead (mode : PgnMode) (tags : gmap string string)
  : gmap string string :=
  fold_left (fun acc kv => <[fst kv := snd kv]> acc) (writtenTags mode tags) ∅.

(** Tags that answer the roster names with what was written for
    the tags [orig]. *)
Definition rosterAs (orig tags : gmap string string) : Prop :=
  forall tag, tag ∈ roster -> tags !! tag = Some (shown orig tag).

End PgnReader.

(** ** Concrete games *)

Module Games.
Import Chess Text PgnGame.
Local Open Scope Z_scope.

(** A game without an opening catalogue. *)
#[global] Instance noCatalogue : EcoCatalogue unit := {
  eco_root := None;
  eco_child := fun _ _ => None;
  eco_isLeaf := fun _ => false;
  eco_ecoCode := fun _ => "";
  eco_opening := fun _ => "";
  eco_variation := fun _ => ""
}.

Definition san (s : string) : MoveData :=
  mkMoveData 0 (mkGenericMove (0, 0) (0, 0) 0) s "".

Definition annotated (s c : string) : MoveData :=
  mkMoveData 0 (mkGenericMove (0, 0) (0, 0) 0) s c.

(** The game of scenario 5: five roster tags, no date, no round. *)
Definition scenario5 : PgnGame.t unit :=
  PgnGame.mk White None
    (<["Event" := "Test"]> (<["Site" := "Lab"]> (<["White" := "A"]>
      (<["Black" := "B"]> (<["Result" := "1-0"]> ∅)))))
    [san "e4"; san "e5"; san "Nf3"].

(** A one-move game whose move carries a comment of 103 characters. *)
Definition longComment : string :=
  "The king pawn opening, the most popular first move, takes the centre and frees the bishop and the queen".

Definition annotatedGame : PgnGame.t unit :=
  PgnGame.mk White None
    (<["Event" := "Test"]> (<["Result" := "1-0"]> ∅))
    [annotated "e4" longComment].

(** A board for reading games back: the position is the number of
    half-moves played and every move string that starts with a letter
    is a move; the one variant is "standard". *)
#[global] Instance plyPgnBoard : PgnStream.PgnBoard nat string := {
  PgnStream.createBoard :=
    fun v => if bool_decide (v = "standard") then Some 0%nat else None;
  PgnStream.variantOf := fun _ => "standard";
  PgnStream.isRandomVariant := fun _ => false;
  PgnStream.defaultFenString := fun _ => "startpos";
  PgnStream.setFenString := fun _ _ => Some 0%nat;
  PgnStream.boardStartingSide := fun _ => White;
  PgnStream.moveFromString :=
    fun _ str => if PgnReader.sanOk str then Some str else None;
  PgnStream.boardKey := fun b => Z.of_nat b;
  PgnStream.boardGenericMove := fun _ _ => mkGenericMove (0, 0) (0, 0) 0;
  PgnStream.boardMakeMove := fun b _ => S b
}.

(** A game with one tag only. *)
Definition whiteOnly : PgnGame.t unit :=
  PgnGame.mk White None (<["White" := "A"]> ∅) [].

End Games.

(** ** GameAdjudicator: the resign rule in the words of its description *)

Module GameAdjudicatorRuns.
Import Chess GameAdjudicator.
Local Open Scope Z_scope.

(** The side whose evaluation a call hands in: [addEval] takes it to
    be the opponent of the side to move. *)
Definition evaluating (c : Board * MoveEvaluation) : Side :=
  opposite (sideToMove (fst c)).

(** An evaluation is evidence for resigning when it is a real one
    (depth above zero) whose score is at or below the bound. *)
Definition hopeless (resignScore : Z) (c : Board * MoveEvaluation) : bool :=
  (0 <? depth (snd c)) && (score (snd c) <=? resignScore).

(** The calls that hand in an evaluation of [side], in order. *)
Definition callsOf (side : Side) (calls : list (Board * MoveEvaluation))
  : list (Board * MoveEvaluation) :=
  List.filter (fun c => bool_decide (evaluating c = side)) calls.

(** How many evaluations of [side] in a row, counted back from its
    latest one, are hopeless. *)
Definition consecutiveHopeless (resignScore : Z) (side : Side)
    (calls : list (Board * MoveEvaluation)) : Z :=
  Z.of_nat (length (takeWhile (hopeless resignScore)
                              (rev (callsOf side calls)))).

(** [m_resignScoreCount[side]]. *)
Definition resignCount (a : t) (side : Side) : option Z :=
  array_get (m_resignScoreCount a) (sideIndex side).

(** A resign rule of three moves at -500 centipawns, nothing else. *)
Definition resignOnly : t := setResignThreshold new 3 (-500).

(** A lost position, as the side that just moved sees it. *)
Definition lostCall (mover : Side) (ply : Z) : Board * MoveEvaluation :=
  (boardAt (opposite mover) ply Result_default, mkEval 14 (-700) 1000 "").

(** A level position. *)
Definition levelCall (mover : Side) (ply : Z) : Board * MoveEvaluation :=
  (boardAt (opposite mover) ply Result_default, mkEval 14 0 1000 "").

(** A draw rule that asks for no quiet evaluation at all: from move
    30 on, zero moves within 10 centipawns. *)
Definition drawAtMove30 : t := setDrawThreshold new 30 0 10.

End GameAdjudicatorRuns.


(** ** PgnGame: the remaining tag accessors and [setResult] *)

Module PgnGameTags.
Import Chess Text PgnGame.
Local Open Scope Z_scope.

Section Game.
Context {EcoNode : Type} `{EcoCatalogue EcoNode}.

(** [Chess::Result::toShortString], declared in board/result.h: the
    text of the "Result" tag. *)
Variable toShortString : Result -> string.

Definition event (g : PgnGame.t EcoNode) : string :=
  QMap.value (m_tags g) "Event".

Definition site (g : PgnGame.t EcoNode) : string :=
  QMap.value (m_tags g) "Site".

Definition playerName (g : PgnGame.t EcoNode) (side : Side) : string :=
  match side with
  | White => QMap.value (m_tags g) "White"
  | Black => QMap.value (m_tags g) "Black"
  | NoSide => ""
  end.

(** [PgnGame::setResult]. *)
Definition setResult (g : PgnGame.t EcoNode) (result : Result)
  : PgnGame.t EcoNode :=
  let tags := <["Result" := toShortString result]> (m_tags g) in
  match type result with
  | Adjudication =>
      with_tags g (<["Termination" := "adjudication"]> tags)
  | Timeout =>
      with_tags g (<["Termination" := "time forfeit"]> tags)
  | Disconnection =>
      with_tags g (<["Termination" := "abandoned"]> tags)
  | NoResult =>
      with_tags g (<["Termination" := "unterminated"]> tags)
  | _ =>
      with_tags g (delete "Termination" tags)
  end.

(** Moves added one after the other. *)
Definition addMoves (g : PgnGame.t EcoNode) (moves : list MoveData)
  : PgnGame.t EcoNode :=
  fold_left addMove moves g.

End Game.

(** The kinds of result [setResult] has a "Termination" value for. *)
Definition terminationOf (kind : ResultType) : option string :=
  match kind with
  | Adjudication => Some "adjudication"
  | Timeout => Some "time forfeit"
  | Disconnection => Some "abandoned"
  | NoResult => Some "unterminated"
  | _ => None
  end.



(** A small opening catalogue: 1. e4 e5 is the leaf "C20". *)
Definition kingsPawn : EcoCatalogue nat := {|
  eco_root := Some 0%nat;
  eco_child := fun node san =>
    match node with
    | O => if bool_decide (san = "e4") then Some 1%nat else None
    | S O => if bool_decide (san = "e5") then Some 2%nat else None
    | _ => None
    end;
  eco_isLeaf := fun node => Nat.eqb node 2;
  eco_ecoCode := fun _ => "C20";
  eco_opening := fun _ => "King's Pawn Game";
  eco_variation := fun _ => ""
|}.

(** A game with the catalogue at hand, after 1. e4, with a variation
    named by an earlier leaf. *)
Definition afterE4 : PgnGame.t nat :=
  PgnGame.mk White (Some 1%nat)
    (<["Event" := "Test"]> (<["Variation" := "Open"]> ∅))
    [Games.san "e4"].

(** Modelled from the spec: the "Result" tag of a game won by White
    is 1-0, by Black 0-1, of a drawn game 1/2-1/2, else the
    asterisk. *)
Definition shortString (r : Result) : string :=
  match winner r with
  | White => "1-0"
  | Black => "0-1"
  | NoSide => if isDraw r then "1/2-1/2" else "*"
  end.


End PgnGameTags.

(** ** PgnGame::read: the moves it records *)

Module PgnReplay.
Import Chess Text PgnGame PgnStream.
Local Open Scope Z_scope.

Section Replay.
Context {EcoNode : Type} `{EcoCatalogue EcoNode}.
Context {Board Move : Type} `{PgnBoard Board Move}.

(** The recorded moves played again from [b]: every move string is
    one the board parses in the position reached, and the record
    holds that position's key and the generic form of the parsed
    move.  The result is the position after the last move. *)
Fixpoint replay (b : Board) (moves : list MoveData) : option Board :=
  match moves with
  | [] => Some b
  | md :: rest =>
      match moveFromString b (moveString md) with
      | Some move =>
          if bool_decide (key md = boardKey b)
             && bool_decide (genericMove md = boardGenericMove b move)
          then replay (boardMakeMove b move) rest
          else None
      | None => None
      end
  end.

(** A game is on record when its moves, played again from a position
    that [setFenString] set up, lead to the board the stream holds. *)
Definition onRecord (s : PgnStream.t Board) (g : PgnGame.t EcoNode) : Prop :=
  m_moves g = []
  \/ exists b0 fen b1,
       setFenString b0 fen = Some b1
       /\ replay b1 (m_moves g) = Some (board s).

(** The loop's bound: it is entered with no move or fewer than
    [maxMoves], and left with at most [maxMoves], or one. *)
Definition roomLeft (maxMoves : Z) (g : PgnGame.t EcoNode) : Prop :=
  m_moves g = [] \/ Z.of_nat (length (m_moves g)) < maxMoves.

Definition withinLimit (maxMoves : Z) (g : PgnGame.t EcoNode) : Prop :=
  Z.of_nat (length (m_moves g)) <= Z.max maxMoves 1.

End Replay.

(** Two games in one text; the second has a move the board of
    [Games.plyPgnBoard] refuses. *)
Definition twoGames : string :=
  "[Event " ++ dquote ++ "Test" ++ dquote ++ "]" ++ nl
  ++ nl ++ "1. e4 {best by test} e5 2. Nf3 1-0" ++ nl ++ nl
  ++ "[Event " ++ dquote ++ "Next" ++ dquote ++ "]" ++ nl
  ++ nl ++ "1. d4 ?? d5 *" ++ nl.

(** The stream after the first game of [twoGames] was read. *)
Definition afterFirstGame : PgnStream.t nat :=
  snd (fst (PgnReader.read (PgnStream.open twoGames 0%nat)
                           (PgnGame.new (EcoNode := unit)) 1000)).

End PgnReplay.


(** ** ChessGame: setting a game up and starting it *)

Module ChessGameStart.
Import Chess Text ChessGame.
Local Open Scope Z_scope.

(** What the game does beyond the effects of its handlers, which
    come as [Core]: calls of the players' [setBoard], [newGame] and
    [makeBookMove], the connections of the players' signals and of
    [playersReady] to [start], and what [start] stores in its base
    class (the players' names and time controls). *)
Inductive Event (Move : Type) :=
| Core (e : ChessGame.Effect Move)
| PlayerSetBoard (p : Player)
| ConnectPlayer (p : Player)
| ConnectStart
| DisconnectStart
| SetPlayerName (side : Side) (name : string)
| CopyTimeControl (i : nat) (p : Player)
| PlayerNewGame (p : Player) (side : Side) (opponent : Player)
| PlayerMakeBookMove (p : Player) (m : Move).

Arguments Core {Move}.
Arguments PlayerSetBoard {Move}.
Arguments ConnectPlayer {Move}.
Arguments ConnectStart {Move}.
Arguments DisconnectStart {Move}.
Arguments SetPlayerName {Move}.
Arguments CopyTimeControl {Move}.
Arguments PlayerNewGame {Move}.
Arguments PlayerMakeBookMove {Move}.

(** Further members of [Chess::Board] (chessboard.h) and of its
    variant: [setBoard(fen)], with the position it sets up, or [None]
    where it returns false, and [variant().startingFen()]; the
    variant is fixed when the game is constructed. *)
Class FenBoard (Board : Type) := {
  board_setBoard : string -> option Board;
  startingFen : string
}.

(** What [setOpeningBook] asks of the board: [isRepeatMove], [key],
    [moveFromBook], and the null move [Chess::Move(0, 0)]. *)
Class BookBoard (Board Move BookMove : Type) := {
  isRepeatMove : Board -> Move -> bool;
  boardKey : Board -> Z;
  moveFromBook : Board -> BookMove -> Move;
  nullMove : Move
}.

(** Of the players (chessplayer.h): [supportsVariant] for the game's
    variant, and [name]. *)
Class Players := {
  supportsVariant : Player -> bool;
  name : Player -> string
}.

Section Game.
Context {Board Move BookMove : Type}.
Context `{rules : BoardRules Board Move} `{fen : FenBoard Board}
        `{bookBoard : BookBoard Board Move BookMove} `{players : Players}.

(** An [OpeningBook] answers a position's key with a book move. *)
Definition OpeningBook : Type := Z -> BookMove.

(** The game: the members the handlers use, the starting position
    [m_fen], the flag [m_hasTags], and everything the game has done
    so far, in order. *)
Record t := mk {
  game : ChessGame.t Board Move;
  m_fen : string;
  m_hasTags : bool;
  log : list (Event Move)
}.

(** A call the log has its own name for. *)
Definition note (g : t) (e : Event Move) : t :=
  mk (game g) (m_fen g) (m_hasTags g) (log g ++ [e]).

(** A step of the handlers' kind; the effects it adds are logged in
    their order. *)
Definition step (g : t)
    (f : ChessGame.t Board Move -> ChessGame.t Board Move) : t :=
  let game' := f (game g) in
  mk game' (m_fen g) (m_hasTags g)
     (log g
      ++ map Core (skipn (length (effects (game g))) (effects game'))).

Definition with_board (c : ChessGame.t Board Move) (b : Board)
  : ChessGame.t Board Move :=
  ChessGame.mk b (m_player c) (m_gameInProgress c) (m_result c)
               (m_moves c) (m_comments c) (effects c).

Definition with_moves (c : ChessGame.t Board Move) (moves : list Move)
  : ChessGame.t Board Move :=
  ChessGame.mk (m_board c) (m_player c) (m_gameInProgress c) (m_result c)
               moves (m_comments c) (effects c).

Definition with_comments (c : ChessGame.t Board Move)
    (comments : list string) : ChessGame.t Board Move :=
  ChessGame.mk (m_board c) (m_player c) (m_gameInProgress c) (m_result c)
               (m_moves c) comments (effects c).

Definition with_player (c : ChessGame.t Board Move)
    (players : Player * Player) : ChessGame.t Board Move :=
  ChessGame.mk (m_board c) players (m_gameInProgress c) (m_result c)
               (m_moves c) (m_comments c) (effects c).

Definition board (g : t) : Board := m_board (game g).

(** [ChessGame::player]. *)
Definition player (debug : bool) (g : t) (side : Side) : option Player :=
  Q_ASSERT debug (negb (bool_decide (side = NoSide)))
    (Some (playerAt (game g) (sideIndex side))).

(** [ChessGame::bookMove], on the position [b] of the game's board. *)
Definition bookMove (b : Board) (book : option OpeningBook) : Move :=
  match book with
  | None => nullMove
  | Some bk => moveFromBook b (bk (boardKey b))
  end.

(** [ChessGame::setPlayer]; a side that is no array index leaves the
    players as they are.  The two connections of the player's signals
    are one [ConnectPlayer]. *)
Definition setPlayer (debug : bool) (g : t) (side : Side) (p : Player)
  : option t :=
  Q_ASSERT debug (negb (bool_decide (side = NoSide))) (
  Q_ASSERT debug (negb (Nat.eqb p 0)) (
    let players :=
      match sideIndex side with
      | O => (p, snd (m_player (game g)))
      | S O => (fst (m_player (game g)), p)
      | _ => m_player (game g)
      end in
    let g := step g (fun c => with_player c players) in
    Some (note (note g (PlayerSetBoard p)) (ConnectPlayer p)))).

(** [ChessGame::setFenString]; where the board refuses the FEN the
    game keeps the position it had. *)
Definition setFenString (g : t) (fen : string) : bool * t :=
  match board_setBoard fen with
  | None => (false, g)
  | Some b =>
      (true, mk (with_board (game g) b) fen (m_hasTags g) (log g))
  end.

(** [ChessGame::setBoard]; [None] is [qFatal]. *)
Definition setBoard (g : t) : option t :=
  let fen := if isEmpty (m_fen g) then startingFen else m_fen g in
  match board_setBoard fen with
  | None => None
  | Some b => Some (mk (with_board (game g) b) fen (m_hasTags g) (log g))
  end.

(** The loop of [setOpeningBook]: at most [n] more moves, as long as
    the book's move is legal and repeats no position. *)
Fixpoint bookLine (n : nat) (book : option OpeningBook) (b : Board)
    (moves : list Move) : Board * list Move :=
  match n with
  | O => (b, moves)
  | S n =>
      let move := bookMove b book in
      if negb (isLegalMove b move) || isRepeatMove b move
      then (b, moves)
      else bookLine n book (makeMove b move) (moves ++ [move])
  end.

(** [ChessGame::setOpeningBook]; a null book is [None]. *)
Definition setOpeningBook (debug : bool) (g : t)
    (book : option OpeningBook) (maxMoves : Z) : option t :=
  Q_ASSERT debug (bool_decide (is_Some book)) (
  Q_ASSERT debug (negb (m_gameInProgress (game g))) (
    match setBoard g with
    | None => None
    | Some g =>
        let '(b, moves) :=
          bookLine (Z.to_nat maxMoves) book (board g) [] in
        Some (mk (with_moves (with_board (game g) b) moves)
                 (m_fen g) (m_hasTags g) (log g))
    end)).

(** [ChessGame::setOpeningMoves]. *)
Definition setOpeningMoves (debug : bool) (g : t) (moves : list Move)
  : option t :=
  Q_ASSERT debug (negb (m_gameInProgress (game g)))
    (Some (mk (with_moves (game g) moves) (m_fen g) (m_hasTags g) (log g))).

(** [(Chess::Side)i]. *)
Definition sideOf (i : nat) : Side :=
  match i with
  | O => White
  | S O => Black
  | _ => NoSide
  end.

(** One turn of the first loop of [start]: the player in slot [i] is
    there, is ready and knows the variant, or the game ends with an
    error.  [k] is the rest of [start].  [Chess::Result(ResultError)]
    is the result of that kind, its winner and description left at
    their defaults. *)
Definition checkPlayer (debug : bool) (ready : Player -> bool)
    (sender : Player) (g : t) (i : nat) (k : t -> option t) : option t :=
  let p := playerAt (game g) i in
  Q_ASSERT debug (negb (Nat.eqb p 0)) (
  Q_ASSERT debug (ready p) (
    if negb (supportsVariant p) then
      let g := step g (fun c => emit c (Debug "doesn't support variant")) in
      let g :=
        step g (fun c => with_result c (mkResult ResultError NoSide "")) in
      Some (step g (fun c => endGame ready c sender))
    else k g)).

(** One turn of the second loop of [start]. *)
Definition introduce (g : t) (i : nat) : t :=
  let p := playerAt (game g) i in
  let g := note g (SetPlayerName (sideOf i) (name p)) in
  let g := note g (CopyTimeControl i p) in
  note g (PlayerNewGame p (sideOf i)
            (playerAt (game g) (if Nat.eqb i 0 then 1 else 0)%nat)).

(** The third loop of [start]: the forced opening moves. *)
Fixpoint playOpening (debug : bool) (g : t) (moves : list Move)
  : option t :=
  match moves with
  | [] => Some g
  | move :: rest =>
      Q_ASSERT debug (isLegalMove (board g) move) (
        let g := note g (PlayerMakeBookMove (playerToMove (game g)) move) in
        let g :=
          step g (fun c => emit c (PlayerMakeMove (playerToWait c) move)) in
        let g := step g (fun c => with_board c (makeMove (m_board c) move)) in
        let g :=
          step g (fun c => with_comments c (m_comments c ++ ["book"])) in
        let g := step g (fun c => emit c (EmitMoveMade move)) in
        playOpening debug g rest)
  end.

(** [ChessGame::start]; [sender] is [QObject::sender()] as
    [syncPlayers] sees it. *)
Definition start (debug : bool) (ready : Player -> bool) (g : t)
    (sender : Player) : option t :=
  let g := step g (fun c => with_result c Result_default) in
  if negb (arePlayersReady ready (game g)) then
    let g := note g ConnectStart in
    Some (step g (fun c => syncPlayers ready c sender true))
  else
    let g := note g DisconnectStart in
    let g := step g (fun c => with_gameInProgress c true) in
    checkPlayer debug ready sender g 0 (fun g =>
    checkPlayer debug ready sender g 1 (fun g =>
      match setBoard g with
      | None => None
      | Some g =>
          let g := introduce (introduce g 0) 1 in
          let g := mk (game g) (m_fen g) true (log g) in
          (* Play the forced opening moves first *)
          match playOpening debug g (m_moves (game g)) with
          | None => None
          | Some g =>
              Some (step g (fun c => emit c (PlayerGo (playerToMove c))))
          end
      end)).

(** Whether [start] is connected to [playersReady], as the log tells
    it: [start] connects itself where it waits (chessgame.cpp:236)
    and takes its connections away where it goes on (:240).  Connected
    more than once it still runs once for a signal, since the first
    run takes the other connections away. *)
Definition startConnected (g : t) : bool :=
  fold_left (fun on e =>
               match e with
               | ConnectStart => true
               | DisconnectStart => false
               | _ => on
               end) (log g) false.

(** Whether [playersReady] is among the signals sent. *)
Definition announced (new : list (Effect Move)) : bool :=
  existsb (fun e => match e with EmitPlayersReady => true | _ => false end)
          new.

(** The signal [playersReady] as it is delivered: the slots connected
    to it directly are called before [emit] returns, and that is
    [start], while it is connected.  [gameEnded] is connected through
    the queue ([endGame]) and is not called here.  In [start], called
    by the game's own signal, [QObject::sender()] is no player. *)
Definition playersReady (debug : bool) (ready : Player -> bool) (g : t)
  : option t :=
  if startConnected g then start debug ready g O else Some g.

(** The slot [syncPlayers] as the program runs it:
    [ChessGame.syncPlayers] with the signal delivered.
    [emit playersReady()] is the last statement of [syncPlayers]. *)
Definition syncPlayersSlot (debug : bool) (ready : Player -> bool) (g : t)
    (sender : Player) (ignoreSender : bool) : option t :=
  let g' :=
    step g (fun c => ChessGame.syncPlayers ready c sender ignoreSender) in
  if announced (skipn (length (effects (game g))) (effects (game g')))
  then playersReady debug ready g'
  else Some g'.

(** The FEN [setBoard] sets up: [m_fen], or the variant's where
    [m_fen] is empty. *)
Definition fenOf (g : t) : string :=
  if isEmpty (m_fen g) then startingFen else m_fen g.

(** *** Lines of moves *)

(** The position after the moves of a line. *)
Definition playLine (b : Board) (moves : list Move) : Board :=
  fold_left makeMove moves b.

(** Whether every move of a line is legal where it is played. *)
Fixpoint legalLine (b : Board) (moves : list Move) : bool :=
  match moves with
  | [] => true
  | move :: rest => isLegalMove b move && legalLine (makeMove b move) rest
  end.

(** Whether no move of a line repeats a position. *)
Fixpoint freshLine (b : Board) (moves : list Move) : bool :=
  match moves with
  | [] => true
  | move :: rest =>
      negb (isRepeatMove b move) && freshLine (makeMove b move) rest
  end.

(** A game whose comments run along its moves, and which has no
    result while it is in progress. *)
Definition consistent (c : ChessGame.t Board Move) : Prop :=
  length (m_comments c) = length (m_moves c)
  /\ (m_gameInProgress c = true -> isNone (m_result c) = true).

End Game.

Arguments t Board Move : clear implicits.

(** *** A concrete game

    The board of [ChessGame.plyBoard], set up at ply 0 by every FEN
    but "bad"; a book of two moves, after which it answers with the
    empty move string, which counts as a repetition. *)
#[global] Instance plyFenBoard : FenBoard nat := {
  board_setBoard :=
    fun fen => if bool_decide (fen = "bad") then None else Some 0%nat;
  startingFen := "startpos"
}.

#[global] Instance plyBookBoard : BookBoard nat string string := {
  isRepeatMove := fun _ move => isEmpty move;
  boardKey := fun b => Z.of_nat b;
  moveFromBook := fun _ move => move;
  nullMove := ""
}.

Definition twoMoveBook : Z -> string :=
  fun key => if key =? 0 then "e4" else if key =? 1 then "e5" else "".

(** Players that know every variant. *)
#[global] Instance allKnow : Players := {
  supportsVariant := fun _ => true;
  name := fun p => if Nat.eqb p 1 then "A" else "B"
}.

(** Players of whom only player 1 knows the variant. *)
Definition firstKnows : Players := {|
  supportsVariant := fun p => Nat.eqb p 1;
  name := fun p => if Nat.eqb p 1 then "A" else "B"
|}.

(** Player 1 is ready, player 2 is not. *)
Definition firstReady (p : Player) : bool := Nat.eqb p 1.

(** A game between players 1 and 2 that was not started yet. *)
Definition fresh : t nat string :=
  mk (ChessGame.mk 0%nat (1%nat, 2%nat) false Result_default [] [] [])
     "" false [].

(** The same game with two opening moves set. *)
Definition withOpening : t nat string :=
  mk (ChessGame.mk 0%nat (1%nat, 2%nat) false Result_default
                   ["e4"; "e5"] [] [])
     "" false [].

End ChessGameStart.

(** ** EngineMatch: the score, the archive, the openings *)

Module EngineMatchScore.
Import Chess Text EngineMatch.
Local Open Scope Z_scope.
Local Open Scope list_scope.

Section Match.
Context {Move : Type}.

(** [m_engines[i].wins], where there is an engine [i]. *)
Definition winsAt (m : EngineMatch.t Move) (i : nat) : option Z :=
  wins <$> (m_engines m !! i).

(** The archive writes among the effects. *)
Definition isWritePgn (e : EngineMatch.Effect Move) : bool :=
  match e with
  | WritePgn _ _ _ _ => true
  | _ => false
  end.

(** An engine the loop of [initialize] brings up: a valid time
    control, and a command that starts. *)
Definition startable (starts : string -> bool) (d : EngineData) : bool :=
  timeControlValid (settings d) && starts (command (config d)).

(** An engine as the loop of [initialize] leaves it: no wins, a
    process and an engine object. *)
Definition initialized (d : EngineData) : bool :=
  (wins d =? 0) && negb (Nat.eqb (engine d) 0)
  && negb (Nat.eqb (process d) 0).

End Match.

(** The match of [EngineMatch.fourGames] with repeated openings. *)
Definition repeating : EngineMatch.t string :=
  setRepeatOpening fourGames true.

(** A game seeded with two opening moves. *)
Definition sicilian : Seeding string := mkSeeding true "" ["e4"; "c5"].

(** An engine without a time control. *)
Definition noClock : EngineSettings := mkSettings false.

End EngineMatchScore.


(* ===================================================================== *)
(** * Part II: properties                                                 *)
(* ===================================================================== *)

Module GameAdjudicatorProofs.
Import Chess GameAdjudicator.
Local Open Scope Z_scope.

Lemma array_get_set (a : IntArray2) (i : nat) (v : Z) :
  (i < 2)%nat -> array_get (array_set a i v) i = Some v.
Proof.
  destruct i as [|[|i]]; simpl; intros; try reflexivity; lia.
Qed.

Lemma sideIndex_lt (s : Side) : s <> NoSide -> (sideIndex s < 2)%nat.
Proof. destruct s; simpl; intros; try lia; congruence. Qed.

Lemma opposite_NoSide (s : Side) : s <> NoSide -> opposite s <> NoSide.
Proof. destruct s; simpl; congruence. Qed.

Ltac fields :=
  cbn [m_drawMoveNum m_drawMoveCount m_drawScore m_drawScoreCount
       m_resignMoveCount m_resignScore m_resignScoreCount m_tbEnabled
       m_result with_result with_drawScoreCount with_resignScoreCount
       andb negb fst snd].

Ltac branches :=
  repeat match goal with
         | |- context [if ?b then _ else _] => destruct b; fields
         end.

(** *** Empty evaluations *)

(** C1, refuted as stated: under tablebase adjudication an empty
    evaluation (depth 0, a book move) on a board the tablebases know
    as won makes [addEval] take the tablebase result and return before
    it touches the counters: the draw counter keeps its value 1 and
    the result becomes terminal. *)
Lemma addEval_empty_tablebase_counterexample :
  let eval := mkEval 0 0 0 "" in
  let a' := addEval tbAfterOne (boardAt White 82 tbWin) eval in
  depth eval <= 0
  /\ m_drawScoreCount tbAfterOne = 1
  /\ isNone (m_result tbAfterOne) = true
  /\ m_drawScoreCount a' = 1
  /\ m_result a' = tbWin
  /\ isNone (m_result a') = false.
Proof. vm_compute. repeat split; congruence. Qed.

(** C1, as amended: a call of [addEval] with an empty evaluation
    (depth <= 0) in which the tablebase rule does not fire (tablebase
    adjudication is off, or the board has no tablebase result) sets
    the draw counter to zero, writes zero into the slot of the side
    that moved in the resign counters, and sets no terminal result:
    with tablebases off the result field is not written at all, with
    tablebases on it is the (none) tablebase result. *)
Theorem addEval_empty_resets (a : t) (board : Board) (eval : MoveEvaluation) :
  depth eval <= 0 ->
  m_tbEnabled a = false \/ isNone (tablebaseResult board) = true ->
  let side := opposite (sideToMove board) in
  let a' := addEval a board eval in
  m_drawScoreCount a' = 0
  /\ m_resignScoreCount a'
     = array_set (m_resignScoreCount a) (sideIndex side) 0
  /\ (sideToMove board <> NoSide ->
      array_get (m_resignScoreCount a') (sideIndex side) = Some 0)
  /\ (if m_tbEnabled a
      then m_result a' = tablebaseResult board /\ isNone (m_result a') = true
      else m_result a' = m_result a).
Proof.
  intros Hd Htb side a'.
  assert (Hle : (depth eval <=? 0) = true) by (apply Z.leb_le; exact Hd).
  assert (Hcount : m_resignScoreCount a'
            = array_set (m_resignScoreCount a) (sideIndex side) 0
          /\ m_drawScoreCount a' = 0
          /\ (if m_tbEnabled a
              then m_result a' = tablebaseResult board
                   /\ isNone (m_result a') = true
              else m_result a' = m_result a)).
  { subst a' side. unfold addEval.
    destruct (m_tbEnabled a) eqn:Hen.
    - destruct Htb as [Hoff | Hnone]; [discriminate |].
      cbn [with_result m_tbEnabled m_result]. rewrite Hen, Hnone.
      cbn [negb andb]. rewrite Hle. cbn. auto.
    - rewrite Hen. cbn [andb]. rewrite Hle. cbn. auto. }
  destruct Hcount as (Hr & Hc & Hres).
  split; [exact Hc | split; [exact Hr | split; [| exact Hres]]].
  intros Hside. rewrite Hr. apply array_get_set.
  apply sideIndex_lt, opposite_NoSide, Hside.
Qed.

Lemma addEval_empty_resets_witness :
  let a := addEval tcecAdjudicator (boardAt Black 81 Result_default)
                   (mkEval 12 5 1000 "") in
  let board := boardAt White 82 Result_default in
  let eval := mkEval 0 0 0 "" in
  m_drawScoreCount a = 1
  /\ depth eval <= 0
  /\ m_drawScoreCount (addEval a board eval) = 0.
Proof.
  cbv zeta.
  split; [reflexivity |].
  split; [simpl; lia |].
  apply (addEval_empty_resets
           (addEval tcecAdjudicator (boardAt Black 81 Result_default)
                    (mkEval 12 5 1000 ""))
           (boardAt White 82 Result_default) (mkEval 0 0 0 "")).
  - simpl; lia.
  - left; reflexivity.
Defined.

(** *** The draw rule *)

(** One more evaluation either extends the run or ends it. *)
Lemma consecutiveQuiet_snoc drawScore calls c :
  consecutiveQuiet drawScore (calls ++ [c])
  = if quiet drawScore c then consecutiveQuiet drawScore calls + 1 else 0.
Proof.
  unfold consecutiveQuiet. rewrite rev_app_distr. simpl.
  destruct (quiet drawScore c); simpl; lia.
Qed.

(** [addEval] never touches the configuration. *)
Lemma addEval_config a board eval :
  let a' := addEval a board eval in
  m_drawMoveNum a' = m_drawMoveNum a
  /\ m_drawMoveCount a' = m_drawMoveCount a
  /\ m_drawScore a' = m_drawScore a
  /\ m_tbEnabled a' = m_tbEnabled a.
Proof.
  destruct a as [mn mc ds cnt rmc rs rc tb res].
  unfold addEval, drawRule, resignRule. fields.
  destruct tb; fields; branches; auto.
Qed.

Lemma addEvals_config a calls :
  let a' := addEvals a calls in
  m_drawMoveNum a' = m_drawMoveNum a
  /\ m_drawMoveCount a' = m_drawMoveCount a
  /\ m_drawScore a' = m_drawScore a
  /\ m_tbEnabled a' = m_tbEnabled a.
Proof.
  revert a. induction calls as [|c calls IH]; intros a; simpl; [auto |].
  specialize (IH (addEval a (fst c) (snd c))). simpl in IH.
  pose proof (addEval_config a (fst c) (snd c)) as H. simpl in H.
  unfold addEvals in *. intuition congruence.
Qed.

Lemma addEvals_snoc a calls c :
  addEvals a (calls ++ [c]) = addEval (addEvals a calls) (fst c) (snd c).
Proof. unfold addEvals. rewrite fold_left_app. reflexivity. Qed.

(** With tablebases off and the draw rule on, the counter after a call
    is the counter before plus one for a quiet evaluation, zero
    otherwise. *)
Lemma addEval_drawScoreCount a board eval :
  m_tbEnabled a = false -> 0 < m_drawMoveNum a ->
  m_drawScoreCount (addEval a board eval)
  = if quiet (m_drawScore a) (board, eval)
    then m_drawScoreCount a + 1 else 0.
Proof.
  destruct a as [mn mc ds cnt rmc rs rc tb res]. fields.
  intros -> Hnum. apply Z.ltb_lt in Hnum.
  unfold addEval, drawRule, resignRule, quiet. fields.
  destruct (depth eval <=? 0) eqn:Hd; fields.
  - assert (H : (0 <? depth eval) = false) by
      (apply Z.ltb_ge; apply Z.leb_le in Hd; lia).
    rewrite H. reflexivity.
  - assert (H : (0 <? depth eval) = true) by
      (apply Z.ltb_lt; apply Z.leb_gt in Hd; lia).
    rewrite H, Hnum. fields.
    destruct (Z.abs (score eval) <=? ds); fields; branches; reflexivity.
Qed.

(** The counter is the length of the current run of quiet
    evaluations. *)
Lemma addEvals_drawScoreCount a calls :
  m_tbEnabled a = false -> 0 < m_drawMoveNum a -> m_drawScoreCount a = 0 ->
  m_drawScoreCount (addEvals a calls) = consecutiveQuiet (m_drawScore a) calls.
Proof.
  intros Htb Hnum Hzero.
  induction calls as [|c calls IH] using rev_ind; [exact Hzero |].
  rewrite addEvals_snoc, consecutiveQuiet_snoc.
  pose proof (addEvals_config a calls) as (Hn & _ & Hs & Ht).
  rewrite addEval_drawScoreCount by congruence.
  rewrite Hs, IH. destruct c; reflexivity.
Qed.

Lemma winResult_not_draw side : winResult side <> drawResult.
Proof. unfold winResult, drawResult. intros H. inversion H. Qed.

(** Whether a call ends with the draw verdict in the result field. *)
Lemma addEval_draw_iff a board eval :
  m_tbEnabled a = false -> 0 < m_drawMoveNum a ->
  m_result a <> drawResult ->
  m_result (addEval a board eval) = drawResult
  <-> 0 < depth eval
      /\ m_drawMoveCount a * 2 <= m_drawScoreCount (addEval a board eval)
      /\ m_drawMoveNum a <= plyCount board ÷ 2.
Proof.
  destruct a as [mn mc ds cnt rmc rs rc tb res]. fields.
  intros -> Hnum Hres. apply Z.ltb_lt in Hnum.
  unfold addEval, drawRule, resignRule. fields. rewrite Hnum.
  destruct (depth eval <=? 0) eqn:Hd; fields.
  - apply Z.leb_le in Hd. split; [congruence | lia].
  - apply Z.leb_gt in Hd.
    destruct (Z.abs (score eval) <=? ds); fields.
    + destruct (mn <=? plyCount board ÷ 2) eqn:Hp;
        destruct (mc * 2 <=? cnt + 1) eqn:Hc; fields;
        try (apply Z.leb_le in Hp); try (apply Z.leb_gt in Hp);
        try (apply Z.leb_le in Hc); try (apply Z.leb_gt in Hc);
        try (split; [lia | reflexivity]);
        (split; [intros H; exfalso; revert H; branches;
                 first [exact Hres | apply winResult_not_draw]
                | branches; lia]).
    + destruct (mn <=? plyCount board ÷ 2) eqn:Hp;
        destruct (mc * 2 <=? 0) eqn:Hc; fields;
        try (apply Z.leb_le in Hp); try (apply Z.leb_gt in Hp);
        try (apply Z.leb_le in Hc); try (apply Z.leb_gt in Hc);
        try (split; [lia | reflexivity]);
        (split; [intros H; exfalso; revert H; branches;
                 first [exact Hres | apply winResult_not_draw]
                | branches; lia]).
Qed.

(** C2, refuted as stated, on two games under the draw rule
    (move 1, 1 move each, 10 centipawns); in both, the latest
    evaluations within the bound number 2 * drawMoveCount or more and
    the move number is reached, yet the call does not leave the draw
    verdict in the result field.
    (a) Under tablebase adjudication the second quiet evaluation
        arrives on a board the tablebases know as won: the result is
        the tablebase's.
    (b) A book move (depth 0, score 0) between two quiet evaluations
        is within the bound, but it resets the counter: after the
        third evaluation the counter is 1 and there is no verdict. *)
Lemma draw_rule_counterexample :
  (let calls := [quietCall Black 2] in
   let last := tbCall White 3 in
   let a' := addEval (addEvals quickDrawTb calls) (fst last) (snd last) in
   0 < m_drawMoveNum quickDrawTb
   /\ m_drawMoveCount quickDrawTb * 2
      <= consecutiveWithinBound (m_drawScore quickDrawTb) (calls ++ [last])
   /\ m_drawMoveNum quickDrawTb <= plyCount (fst last) ÷ 2
   /\ m_result a' = tbWin
   /\ m_result a' <> drawResult)
  /\
  (let calls := [quietCall Black 2; bookCall White 3] in
   let last := quietCall Black 4 in
   let a' := addEval (addEvals quickDraw calls) (fst last) (snd last) in
   0 < m_drawMoveNum quickDraw
   /\ m_drawMoveCount quickDraw * 2
      <= consecutiveWithinBound (m_drawScore quickDraw) (calls ++ [last])
   /\ m_drawMoveNum quickDraw <= plyCount (fst last) ÷ 2
   /\ m_drawScoreCount a' = 1
   /\ m_result a' = Result_default
   /\ m_result a' <> drawResult).
Proof.
  vm_compute. repeat split; congruence.
Qed.

(** The tablebase rule looks at the configuration only. *)
Lemma tablebaseFires_addEvals a calls board :
  tablebaseFires (addEvals a calls) board = tablebaseFires a board.
Proof.
  unfold tablebaseFires.
  pose proof (addEvals_config a calls) as (_ & _ & _ & Ht).
  rewrite Ht. reflexivity.
Qed.

Lemma heard_snoc a calls c :
  heard a (calls ++ [c])
  = if tablebaseFires a (fst c) then heard a calls
    else (heard a calls ++ [c])%list.
Proof.
  unfold heard. rewrite List.filter_app. cbn [List.filter].
  destruct (tablebaseFires a (fst c)); cbn [negb];
    [apply app_nil_r | reflexivity].
Qed.

(** A call in which the tablebase rule fires takes the tablebase
    result and leaves the counter. *)
Lemma addEval_tablebase a board eval :
  tablebaseFires a board = true ->
  m_result (addEval a board eval) = tablebaseResult board
  /\ m_drawScoreCount (addEval a board eval) = m_drawScoreCount a.
Proof.
  destruct a as [mn mc ds cnt rmc rs rc tb res].
  unfold tablebaseFires, addEval. fields.
  intros Hfires. apply andb_true_iff in Hfires as [-> Hterm].
  fields. rewrite Hterm. fields. auto.
Qed.

(** Under tablebase adjudication a call on a board without a
    tablebase result goes on as a call without tablebases does, from
    the (none) tablebase result. *)
Lemma addEval_no_tablebase_result a board eval :
  m_tbEnabled a = true ->
  isNone (tablebaseResult board) = true ->
  let off :=
    addEval (setTablebaseAdjudication (with_result a (tablebaseResult board))
                                      false)
            board eval in
  m_result (addEval a board eval) = m_result off
  /\ m_drawScoreCount (addEval a board eval) = m_drawScoreCount off.
Proof.
  destruct a as [mn mc ds cnt rmc rs rc tb res]. fields.
  intros -> Hnone. cbv zeta.
  unfold addEval, setTablebaseAdjudication, drawRule, resignRule.
  fields. rewrite Hnone. fields.
  destruct (depth eval <=? 0); fields; [auto|].
  destruct (0 <? mn); fields;
    [destruct (Z.abs (score eval) <=? ds); fields|];
    branches; auto.
Qed.

(** With the draw rule on, the counter after a call in which the
    tablebase rule does not fire is the counter before plus one for a
    quiet evaluation, zero otherwise. *)
Lemma addEval_drawScoreCount_heard a board eval :
  0 < m_drawMoveNum a ->
  tablebaseFires a board = false ->
  m_drawScoreCount (addEval a board eval)
  = if quiet (m_drawScore a) (board, eval)
    then m_drawScoreCount a + 1 else 0.
Proof.
  intros Hnum Hfires. unfold tablebaseFires in Hfires.
  destruct (m_tbEnabled a) eqn:Htb.
  - cbn [andb] in Hfires. apply negb_false_iff in Hfires.
    destruct (addEval_no_tablebase_result a board eval Htb Hfires)
      as [_ Hcount].
    rewrite Hcount.
    exact (addEval_drawScoreCount
             (setTablebaseAdjudication
                (with_result a (tablebaseResult board)) false)
             board eval eq_refl Hnum).
  - apply addEval_drawScoreCount; assumption.
Qed.

(** The counter is the length of the current run of quiet
    evaluations among the calls that reached the draw rule. *)
Lemma addEvals_drawScoreCount_heard a calls :
  0 < m_drawMoveNum a -> m_drawScoreCount a = 0 ->
  m_drawScoreCount (addEvals a calls)
  = consecutiveQuiet (m_drawScore a) (heard a calls).
Proof.
  intros Hnum Hzero.
  induction calls as [|c calls IH] using rev_ind; [exact Hzero |].
  rewrite addEvals_snoc, heard_snoc.
  pose proof (addEvals_config a calls) as (Hn & _ & Hs & Ht).
  destruct (tablebaseFires a (fst c)) eqn:Hfires.
  - rewrite <- IH. apply addEval_tablebase.
    rewrite tablebaseFires_addEvals. exact Hfires.
  - rewrite consecutiveQuiet_snoc.
    rewrite addEval_drawScoreCount_heard;
      [| congruence | rewrite tablebaseFires_addEvals; exact Hfires].
    rewrite Hs, IH. destruct c; reflexivity.
Qed.

(** A result without a kind is not the draw verdict. *)
Lemma none_not_draw (r : Result) : isNone r = true -> r <> drawResult.
Proof. intros Hnone Heq. rewrite Heq in Hnone. discriminate. Qed.

(** Whether a call in which the tablebase rule does not fire ends
    with the draw verdict in the result field. *)
Lemma addEval_draw_iff_heard a board eval :
  0 < m_drawMoveNum a ->
  tablebaseFires a board = false ->
  (m_tbEnabled a = false -> m_result a <> drawResult) ->
  m_result (addEval a board eval) = drawResult
  <-> 0 < depth eval
      /\ m_drawMoveCount a * 2 <= m_drawScoreCount (addEval a board eval)
      /\ m_drawMoveNum a <= plyCount board ÷ 2.
Proof.
  intros Hnum Hfires Hres.
  destruct (m_tbEnabled a) eqn:Htb.
  - unfold tablebaseFires in Hfires. rewrite Htb in Hfires.
    cbn [andb] in Hfires. apply negb_false_iff in Hfires.
    destruct (addEval_no_tablebase_result a board eval Htb Hfires)
      as [Hr Hc].
    rewrite Hr, Hc.
    apply (addEval_draw_iff
             (setTablebaseAdjudication
                (with_result a (tablebaseResult board)) false)
             board eval eq_refl Hnum (none_not_draw _ Hfires)).
  - apply addEval_draw_iff; [exact Htb | exact Hnum | apply Hres; reflexivity].
Qed.

(** C2, as amended: take an adjudicator with the draw rule on
    (drawMoveNum > 0) and its counter at zero, with tablebase
    adjudication on or off, and feed it any sequence of evaluations.
    A call in which the tablebase rule fires (tablebase adjudication
    is on and the board has a tablebase result) takes the tablebase
    result and leaves the counter.  Every other call leaves the draw
    verdict (Adjudication, no winner, "TCEC draw rule") in the result
    field exactly when its evaluation is a real one (depth > 0), the
    latest real evaluations in a row (both sides') with absolute
    score <= drawScore number at least 2 * drawMoveCount, and
    plyCount / 2 >= drawMoveNum; without tablebase adjudication this
    is said of a result field that does not hold the verdict
    already.  The counter is that number of evaluations, counted over
    the calls in which the tablebase rule did not fire; a real
    evaluation with absolute score > drawScore sets it to zero, and
    so does an empty one. *)
Theorem draw_rule_sequence (a0 : t) (calls : list (Board * MoveEvaluation))
    (board : Board) (eval : MoveEvaluation) :
  0 < m_drawMoveNum a0 ->
  m_drawScoreCount a0 = 0 ->
  let a := addEvals a0 calls in
  let a' := addEval a board eval in
  let run :=
    consecutiveQuiet (m_drawScore a0) (heard a0 (calls ++ [(board, eval)])) in
  m_drawScoreCount a' = run
  /\ (tablebaseFires a0 board = true ->
      m_result a' = tablebaseResult board
      /\ m_drawScoreCount a' = m_drawScoreCount a)
  /\ (tablebaseFires a0 board = false ->
      ((m_tbEnabled a0 = false -> m_result a <> drawResult) ->
       (m_result a' = drawResult
        <-> 0 < depth eval
            /\ m_drawMoveCount a0 * 2 <= run
            /\ m_drawMoveNum a0 <= plyCount board ÷ 2))
      /\ (m_drawScore a0 < Z.abs (score eval) -> m_drawScoreCount a' = 0)
      /\ (depth eval <= 0 -> m_drawScoreCount a' = 0)).
Proof.
  intros Hnum Hzero a a' run.
  pose proof (addEvals_config a0 calls) as (Hn & Hc & Hs & Ht).
  fold a in Hn, Hc, Hs, Ht.
  assert (Hrun : m_drawScoreCount a' = run).
  { subst a' a run. rewrite <- addEvals_snoc with (c := (board, eval)).
    apply addEvals_drawScoreCount_heard; assumption. }
  split; [exact Hrun |]. split.
  - intros Hfires. subst a'. apply addEval_tablebase.
    subst a. rewrite tablebaseFires_addEvals. exact Hfires.
  - intros Hfires.
    assert (Hlast : run = if quiet (m_drawScore a0) (board, eval)
                          then m_drawScoreCount a + 1 else 0).
    { rewrite <- Hrun. subst a'.
      rewrite addEval_drawScoreCount_heard;
        [rewrite Hs; reflexivity | congruence |].
      subst a. rewrite tablebaseFires_addEvals. exact Hfires. }
    split; [| split].
    + intros Hres. rewrite <- Hrun, <- Hc, <- Hn. subst a'.
      apply addEval_draw_iff_heard.
      * congruence.
      * subst a. rewrite tablebaseFires_addEvals. exact Hfires.
      * intros Hoff. apply Hres. congruence.
    + intros Hbig. rewrite Hrun, Hlast. unfold quiet. cbn [snd].
      replace (Z.abs (score eval) <=? m_drawScore a0) with false
        by (symmetry; apply Z.leb_gt; exact Hbig).
      rewrite andb_false_r. reflexivity.
    + intros Hd. rewrite Hrun, Hlast. unfold quiet. cbn [snd].
      replace (0 <? depth eval) with false
        by (symmetry; apply Z.ltb_ge; exact Hd).
      reflexivity.
Qed.

Lemma draw_rule_sequence_witness :
  let calls := [quietCall Black 2] in
  let last := quietCall White 3 in
  m_tbEnabled quickDrawTb = true
  /\ tablebaseFires quickDrawTb (fst last) = false
  /\ m_result (addEval (addEvals quickDrawTb calls) (fst last) (snd last))
     = drawResult.
Proof.
  cbv zeta.
  split; [reflexivity |].
  split; [reflexivity |].
  destruct (draw_rule_sequence quickDrawTb [quietCall Black 2]
              (fst (quietCall White 3)) (snd (quietCall White 3)))
    as (_ & _ & Hheard).
  - vm_compute; reflexivity.
  - reflexivity.
  - destruct (Hheard eq_refl) as (Hiff & _).
    apply Hiff.
    + intros Hoff. discriminate Hoff.
    + vm_compute. repeat split; congruence.
Defined.

End GameAdjudicatorProofs.

Module TextProofs.
Import Text.

Lemma append_cons c (s t : string) : String c s ++ t = String c (s ++ t).
Proof. reflexivity. Qed.

Lemma append_nil_l (s : string) : "" ++ s = s.
Proof. reflexivity. Qed.

Lemma append_nil_r (s : string) : s ++ "" = s.
Proof.
  induction s as [|c s IH]; [reflexivity |].
  rewrite append_cons, IH. reflexivity.
Qed.

Lemma append_assoc (s t u : string) : (s ++ t) ++ u = s ++ (t ++ u).
Proof.
  induction s as [|c s IH]; [reflexivity |].
  rewrite !append_cons, IH. reflexivity.
Qed.

Lemma length_append (s t : string) :
  String.length (s ++ t) = (String.length s + String.length t)%nat.
Proof.
  induction s as [|c s IH]; [reflexivity |].
  rewrite append_cons. simpl. rewrite IH. reflexivity.
Qed.

Lemma isEmpty_true (s : string) : isEmpty s = true <-> s = "".
Proof. destruct s; simpl; split; congruence. Qed.

Lemma isEmpty_false (s : string) : isEmpty s = false <-> s <> "".
Proof. destruct s; simpl; split; congruence. Qed.

Lemma linesFrom_nl cur rest :
  linesFrom cur (nl ++ rest) = cur :: linesFrom "" rest.
Proof. reflexivity. Qed.

(** A piece [a] sent to the stream while the current line holds
    [cur]: if the line can take it, and the text after it respects the
    limit from any line no longer than that, the whole does. *)
Lemma linesFrom_app_within (n : nat) (a : string) :
  forall (cur b : string),
    (String.length cur + String.length a <= n)%nat ->
    (forall cur',
        (String.length cur' <= String.length cur + String.length a)%nat ->
        Forall (fun l => (String.length l <= n)%nat) (linesFrom cur' b)) ->
    Forall (fun l => (String.length l <= n)%nat) (linesFrom cur (a ++ b)).
Proof.
  induction a as [|c a IH]; intros cur b Hfit Hrest.
  - rewrite append_nil_l. apply Hrest. simpl. lia.
  - rewrite append_cons. cbn [linesFrom]. simpl in Hfit.
    destruct (Ascii.eqb c "010") eqn:Hc.
    + constructor; [lia |].
      apply IH; [simpl; lia |].
      intros cur' Hcur'. apply Hrest. simpl in *. lia.
    + apply IH.
      * rewrite length_append. simpl. lia.
      * intros cur' Hcur'. apply Hrest.
        rewrite length_append in Hcur'. simpl in *. lia.
Qed.

End TextProofs.

Module PgnWriteProofs.
Import Chess Text TextProofs PgnGame.

Section Game.
Context {EcoNode : Type}.
Implicit Types (g : PgnGame.t EcoNode) (mode : PgnMode).

Lemma writeTag_shown tags tag :
  writeTag tag (QMap.value tags tag) = tagLine tag (shown tags tag).
Proof.
  unfold writeTag, QMap.value, shown, tagLine.
  destruct (tags !! tag) as [[|c v]|]; reflexivity.
Qed.

Lemma QMap_isEmpty_false (tags : gmap string string) :
  tags <> ∅ -> QMap.isEmpty tags = false.
Proof.
  intros Hne. unfold QMap.isEmpty. apply bool_decide_eq_false. exact Hne.
Qed.

(** C5: a game that is written (its tag map is not empty: [write]
    returns at once for a game without tags) starts, right after what
    the stream already holds, with the seven roster tags in the order
    Event, Site, Date, Round, White, Black, Result, one per line as
    [[Name "value"]]; the value printed for a roster tag that is
    missing, or whose value is empty, is the question mark. *)
Theorem write_roster_first (out : string) g mode :
  m_tags g <> ∅ ->
  exists rest,
    write out g mode
    = out
      ++ tagLine "Event" (shown (m_tags g) "Event")
      ++ tagLine "Site" (shown (m_tags g) "Site")
      ++ tagLine "Date" (shown (m_tags g) "Date")
      ++ tagLine "Round" (shown (m_tags g) "Round")
      ++ tagLine "White" (shown (m_tags g) "White")
      ++ tagLine "Black" (shown (m_tags g) "Black")
      ++ tagLine "Result" (shown (m_tags g) "Result")
      ++ rest.
Proof.
  intros Hne.
  exists (writeOtherTags mode (m_tags g) ++ writeMovetext g mode).
  unfold write. rewrite (QMap_isEmpty_false _ Hne).
  unfold writeRoster, roster. cbn [fold_right].
  rewrite !writeTag_shown, append_nil_r, !append_assoc.
  reflexivity.
Qed.

(** *** setTag *)

Lemma supplementaryTags_lookup (tags : gmap string string) k v :
  In (k, v) (supplementaryTags tags) -> tags !! k = Some v.
Proof.
  unfold supplementaryTags, QMap.toList. intros Hin.
  apply filter_In in Hin as [Hin _].
  apply list_elem_of_In in Hin.
  rewrite merge_sort_Permutation in Hin.
  apply elem_of_map_to_list in Hin. exact Hin.
Qed.

(** C10: [setTag] with an empty value removes the tag from the map:
    [tagValue] then returns the empty string and the tag is not among
    the tags the [Verbose] branch of [write] emits after the roster;
    [setTag] with a non-empty value stores that value under the tag,
    new or not, and [tagValue] returns it. *)
Theorem setTag_removes_or_stores g (tag : string) (c : ascii) (v : string) :
  (m_tags (setTag g tag "") = delete tag (m_tags g)
   /\ m_tags (setTag g tag "") !! tag = None
   /\ tagValue (setTag g tag "") tag = ""
   /\ ~ In tag (map fst (supplementaryTags (m_tags (setTag g tag "")))))
  /\
  (m_tags (setTag g tag (String c v)) = <[tag := String c v]> (m_tags g)
   /\ tagValue (setTag g tag (String c v)) tag = String c v).
Proof.
  split.
  - assert (Hdel : m_tags (setTag g tag "") = delete tag (m_tags g))
      by reflexivity.
    assert (Hnone : m_tags (setTag g tag "") !! tag = None)
      by (rewrite Hdel; apply lookup_delete_eq).
    repeat split.
    + exact Hnone.
    + unfold tagValue, QMap.value. rewrite Hnone. reflexivity.
    + intros Hin. apply in_map_iff in Hin as ([k x] & Hk & Hin).
      simpl in Hk. subst k.
      apply supplementaryTags_lookup in Hin. congruence.
  - split; [reflexivity |].
    unfold tagValue, QMap.value, setTag. cbn [isEmpty with_tags m_tags].
    rewrite lookup_insert_eq. reflexivity.
Qed.

End Game.

Lemma write_roster_first_witness :
  m_tags Games.scenario5 <> ∅
  /\ exists rest,
      write "" Games.scenario5 Minimal
      = "[Event " ++ dquote ++ "Test" ++ dquote ++ "]" ++ nl
        ++ "[Site " ++ dquote ++ "Lab" ++ dquote ++ "]" ++ nl
        ++ "[Date " ++ dquote ++ "?" ++ dquote ++ "]" ++ nl
        ++ "[Round " ++ dquote ++ "?" ++ dquote ++ "]" ++ nl
        ++ "[White " ++ dquote ++ "A" ++ dquote ++ "]" ++ nl
        ++ "[Black " ++ dquote ++ "B" ++ dquote ++ "]" ++ nl
        ++ "[Result " ++ dquote ++ "1-0" ++ dquote ++ "]" ++ nl
        ++ rest.
Proof.
  assert (Hne : m_tags Games.scenario5 <> ∅).
  { intros Heq.
    assert (Hl : m_tags Games.scenario5 !! "Event" = Some "Test")
      by (vm_compute; reflexivity).
    rewrite Heq, lookup_empty in Hl. discriminate. }
  split; [exact Hne |].
  destruct (write_roster_first "" Games.scenario5 Minimal Hne) as [rest Hw].
  exists rest. rewrite Hw. reflexivity.
Defined.

(** *** Line lengths of the movetext *)

Lemma linesFrom_tail_within (n : nat) (result cur : string) :
  (String.length cur + String.length result <= n)%nat ->
  Forall (fun l => (String.length l <= n)%nat)
         (linesFrom cur (result ++ nl ++ nl)).
Proof.
  intros Hfit. apply linesFrom_app_within; [exact Hfit |].
  intros cur' Hcur'. cbn.
  repeat constructor; simpl; lia.
Qed.

(** The loop's invariant: [lineLength] is at most 80 and bounds the
    length of the line being written. *)
Lemma writeMoves_lines_within mode result (moves : list MoveData) :
  forall (i lineLength movenum side : Z) (cur : string),
    Forall (fun tok => (size tok <= 80)%Z)
           (moveTokens mode moves i movenum side) ->
    (size result <= 80)%Z ->
    (0 <= lineLength <= 80)%Z ->
    (Z.of_nat (String.length cur) <= lineLength)%Z ->
    Forall (fun l => (String.length l <= 80)%nat)
           (linesFrom cur
              (writeMoves mode result moves i lineLength movenum side)).
Proof.
  induction moves as [|data rest IH];
    intros i lineLength movenum side cur Htok Hres Hll Hcur.
  - cbn [writeMoves]. unfold size in *.
    destruct (80 <=? lineLength + Z.of_nat (String.length result))%Z eqn:Hw.
    + rewrite linesFrom_nl. constructor; [lia |].
      apply linesFrom_tail_within. simpl. lia.
    + apply Z.leb_gt in Hw.
      apply linesFrom_app_within with (a := " "); [simpl; lia |].
      intros cur' Hcur'. apply linesFrom_tail_within. simpl in Hcur'. lia.
  - cbn [writeMoves moveTokens] in *.
    set (numbered := ((side =? Z.of_nat (sideIndex White)) || (i =? 0))%Z) in *.
    set (movenum' := if numbered then (movenum + 1)%Z else movenum) in *.
    set (str := moveToken mode numbered movenum' data) in *.
    apply Forall_cons_1 in Htok as [Hstr Htok].
    unfold size in Hstr.
    destruct ((lineLength =? 0) || (80 <=? lineLength + size str))%Z eqn:Hw.
    + rewrite linesFrom_nl. constructor; [lia |].
      apply linesFrom_app_within; [simpl; lia |].
      intros cur' Hcur'.
      apply IH; try assumption; unfold size; simpl in *; lia.
    + apply orb_false_iff in Hw as [_ Hw]. apply Z.leb_gt in Hw.
      unfold size in Hw.
      apply linesFrom_app_within with (a := " "); [simpl; lia |].
      intros cur' Hcur'.
      apply linesFrom_app_within; [simpl in *; lia |].
      intros cur'' Hcur''.
      apply IH; try assumption; unfold size; simpl in *; lia.
Qed.

(** X6: what the wrapping does achieve.  When no token of the movetext
    (move number, move string and comment together) and not the
    termination marker is longer than 80 characters, no line of the
    movetext is. *)
Lemma writeMovetext_lines_within {EcoNode : Type} (g : PgnGame.t EcoNode)
    (mode : PgnMode) :
  Forall (fun tok => (size tok <= 80)%Z) (movetextTokens g mode) ->
  (size (QMap.value (m_tags g) "Result") <= 80)%Z ->
  Forall (fun l => (String.length l <= 80)%nat)
         (lines (writeMovetext g mode)).
Proof.
  intros Htok Hres. unfold lines, writeMovetext.
  apply writeMoves_lines_within; try assumption; simpl; lia.
Qed.

(** C4, on a game the codec can hold (a comment read from a PGN file
    or set by the caller is not bounded): the one move of
    [Games.annotatedGame] carries a comment of 103 characters; written
    in [Verbose] mode its token makes a movetext line of 111
    characters.  The lines of the movetext are the empty line after
    the tags, the move, the termination marker, and the two line ends
    that close the game. *)
Theorem write_long_token_line :
  lines (writeMovetext Games.annotatedGame Verbose)
  = [""; "1. e4 {" ++ Games.longComment ++ "}"; "1-0"; ""; ""]
  /\ String.length ("1. e4 {" ++ Games.longComment ++ "}") = 111%nat
  /\ longestLine (writeMovetext Games.annotatedGame Verbose) = 111%nat.
Proof. vm_compute. repeat split; reflexivity. Qed.

End PgnWriteProofs.

Module ChessGameProofs.
Import Chess ChessGame.

(** C3: a move that arrives after the end of the game is not
    discarded.  White (player 1) has lost on time, the game is over,
    and White's move e4 arrives.  [onForfeit] begins by testing
    [m_gameInProgress]; [onMoveMade] has no such test, only
    [Q_ASSERT(m_gameInProgress)].  With assertions compiled out the
    move is appended to the moves and its evaluation to the comments,
    the move is played on the board, Black is told the move and told
    to go, [moveMade] is sent, and the result of the game (Black wins
    on time) is overwritten with the board's, which is none.  With
    assertions the call stops at that assertion: on the game in
    progress the same call passes all three. *)
Theorem late_move_recorded :
  let move := "e4" in
  let eval := mkEval 10 25 1200 "" in
  m_gameInProgress timedOut = false
  /\ gameState timedOut = (mkResult Timeout Black "", [], [], 0%nat)
  /\ playerToMove timedOut = 1%nat
  /\ (exists g',
        onMoveMade neverEmpty false bothReady timedOut 1%nat move eval
        = Some g'
        /\ gameState g' = (Result_default, ["e4"], ["+0.25/10 1s"], 1%nat)
        /\ m_gameInProgress g' = false
        /\ effects g'
           = (effects timedOut
              ++ [PlayerMakeMove 2%nat "e4"; PlayerGo 2%nat;
                  EmitMoveMade "e4"])%list)
  /\ onMoveMade neverEmpty true bothReady timedOut 1%nat move eval = None
  /\ onMoveMade neverEmpty true bothReady running 1%nat move eval <> None.
Proof.
  cbv zeta. repeat split.
  - eexists. split; [vm_compute; reflexivity |]. repeat split.
  - vm_compute. discriminate.
Qed.

Section Game.
Context {Board Move : Type} `{BoardRules Board Move}.
Variable evalIsEmpty : MoveEvaluation -> bool.
Implicit Types (g : ChessGame.t Board Move) (ready : Player -> bool).

Lemma Q_ASSERT_holds {A} debug (k : option A) : Q_ASSERT debug true k = k.
Proof. unfold Q_ASSERT. rewrite andb_false_r. reflexivity. Qed.

Lemma Q_ASSERT_release {A} cond (k : option A) : Q_ASSERT false cond k = k.
Proof. reflexivity. Qed.

Lemma Q_ASSERT_fails {A} (k : option A) : Q_ASSERT true false k = None.
Proof. reflexivity. Qed.

(** [onForfeit] begins with the test [onMoveMade] lacks: after the
    end of the game a forfeit changes nothing. *)
Lemma onForfeit_after_end g ready (sender : Player) (result : Result) :
  m_gameInProgress g = false ->
  onForfeit ready g sender result = g.
Proof. intros Hover. unfold onForfeit. rewrite Hover. reflexivity. Qed.

(** A build with assertions stops at every move after the end. *)
Lemma onMoveMade_after_end_asserted g ready (sender : Player) (move : Move)
    (eval : MoveEvaluation) :
  m_gameInProgress g = false ->
  onMoveMade evalIsEmpty true ready g sender move eval = None.
Proof.
  intros Hover. unfold onMoveMade. rewrite Hover.
  destruct (negb (sender =? 0)%nat).
  - rewrite Q_ASSERT_holds. apply Q_ASSERT_fails.
  - reflexivity.
Qed.

(** Without assertions, a move of the player to move that arrives
    after the end is recorded on any game: it is added to the moves,
    its evaluation to the comments, it is played on the board, and
    the result becomes the board's. *)
Lemma onMoveMade_after_end g ready (move : Move) (eval : MoveEvaluation) :
  m_gameInProgress g = false ->
  exists g',
    onMoveMade evalIsEmpty false ready g (playerToMove g) move eval = Some g'
    /\ m_moves g' = (m_moves g ++ [move])%list
    /\ m_comments g' = (m_comments g ++ [evalComment evalIsEmpty eval])%list
    /\ m_board g' = makeMove (m_board g) move
    /\ m_result g' = boardResult (makeMove (m_board g) move)
    /\ m_gameInProgress g' = false
    /\ gameState g' <> gameState g.
Proof.
  intros Hover. unfold onMoveMade. rewrite !Q_ASSERT_release.
  rewrite Nat.eqb_refl. cbn [negb]. cbv zeta.
  unfold endGame.
  cbn [emit with_result m_board m_player m_gameInProgress m_result m_moves
       m_comments effects].
  rewrite Hover. cbn [negb].
  eexists. split; [reflexivity |].
  assert (Hlen : (m_moves g ++ [move])%list <> m_moves g).
  { intros Heq. apply (f_equal (@length _)) in Heq.
    rewrite length_app in Heq. cbn [length] in Heq. lia. }
  destruct (isNone (boardResult (makeMove (m_board g) move)));
    cbn [emit with_result m_board m_player m_gameInProgress m_result m_moves
         m_comments effects];
    repeat split; try exact Hover;
    unfold gameState;
    cbn [emit with_result m_board m_player m_gameInProgress m_result m_moves
         m_comments effects];
    intros Heq; apply Hlen; congruence.
Qed.

End Game.

End ChessGameProofs.

Module EngineMatchProofs.
Import Chess Text TextProofs EngineMatch.
Local Open Scope Z_scope.
Local Open Scope list_scope.

Section Match.
Context {Move : Type}.
Implicit Types (m : EngineMatch.t Move).

Ltac fields :=
  cbn [m_bookDepth m_gameCount m_drawCount m_currentGame m_pgnGamesRead
       m_white m_black m_book m_debug m_repeatOpening m_variant m_engines
       m_fen m_openingMoves m_event m_site m_pgnInputOpen m_pgnOutput
       effects emit with_engines with_counters with_colours with_opening
       addWin] in *.

Ltac branches :=
  repeat match goal with
         | |- context [if ?b then _ else _] => destruct b; fields
         | |- context [match ?o with Some _ => _ | None => _ end] =>
             destruct o; fields
         end.

(** *** The engine list *)

Lemma initEngines_length starts (engines : list EngineData) :
  forall next,
    length (fst (initEngines starts next engines)) = length engines.
Proof.
  induction engines as [|it rest IH]; intros next; [reflexivity |].
  cbn [initEngines].
  destruct (negb (timeControlValid (settings it))); [reflexivity |].
  destruct (negb (starts (command (config it)))); [reflexivity |].
  specialize (IH (S next)).
  destruct (initEngines starts (S next) rest) as [rest' w].
  cbn [fst length] in *. rewrite IH. reflexivity.
Qed.

Lemma quit_each_fields (l : list EngineData) :
  forall m,
    let m' := fold_left
                (fun acc data =>
                   emit acc (QuitEngine (engine data) (process data))) l m in
    m_engines m' = m_engines m
    /\ m_currentGame m' = m_currentGame m
    /\ m_gameCount m' = m_gameCount m
    /\ effects m'
       = effects m
         ++ map (fun data => QuitEngine (engine data) (process data)) l.
Proof.
  induction l as [|d l IH]; intros m; cbn [fold_left map].
  - rewrite app_nil_r. auto.
  - destruct (IH (emit m (QuitEngine (engine d) (process d))))
      as (He & Hc & Hn & Hf).
    cbv zeta. rewrite He, Hc, Hn, Hf. fields. rewrite <- app_assoc. auto.
Qed.

Lemma killEngines_fields m :
  m_engines (killEngines m) = m_engines m
  /\ m_currentGame (killEngines m) = m_currentGame m
  /\ m_gameCount (killEngines m) = m_gameCount m
  /\ effects (killEngines m) = effects m ++ quitAll m.
Proof. apply quit_each_fields. Qed.

(** The first part of [onGameEnded] counts the game, keeps the game
    count and the number of engines, and only logs. *)
Lemma recordResult_fields m result :
  let m' := recordResult m result in
  m_currentGame m' = m_currentGame m + 1
  /\ m_gameCount m' = m_gameCount m
  /\ length (m_engines m') = length (m_engines m)
  /\ exists logs, Forall (fun e => isLog e = true) logs
                  /\ effects m' = effects m ++ logs.
Proof.
  unfold recordResult, addWin. fields.
  branches; rewrite ?length_alter;
    (split; [reflexivity | split; [reflexivity | split; [reflexivity |]]]);
    eexists; rewrite <- ?app_assoc; cbn [app];
    (split; [| reflexivity]); repeat constructor.
Qed.

Lemma onGameEnded_engines_length m result :
  length (m_engines (onGameEnded m result)) = length (m_engines m).
Proof.
  pose proof (recordResult_fields m result) as (_ & _ & Hlen & _).
  unfold onGameEnded.
  destruct ((m_currentGame (recordResult m result)
             <? m_gameCount (recordResult m result))
            && negb (bool_decide (code result = ResultError))
            && negb (bool_decide (code result = Disconnection))); fields.
  - exact Hlen.
  - rewrite (proj1 (killEngines_fields _)). exact Hlen.
Qed.

Lemma seedGame_fields m seeding :
  let m' := seedGame m seeding in
  m_engines m' = m_engines m
  /\ m_white m' = m_white m /\ m_black m' = m_black m
  /\ m_currentGame m' = m_currentGame m
  /\ m_gameCount m' = m_gameCount m
  /\ m_repeatOpening m' = m_repeatOpening m
  /\ exists later, effects m' = effects m ++ later.
Proof.
  unfold seedGame. fields. branches;
    repeat (split; [reflexivity |]);
    eexists; rewrite <- ?app_assoc; try reflexivity;
    symmetry; apply app_nil_r.
Qed.

Lemma assignColours_fields m :
  let m' := assignColours m in
  m_engines m' = m_engines m
  /\ m_currentGame m' = m_currentGame m
  /\ m_gameCount m' = m_gameCount m.
Proof. unfold assignColours. fields. branches; auto. Qed.

Lemma rememberOpening_fields m seeding :
  let m' := rememberOpening m seeding in
  m_engines m' = m_engines m
  /\ m_white m' = m_white m /\ m_black m' = m_black m
  /\ m_currentGame m' = m_currentGame m
  /\ m_gameCount m' = m_gameCount m
  /\ effects m' = effects m.
Proof. unfold rememberOpening. branches; auto 10. Qed.

Lemma start_fields m seeding :
  m_engines (start m seeding) = m_engines m
  /\ m_currentGame (start m seeding) = m_currentGame m
  /\ m_gameCount (start m seeding) = m_gameCount m.
Proof.
  unfold start. fields.
  set (m0 := emit m (DebugMsg "Started game")).
  pose proof (assignColours_fields m0) as (He1 & Hc1 & Hn1).
  pose proof (seedGame_fields (assignColours m0) seeding)
    as (He2 & _ & _ & Hc2 & Hn2 & _).
  pose proof (rememberOpening_fields (seedGame (assignColours m0) seeding)
                                     seeding)
    as (He3 & _ & _ & Hc3 & Hn3 & _).
  cbv zeta in *. rewrite He3, Hc3, Hn3, He2, Hc2, Hn2, He1, Hc1, Hn1.
  auto.
Qed.

Lemma reachable_at_most_two m :
  reachable m -> (length (m_engines m) <= 2)%nat.
Proof.
  induction 1 as [ | m c s _ IH | m d _ IH | m f o _ IH | m d _ IH
                 | m e _ IH | m n _ IH | m f o _ IH | m f _ IH | m r _ IH
                 | m x _ IH | m v _ IH | m starts _ IH | m sd _ IH
                 | m res _ IH ];
    try exact IH.
  - simpl. lia.
  - unfold addEngine.
    destruct (2 <=? Z.of_nat (length (m_engines m))) eqn:Hfull; fields;
      [exact IH |].
    destruct (isEmpty (command c)); fields; [exact IH |].
    apply Z.leb_gt in Hfull. rewrite length_app. simpl. lia.
  - unfold setBookDepth. destruct (d <=? 0); exact IH.
  - unfold setBookFile. destruct o; exact IH.
  - unfold setPgnInput. destruct o; exact IH.
  - unfold initialize.
    destruct (Z.of_nat (length (m_engines m)) <? 2); fields; [exact IH |].
    pose proof (initEngines_length starts (m_engines m) 1) as Hlen.
    destruct (initEngines starts 1 (m_engines m)) as [engines w].
    cbn [fst] in Hlen.
    destruct w; cbn [fst]; fields; lia.
  - rewrite (proj1 (start_fields m sd)). exact IH.
  - rewrite onGameEnded_engines_length. exact IH.
Qed.

(** C9: in every state a match object can reach, a call of
    [addEngine] leaves the list of engines as it is when the list
    holds two entries already or the command is empty (with fewer than
    two entries and an empty command nothing at all changes: no
    warning is logged); otherwise it appends exactly one entry, built
    from the configuration and the settings.  The list never holds
    more than two entries, before or after. *)
Theorem addEngine_at_most_two m (c : EngineConfiguration) (s : EngineSettings) :
  reachable m ->
  let m' := addEngine m c s in
  (length (m_engines m) <= 2)%nat
  /\ (length (m_engines m') <= 2)%nat
  /\ (((2 <= length (m_engines m))%nat \/ command c = "") ->
      m_engines m' = m_engines m)
  /\ ((length (m_engines m) < 2)%nat -> command c = "" -> m' = m)
  /\ ((length (m_engines m) < 2)%nat -> command c <> "" ->
      m_engines m' = m_engines m ++ [mkEngineData c s 0 0 0]).
Proof.
  intros Hreach m'.
  split; [apply reachable_at_most_two; exact Hreach |].
  split; [apply reachable_at_most_two; constructor; exact Hreach |].
  subst m'. unfold addEngine.
  destruct (2 <=? Z.of_nat (length (m_engines m))) eqn:Hfull; fields.
  - apply Z.leb_le in Hfull. repeat split; intros; try reflexivity; lia.
  - apply Z.leb_gt in Hfull.
    destruct (isEmpty (command c)) eqn:Hcmd; fields.
    + apply isEmpty_true in Hcmd. repeat split; intros; try reflexivity.
      congruence.
    + apply isEmpty_false in Hcmd. repeat split; intros; try reflexivity.
      * destruct H as [H | H]; [lia | congruence].
      * congruence.
Qed.

(** *** Colours *)

Lemma rem_2_zero_mod (g : Z) : (Z.rem g 2 =? 0) = (g mod 2 =? 0).
Proof.
  destruct (Z.rem g 2 =? 0) eqn:Hr; symmetry.
  - apply Z.eqb_eq in Hr. apply Z.eqb_eq.
    apply Z.rem_divide in Hr; [| lia]. apply Z.mod_divide; [lia | exact Hr].
  - apply Z.eqb_neq in Hr. apply Z.eqb_neq. intros Hm. apply Hr.
    apply Z.mod_divide in Hm; [| lia]. apply Z.rem_divide; [lia | exact Hm].
Qed.

(** The colour choice on its own. *)
Lemma assignColours_spec m :
  let g := m_currentGame m in
  let m' := assignColours m in
  let w := Z.to_nat (g mod 2) in
  m_white m' = Some w
  /\ m_black m' = Some (1 - w)%nat
  /\ (if Z.even g
      then m_white m' = Some 0%nat /\ m_black m' = Some 1%nat
      else m_white m' = Some 1%nat /\ m_black m' = Some 0%nat)
  /\ effects m'
     = effects m
       ++ [SetPlayer White (engineAt m w);
           SetPlayer Black (engineAt m (1 - w)%nat)].
Proof.
  intros g m' w. subst m'. unfold assignColours.
  fold g. rewrite rem_2_zero_mod.
  pose proof (Z.mod_pos_bound g 2 ltac:(lia)) as Hb.
  rewrite Zeven_mod. subst w.
  destruct (g mod 2 =? 0) eqn:Hm.
  - apply Z.eqb_eq in Hm. rewrite Hm. fields.
    rewrite <- app_assoc. repeat split.
  - apply Z.eqb_neq in Hm.
    replace (g mod 2) with 1 by lia. fields.
    rewrite <- app_assoc. repeat split.
Qed.

(** C7: [start] gives White to the engine at index [g mod 2] of the
    engine list and Black to the other one, [g] being the index of the
    game it starts: engines 0 and 1 for an even [g], 1 and 0 for an
    odd one.  The two pointers are set so, and the players handed to
    the game are the engines they point to. *)
Theorem start_colours m (seeding : Seeding Move) :
  let g := m_currentGame m in
  let m' := start m seeding in
  let w := Z.to_nat (g mod 2) in
  m_white m' = Some w
  /\ m_black m' = Some (1 - w)%nat
  /\ (if Z.even g
      then m_white m' = Some 0%nat /\ m_black m' = Some 1%nat
      else m_white m' = Some 1%nat /\ m_black m' = Some 0%nat)
  /\ exists later,
      effects m'
      = effects m
        ++ [DebugMsg "Started game";
            SetPlayer White (engineAt m w);
            SetPlayer Black (engineAt m (1 - w)%nat)]
        ++ later.
Proof.
  intros g m' w. subst m'. unfold start. fields.
  set (m0 := emit m (DebugMsg "Started game")).
  pose proof (assignColours_spec m0) as (Hw1 & Hb1 & Hev1 & Hf1).
  pose proof (seedGame_fields (assignColours m0) seeding)
    as (_ & Hw2 & Hb2 & _ & _ & _ & later & Hf2).
  pose proof (rememberOpening_fields (seedGame (assignColours m0) seeding)
                                     seeding)
    as (_ & Hw3 & Hb3 & _ & _ & Hf3).
  cbv zeta in *.
  change (m_currentGame m0) with g in *.
  rewrite Hw3, Hb3, Hw2, Hb2, Hf3, Hf2, Hf1.
  split; [exact Hw1 | split; [exact Hb1 | split; [exact Hev1 |]]].
  exists (later ++ [StartGame]).
  subst m0. unfold engineAt. fields.
  rewrite <- !app_assoc. reflexivity.
Qed.

(** *** The end of a game *)

Lemma finished_emit m e :
  finished (emit m e) = match e with EmitFinished => true | _ => false end.
Proof. unfold finished. fields. rewrite rev_unit. reflexivity. Qed.

(** The decision at the end of a game, for a game index below the
    game count. *)
Lemma onGameEnded_decision m (result : Result) :
  m_currentGame m < m_gameCount m ->
  let g := m_currentGame m in
  let m' := onGameEnded m result in
  m_currentGame m' = g + 1
  /\ m_gameCount m' = m_gameCount m
  /\ (finished m' = true
      <-> g + 1 = m_gameCount m
          \/ code result = ResultError
          \/ code result = Disconnection)
  /\ exists logs,
      Forall (fun e => isLog e = true) logs
      /\ effects m'
         = effects m ++ logs
           ++ (if finished m'
               then quitAll m' ++ [DebugMsg "Finished match"; EmitFinished]
               else [SingleShot 2000]).
Proof.
  intros Hg g m'. subst m'. unfold onGameEnded.
  pose proof (recordResult_fields m result)
    as (Hc & Hn & _ & logs & Hlogs & Heff).
  cbv zeta in Hc, Hn, Heff.
  set (m1 := recordResult m result) in *.
  rewrite Hc, Hn. fold g in Hc |- *.
  destruct (g + 1 <? m_gameCount m) eqn:Hmore;
    [apply Z.ltb_lt in Hmore | apply Z.ltb_ge in Hmore];
    destruct (bool_decide (code result = ResultError)) eqn:Herr;
    [apply bool_decide_eq_true in Herr | apply bool_decide_eq_false in Herr
    |apply bool_decide_eq_true in Herr | apply bool_decide_eq_false in Herr];
    destruct (bool_decide (code result = Disconnection)) eqn:Hdis;
    [apply bool_decide_eq_true in Hdis | apply bool_decide_eq_false in Hdis
    |apply bool_decide_eq_true in Hdis | apply bool_decide_eq_false in Hdis
    |apply bool_decide_eq_true in Hdis | apply bool_decide_eq_false in Hdis
    |apply bool_decide_eq_true in Hdis | apply bool_decide_eq_false in Hdis];
    cbn [andb negb];
    rewrite ?finished_emit;
    try (pose proof (killEngines_fields m1) as (Hke & Hkc & _ & Hkf));
    fields; rewrite ?Hkc, ?Hc;
    (split; [reflexivity |]);
    (split; [first [exact Hn
                   | rewrite (proj1 (proj2 (proj2 (killEngines_fields m1))));
                     exact Hn] |]);
    (split; [split; [intros; try discriminate; auto; lia
                    | intros [? | [? | ?]]; try reflexivity;
                      try congruence; lia] |]);
    exists logs; (split; [exact Hlogs |]);
    unfold quitAll; fields; rewrite ?Hke, ?Hkf, ?Heff;
    rewrite <- ?app_assoc; reflexivity.
Qed.

(** In a match that starts with a game index below the game count,
    every game that is played has such an index, and the game count
    stays what it was. *)
Lemma gamesPlayed_indices (outcomes : list (Seeding Move * Result)) :
  forall m,
    0 <= m_currentGame m < m_gameCount m ->
    Forall (fun playing =>
              0 <= m_currentGame playing < m_gameCount playing
              /\ m_gameCount playing = m_gameCount m)
           (gamesPlayed m outcomes).
Proof.
  induction outcomes as [|[seeding result] rest IH]; intros m Hm;
    cbn [gamesPlayed]; [constructor |].
  pose proof (start_fields m seeding) as (_ & Hc & Hn).
  set (playing := start m seeding) in *.
  assert (Hp : 0 <= m_currentGame playing < m_gameCount playing)
    by (rewrite Hc, Hn; exact Hm).
  constructor; [split; [exact Hp | exact Hn] |].
  pose proof (onGameEnded_decision playing result (proj2 Hp))
    as (Hc' & Hn' & Hfin & _).
  cbv zeta in Hc', Hn', Hfin.
  destruct (finished (onGameEnded playing result)) eqn:Hf; [constructor |].
  assert (Hne : m_currentGame playing + 1 <> m_gameCount playing).
  { intros Heq. assert (Ht : false = true) by (apply Hfin; left; exact Heq).
    discriminate. }
  eapply List.Forall_impl; [| apply IH; rewrite Hc', Hn'; lia].
  cbv beta. intros later [Hl Hnl]. split; [exact Hl | congruence].
Qed.

(** A match that [initialize] accepted starts at game 0. *)
Lemma initialize_currentGame m starts :
  snd (initialize m starts) = true ->
  m_currentGame (fst (initialize m starts)) = 0
  /\ m_gameCount (fst (initialize m starts)) = m_gameCount m.
Proof.
  unfold initialize.
  destruct (Z.of_nat (length (m_engines m)) <? 2); [discriminate |].
  fields.
  destruct (initEngines starts 1 (m_engines m)) as [engines w].
  destruct w; cbn [fst snd]; [discriminate |]. fields. auto.
Qed.

(** C8: in a match of at least one game that starts at game 0, at
    the end of every game [g] that is played, [onGameEnded] counts
    the game and then either ends the match or puts the next game on
    a timer of 2000 milliseconds.  It ends the match, quitting every
    engine and announcing the end without a timer, exactly when
    [g + 1] is the game count, or the result is a ResultError, or it
    is a win by disconnection.  Before that it only logs and
    archives. *)
Theorem match_game_end m0 (outcomes : list (Seeding Move * Result))
    (playing : EngineMatch.t Move) (result : Result) :
  m_currentGame m0 = 0 ->
  1 <= m_gameCount m0 ->
  In playing (gamesPlayed m0 outcomes) ->
  let g := m_currentGame playing in
  let m' := onGameEnded playing result in
  m_currentGame m' = g + 1
  /\ m_gameCount playing = m_gameCount m0
  /\ (finished m' = true
      <-> g + 1 = m_gameCount m0
          \/ code result = ResultError
          \/ code result = Disconnection)
  /\ exists logs,
      Forall (fun e => isLog e = true) logs
      /\ effects m'
         = effects playing ++ logs
           ++ (if finished m'
               then quitAll m' ++ [DebugMsg "Finished match"; EmitFinished]
               else [SingleShot 2000]).
Proof.
  intros Hzero Hcount Hin g m'.
  pose proof (gamesPlayed_indices outcomes m0 ltac:(lia)) as Hall.
  rewrite List.Forall_forall in Hall.
  destruct (Hall playing Hin) as [Hidx Hn].
  destruct (onGameEnded_decision playing result (proj2 Hidx))
    as (Hc & _ & Hfin & Heff).
  rewrite <- Hn. auto.
Qed.

End Match.

Lemma match_game_end_witness :
  In thirdGame (gamesPlayed fourGames threeOutcomes)
  /\ m_currentGame thirdGame = 2
  /\ finished (onGameEnded thirdGame (mkResult Disconnection White "")) = true.
Proof.
  assert (Hin : In thirdGame (gamesPlayed fourGames threeOutcomes)).
  { vm_compute. right. right. left. reflexivity. }
  split; [exact Hin |].
  split; [reflexivity |].
  apply (match_game_end fourGames threeOutcomes thirdGame
           (mkResult Disconnection White "")).
  - reflexivity.
  - vm_compute. discriminate.
  - exact Hin.
  - right. right. reflexivity.
Defined.

Lemma addEngine_at_most_two_witness :
  reachable (addEngine (@new string) engineA blitz)
  /\ m_engines (addEngine (addEngine (@new string) engineA blitz) engineB blitz)
     = [mkEngineData engineA blitz 0 0 0; mkEngineData engineB blitz 0 0 0].
Proof.
  assert (Hreach : reachable (addEngine (@new string) engineA blitz))
    by (repeat constructor).
  split; [exact Hreach |].
  pose proof (addEngine_at_most_two _ engineB blitz Hreach)
    as (_ & _ & _ & _ & Happend).
  rewrite Happend; [reflexivity | simpl; lia | discriminate].
Defined.

End EngineMatchProofs.

Module PgnReadProofs.
Import Chess Text TextProofs PgnGame PgnStream PgnReader.
Local Open Scope Z_scope.

Ltac strnorm :=
  repeat first [rewrite append_assoc | rewrite append_cons
               | rewrite append_nil_l].

(** *** The lexer on the pieces [write] emits *)

Lemma skipSpaces_app (ws s : string) :
  allChars isSpace ws = true -> skipSpaces (ws ++ s) = skipSpaces s.
Proof.
  induction ws as [|c ws IH]; intros Hws; [reflexivity |].
  rewrite append_cons. cbn [allChars] in Hws.
  apply andb_true_iff in Hws as [Hc Hws].
  cbn [skipSpaces]. rewrite Hc. apply IH, Hws.
Qed.

Lemma skipSpaces_all (ws : string) :
  allChars isSpace ws = true -> skipSpaces ws = "".
Proof.
  intros Hws. rewrite <- (append_nil_r ws). rewrite skipSpaces_app by exact Hws.
  reflexivity.
Qed.

Lemma takeUntil_app (stop : ascii -> bool) (a b : string) :
  allChars (fun c => negb (stop c)) a = true ->
  stopsAt stop b ->
  takeUntil stop (a ++ b) = (a, b).
Proof.
  intros Ha Hb. induction a as [|c a IH].
  - rewrite append_nil_l. destruct b as [|c b]; [reflexivity |].
    cbn [takeUntil]. rewrite Hb. reflexivity.
  - cbn [allChars] in Ha. apply andb_true_iff in Ha as [Hc Ha].
    rewrite append_cons. cbn [takeUntil].
    apply negb_true_iff in Hc. rewrite Hc, (IH Ha). reflexivity.
Qed.

Lemma allChars_app p (a b : string) :
  allChars p (a ++ b) = allChars p a && allChars p b.
Proof.
  induction a as [|c a IH]; [reflexivity |].
  rewrite append_cons. cbn [allChars]. rewrite IH, andb_assoc. reflexivity.
Qed.

Lemma allChars_impl (p q : ascii -> bool) (s : string) :
  (forall c, p c = true -> q c = true) ->
  allChars p s = true -> allChars q s = true.
Proof.
  intros Hpq. induction s as [|c s IH]; [reflexivity |].
  cbn [allChars]. intros H. apply andb_true_iff in H as [Hc Hs].
  rewrite (Hpq _ Hc), (IH Hs). reflexivity.
Qed.

Lemma lastChar_app_char (a : string) (c : ascii) :
  lastChar (a ++ String c "") = Some c.
Proof.
  induction a as [|d a IH]; [reflexivity |].
  rewrite append_cons. cbn [lastChar]. rewrite IH.
  destruct (a ++ String c "") eqn:Ha; [| reflexivity].
  destruct a; discriminate.
Qed.

Lemma length_takeUntil (stop : ascii -> bool) (s : string) :
  (String.length (snd (takeUntil stop s)) <= String.length s)%nat.
Proof.
  induction s as [|c s IH]; [simpl; lia |].
  cbn [takeUntil]. destruct (stop c); [simpl; lia |].
  destruct (takeUntil stop s) as [w r]. simpl in *. lia.
Qed.

(** Decimal digits. *)
Lemma pretty_N_char_digit (x : N) : isDigit (pretty_N_char x) = true.
Proof.
  unfold pretty_N_char.
  repeat match goal with
         | |- context [match ?y with _ => _ end] => destruct y
         end; reflexivity.
Qed.

Lemma pretty_N_go_digits (x : N) :
  forall s, allChars isDigit s = true ->
            allChars isDigit (pretty_N_go x s) = true.
Proof.
  induction (N.lt_wf_0 x) as [x _ IH]. intros s Hs.
  destruct (N.eq_dec x 0%N) as [-> | Hx]; [exact Hs |].
  rewrite pretty_N_go_step by lia.
  apply IH; [apply N.div_lt; lia |].
  cbn [allChars]. rewrite pretty_N_char_digit, Hs. reflexivity.
Qed.

Lemma pretty_N_go_length (x : N) :
  forall s, (String.length s <= String.length (pretty_N_go x s))%nat.
Proof.
  induction (N.lt_wf_0 x) as [x _ IH]. intros s.
  destruct (N.eq_dec x 0%N) as [-> | Hx]; [rewrite pretty_N_go_0; lia |].
  rewrite pretty_N_go_step by lia.
  etransitivity; [| apply IH; apply N.div_lt; lia]. simpl. lia.
Qed.

(** A positive number prints as digits, at least one. *)
Lemma QString_number_digits (n : Z) :
  0 < n ->
  allChars isDigit (QString_number n) = true
  /\ exists c rest, QString_number n = String c rest /\ isDigit c = true.
Proof.
  intros Hn. destruct n as [|p|p]; try lia.
  unfold QString_number, pretty, pretty_Z, pretty, pretty_positive, pretty,
    pretty_N.
  destruct (decide (N.pos p = 0%N)) as [Hp | _]; [discriminate |].
  assert (Hd : allChars isDigit (pretty_N_go (N.pos p) "") = true)
    by (apply pretty_N_go_digits; reflexivity).
  split; [exact Hd |].
  rewrite pretty_N_go_step in * by lia.
  pose proof (pretty_N_go_length (N.pos p `div` 10)
                (String (pretty_N_char (N.pos p `mod` 10)) "")) as Hlen.
  destruct (pretty_N_go (N.pos p `div` 10)
              (String (pretty_N_char (N.pos p `mod` 10)) "")) as [|c rest];
    [simpl in Hlen; lia |].
  exists c, rest. split; [reflexivity |].
  cbn [allChars] in Hd. apply andb_true_iff in Hd as [Hc _]. exact Hc.
Qed.

Lemma letter_facts (c : ascii) :
  isLetter c = true ->
  wordStart c = true /\ isDigit c = false /\ Ascii.eqb c "*" = false.
Proof.
  destruct c as [[] [] [] [] [] [] [] []]; vm_compute;
    intuition congruence.
Qed.

Lemma digit_facts (c : ascii) :
  isDigit c = true -> wordStart c = true /\ wordEnd c = false.
Proof.
  destruct c as [[] [] [] [] [] [] [] []]; vm_compute;
    intuition congruence.
Qed.

(** A move string is read as a move. *)
Lemma classify_san (str : string) :
  sanOk str = true ->
  classify str = PgnMove
  /\ exists c w, str = String c w /\ wordStart c = true
                 /\ allChars (fun c => negb (wordEnd c)) (String c w) = true.
Proof.
  destruct str as [|c w]; [discriminate |].
  unfold sanOk. intros Hok. apply andb_true_iff in Hok as [Hc Hw].
  destruct (letter_facts c Hc) as (Hstart & Hdigit & Hstar).
  split.
  - unfold classify. rewrite Hdigit.
    rewrite bool_decide_eq_false_2; [reflexivity |].
    intros Heq. injection Heq as -> _. discriminate.
  - exists c, w. auto.
Qed.

(** A move number is read as one. *)
Lemma classify_number (n : Z) :
  0 < n ->
  exists c w,
    QString_number n ++ "." = String c w
    /\ classify (String c w) = PgnMoveNumber
    /\ wordStart c = true
    /\ allChars (fun c => negb (wordEnd c)) (String c w) = true.
Proof.
  intros Hn.
  destruct (QString_number_digits n Hn) as (Hall & c & rest & Heq & Hc).
  exists c, (rest ++ "."). rewrite Heq, append_cons.
  split; [reflexivity |].
  destruct (digit_facts c Hc) as (Hstart & _).
  split; [| split; [exact Hstart |]].
  - unfold classify. rewrite Hc.
    rewrite bool_decide_eq_true_2; [reflexivity |].
    rewrite <- append_cons. apply lastChar_app_char.
  - rewrite <- append_cons, <- Heq, allChars_app.
    apply andb_true_iff. split; [| reflexivity].
    revert Hall. apply allChars_impl. intros d Hd.
    destruct (digit_facts d Hd) as (_ & Hend). rewrite Hend. reflexivity.
Qed.

(** A termination marker is read as one. *)
Lemma classify_result (res : string) :
  resultOk res = true -> res <> "" ->
  exists c w,
    res = String c w
    /\ classify (String c w) = PgnResult
    /\ wordStart c = true
    /\ allChars (fun c => negb (wordEnd c)) (String c w) = true.
Proof.
  intros Hok Hne. unfold resultOk in Hok. apply bool_decide_eq_true in Hok.
  repeat (apply elem_of_cons in Hok as [-> | Hok]); try congruence;
    try (eexists; eexists; split; [reflexivity |]; vm_compute; auto).
  apply elem_of_nil in Hok. contradiction.
Qed.

Section Stream.
Context {Board Move : Type} `{PgnBoard Board Move}.
Implicit Types (s : PgnStream.t Board).

(** A word of the movetext, after any white space. *)
Lemma readNext_word s (ws : string) (c : ascii) (w rest : string) :
  input s = ws ++ String c w ++ rest ->
  allChars isSpace ws = true ->
  phase s <> OutOfGame ->
  wordStart c = true ->
  allChars (fun c => negb (wordEnd c)) (String c w) = true ->
  stopsAt wordEnd rest ->
  readNext s
  = (classify (String c w),
     PgnStream.mk rest (board s) Ok InGame (String c w) (tagName s)
                  (tagValue s)).
Proof.
  intros Hin Hws Hph Hstart Hword Hrest.
  unfold readNext. rewrite Hin, skipSpaces_app by exact Hws.
  unfold wordStart in Hstart.
  apply andb_true_iff in Hstart as [Hstart Hd].
  apply andb_true_iff in Hstart as [Hstart Hb].
  apply andb_true_iff in Hstart as [Hsp Hbr].
  apply negb_true_iff in Hsp, Hbr, Hb, Hd.
  rewrite append_cons. cbn [skipSpaces]. rewrite Hsp, Hbr, Hb, Hd.
  rewrite <- append_cons, (takeUntil_app _ _ _ Hword Hrest).
  destruct (phase s); [congruence | reflexivity | reflexivity].
Qed.

(** A comment in braces. *)
Lemma readNext_comment s (ws text rest : string) :
  input s = ws ++ "{" ++ text ++ "}" ++ rest ->
  allChars isSpace ws = true ->
  phase s <> OutOfGame ->
  commentOk text = true ->
  readNext s
  = (PgnComment,
     PgnStream.mk rest (board s) Ok InGame text (tagName s) (tagValue s)).
Proof.
  intros Hin Hws Hph Htext.
  unfold readNext. rewrite Hin, skipSpaces_app by exact Hws.
  cbn [append skipSpaces isSpace Ascii.eqb orb].
  change (skipSpaces ("{" ++ text ++ "}" ++ rest))
    with (String "{" (text ++ "}" ++ rest)).
  cbn [Ascii.eqb Bool.eqb].
  rewrite (takeUntil_app (fun c => Ascii.eqb c "}") text ("}" ++ rest));
    [| exact Htext | reflexivity].
  destruct (phase s); [congruence | reflexivity | reflexivity].
Qed.

(** Nothing but white space. *)
Lemma readNext_end s :
  allChars isSpace (input s) = true ->
  phase s <> OutOfGame ->
  readNext s = (NoToken, atEnd s).
Proof.
  intros Hws Hph. unfold readNext. rewrite skipSpaces_all by exact Hws.
  destruct (phase s); [congruence | reflexivity | reflexivity].
Qed.

(** A tag pair line. *)
Lemma readNext_tag s (ws name value rest : string) :
  input s = ws ++ tagLine name value ++ rest ->
  allChars isSpace ws = true ->
  phase s = InTags ->
  tagOk (name, value) = true ->
  readNext s
  = (PgnTag, PgnStream.mk (nl ++ rest) (board s) Ok InTags "" name value).
Proof.
  intros Hin Hws Hph Hok.
  unfold tagOk in Hok. cbn [fst snd] in Hok.
  apply andb_true_iff in Hok as [Hname Hvalue].
  unfold readNext. rewrite Hph, Hin, skipSpaces_app by exact Hws.
  unfold tagLine. rewrite !append_assoc.
  change (skipSpaces ("[" ++ name ++ " " ++ dquote ++ value ++ dquote
                      ++ "]" ++ nl ++ rest))
    with (String "[" (name ++ " " ++ dquote ++ value ++ dquote
                      ++ "]" ++ nl ++ rest)).
  cbn [Ascii.eqb Bool.eqb]. unfold readTag.
  rewrite (takeUntil_app isSpace name); [| exact Hname | reflexivity].
  change (skipSpaces (" " ++ dquote ++ value ++ dquote ++ "]" ++ nl ++ rest))
    with (String "034" (value ++ dquote ++ "]" ++ nl ++ rest)).
  cbn [Ascii.eqb Bool.eqb].
  rewrite (takeUntil_app (fun c => Ascii.eqb c "034") value);
    [| exact Hvalue | reflexivity].
  reflexivity.
Qed.

Lemma skipSpaces_length (str : string) :
  (String.length (skipSpaces str) <= String.length str)%nat.
Proof.
  induction str as [|c str IH]; [reflexivity |].
  cbn [skipSpaces]. destruct (isSpace c); simpl in *; lia.
Qed.

Lemma skipSpaces_head (str : string) (c : ascii) (r : string) :
  skipSpaces str = String c r -> isSpace c = false.
Proof.
  induction str as [|d str IH]; [discriminate |].
  cbn [skipSpaces]. destruct (isSpace d) eqn:Hd; [exact IH |].
  intros Heq. injection Heq as <- _. exact Hd.
Qed.

(** Every token but the end-of-game sentinel takes at least one
    character off the text. *)
Lemma readNext_shrinks s (token : TokenType) s' :
  readNext s = (token, s') ->
  token <> NoToken ->
  (String.length (input s') < String.length (input s))%nat.
Proof.
  unfold readNext. intros Hread Htoken.
  pose proof (skipSpaces_length (input s)) as Hskip.
  destruct (phase s) eqn:Hph; [injection Hread as <- _; congruence | |];
    (destruct (skipSpaces (input s)) as [|c r] eqn:Hs;
     [injection Hread as <- _; congruence |]);
    pose proof (skipSpaces_head _ _ _ Hs) as Hc;
    simpl in Hskip;
    (destruct (Ascii.eqb c "[") eqn:Hbr;
     [| destruct (Ascii.eqb c "{") eqn:Hbrace;
        [| destruct (Ascii.eqb c "$") eqn:Hdollar]]).
  - (* a tag pair *)
    unfold readTag in Hread.
    pose proof (length_takeUntil isSpace r) as H1.
    destruct (takeUntil isSpace r) as [name r1]. cbn [snd] in H1.
    pose proof (skipSpaces_length r1) as H2.
    destruct (skipSpaces r1) as [|q r2];
      [injection Hread as <- _; congruence |].
    destruct (Ascii.eqb q "034");
      [| injection Hread as <- _; congruence].
    pose proof (length_takeUntil (fun c => Ascii.eqb c "034") r2) as H3.
    destruct (takeUntil (fun c => Ascii.eqb c "034") r2) as [value r3].
    cbn [snd] in H3.
    destruct r3 as [|q' r4]; [injection Hread as <- _; congruence |].
    pose proof (length_takeUntil (fun c => Ascii.eqb c "]") r4) as H4.
    destruct (takeUntil (fun c => Ascii.eqb c "]") r4) as [skipped r5].
    cbn [snd] in H4.
    destruct r5 as [|q'' r6]; [injection Hread as <- _; congruence |].
    injection Hread as _ <-. cbn [input]. simpl in *. lia.
  - (* a comment *)
    pose proof (length_takeUntil (fun c => Ascii.eqb c "}") r) as H1.
    destruct (takeUntil (fun c => Ascii.eqb c "}") r) as [text rest].
    cbn [snd] in H1. injection Hread as _ <-. cbn [input].
    destruct rest; simpl in *; lia.
  - (* a NAG *)
    pose proof (length_takeUntil (fun c => negb (isDigit c)) r) as H1.
    destruct (takeUntil (fun c => negb (isDigit c)) r) as [digits rest].
    cbn [snd] in H1. injection Hread as _ <-. cbn [input]. lia.
  - (* a word *)
    cbn [takeUntil] in Hread. unfold wordEnd in Hread at 1.
    rewrite Hc, Hbrace in Hread. cbn [orb] in Hread.
    pose proof (length_takeUntil wordEnd r) as H1.
    destruct (takeUntil wordEnd r) as [w rest]. cbn [snd] in H1.
    injection Hread as _ <-. cbn [input]. lia.
  - (* the bracket of the next game *)
    injection Hread as <- _. congruence.
  - pose proof (length_takeUntil (fun c => Ascii.eqb c "}") r) as H1.
    destruct (takeUntil (fun c => Ascii.eqb c "}") r) as [text rest].
    cbn [snd] in H1. injection Hread as _ <-. cbn [input].
    destruct rest; simpl in *; lia.
  - pose proof (length_takeUntil (fun c => negb (isDigit c)) r) as H1.
    destruct (takeUntil (fun c => negb (isDigit c)) r) as [digits rest].
    cbn [snd] in H1. injection Hread as _ <-. cbn [input]. lia.
  - cbn [takeUntil] in Hread. unfold wordEnd in Hread at 1.
    rewrite Hc, Hbrace in Hread. cbn [orb] in Hread.
    pose proof (length_takeUntil wordEnd r) as H1.
    destruct (takeUntil wordEnd r) as [w rest]. cbn [snd] in H1.
    injection Hread as _ <-. cbn [input]. lia.
Qed.

End Stream.

(** *** The roster under the reader's tag updates *)

Lemma in_roster (k : string) : rosterContains k = true -> k ∈ roster.
Proof. unfold rosterContains. apply bool_decide_eq_true. Qed.

Lemma rosterAs_nonempty (orig tags : gmap string string) :
  rosterAs orig tags -> QMap.isEmpty tags = false.
Proof.
  intros Hr. unfold QMap.isEmpty. apply bool_decide_eq_false. intros Heq.
  assert (Hev : tags !! "Event" = Some (shown orig "Event"))
    by (apply Hr, in_roster; reflexivity).
  rewrite Heq, lookup_empty in Hev. discriminate.
Qed.

Lemma rosterAs_insert_other (orig tags : gmap string string) k v :
  k ∉ roster -> rosterAs orig tags -> rosterAs orig (<[k := v]> tags).
Proof.
  intros Hk Hr tag Htag. rewrite lookup_insert_ne; [apply Hr, Htag |].
  intros ->. contradiction.
Qed.

Lemma rosterAs_delete_other (orig tags : gmap string string) k :
  k ∉ roster -> rosterAs orig tags -> rosterAs orig (delete k tags).
Proof.
  intros Hk Hr tag Htag. rewrite lookup_delete_ne; [apply Hr, Htag |].
  intros ->. contradiction.
Qed.

Lemma not_in_roster (k : string) :
  rosterContains k = false -> k ∉ roster.
Proof. unfold rosterContains. apply bool_decide_eq_false. Qed.

Section Reader.
Context {EcoNode : Type} `{EcoCatalogue EcoNode}.
Context {Board Move : Type} `{PgnBoard Board Move}.
Implicit Types (s : PgnStream.t Board) (g : PgnGame.t EcoNode).

Lemma rosterAs_setTag orig g k v :
  k ∉ roster -> rosterAs orig (m_tags g) ->
  rosterAs orig (m_tags (setTag g k v)).
Proof.
  intros Hk Hr. unfold setTag.
  destruct (isEmpty v); cbn [with_tags m_tags].
  - apply rosterAs_delete_other; assumption.
  - apply rosterAs_insert_other; assumption.
Qed.

Lemma addMove_moves g md : m_moves (addMove g md) = (m_moves g ++ [md])%list.
Proof.
  unfold addMove. cbn [m_eco m_tags m_moves m_startingSide].
  repeat match goal with
         | |- context [match ?o with Some _ => _ | None => _ end] =>
             destruct o
         | |- context [if ?b then _ else _] => destruct b
         end; unfold setTag;
    repeat match goal with
           | |- context [if ?b then _ else _] => destruct b
           end; reflexivity.
Qed.

Lemma addMove_roster orig g md :
  rosterAs orig (m_tags g) -> rosterAs orig (m_tags (addMove g md)).
Proof.
  intros Hr. unfold addMove. cbn [m_eco m_tags m_moves m_startingSide].
  repeat match goal with
         | |- context [match ?o with Some _ => _ | None => _ end] =>
             destruct o
         | |- context [if ?b then _ else _] => destruct b
         end; try exact Hr.
  repeat apply rosterAs_setTag; try (apply not_in_roster; reflexivity).
  exact Hr.
Qed.

Lemma appendComment_fields g text :
  m_tags (appendComment g text) = m_tags g
  /\ map moveString (m_moves (appendComment g text))
     = map moveString (m_moves g)
  /\ length (m_moves (appendComment g text)) = length (m_moves g).
Proof.
  unfold appendComment.
  destruct (List.rev (m_moves g)) as [|lastMove before] eqn:Hrev;
    [auto |].
  cbn [m_tags m_moves].
  assert (Hm : m_moves g = (List.rev before ++ [lastMove])%list).
  { rewrite <- (rev_involutive (m_moves g)), Hrev. reflexivity. }
  rewrite Hm, !map_app, !length_app. auto.
Qed.

Lemma setUpPosition_roster orig (b : Board) (tags : gmap string string) :
  rosterAs orig tags -> rosterAs orig (snd (setUpPosition b tags)).
Proof.
  intros Hr. unfold setUpPosition.
  repeat match goal with
         | |- context [match ?o with Some _ => _ | None => _ end] =>
             destruct o
         | |- context [if ?b then _ else _] => destruct b
         end; cbn [snd]; try exact Hr;
    apply rosterAs_insert_other; try exact Hr;
    apply not_in_roster; reflexivity.
Qed.

(** [parseMove] on a move the board takes. *)
Lemma parseMove_ok orig s g (san : string) (strs : list string) :
  tokenString s = san ->
  rosterAs orig (m_tags g) ->
  (match m_moves g with
   | [] => readable (board s) (m_tags g) (san :: strs)
   | _ => playable (board s) (san :: strs)
   end) = true ->
  exists b' g',
    parseMove s g = (true, with_board s b', g')
    /\ rosterAs orig (m_tags g')
    /\ map moveString (m_moves g') = (map moveString (m_moves g) ++ [san])%list
    /\ length (m_moves g') = S (length (m_moves g))
    /\ playable b' strs = true.
Proof.
  intros Htok Hr Hplay. unfold parseMove.
  rewrite (rosterAs_nonempty _ _ Hr).
  destruct (m_moves g) as [|m0 ms] eqn:Hmoves.
  - unfold readable in Hplay. unfold firstMoveSetup.
    pose proof (setUpPosition_roster orig (board s) (m_tags g) Hr) as Hr'.
    destruct (setUpPosition (board s) (m_tags g)) as [[ok b1] tags1].
    cbn [snd] in Hr'.
    apply andb_true_iff in Hplay as [-> Hplay].
    cbn [negb with_board board tokenString]. rewrite Htok.
    cbn [playable] in Hplay.
    destruct (moveFromString b1 san) as [move|]; [| discriminate].
    eexists. eexists. split; [reflexivity |].
    rewrite addMove_moves. cbn [m_moves].
    split; [apply addMove_roster; exact Hr' |].
    rewrite Hmoves. auto.
  - cbn [negb]. rewrite Htok. cbn [playable] in Hplay.
    destruct (moveFromString (board s) san) as [move|]; [| discriminate].
    eexists. eexists. split; [reflexivity |].
    rewrite addMove_moves.
    split; [apply addMove_roster; exact Hr |].
    rewrite Hmoves, map_app, length_app. cbn [map length].
    split; [reflexivity |]. split; [lia | exact Hplay].
Qed.

(** *** The loop of [read], token by token *)

Lemma writeMoves_stopsAt mode res (moves : list MoveData) i ll mn side :
  stopsAt wordEnd (writeMoves mode res moves i ll mn side).
Proof.
  destruct moves as [|data rest]; cbn [writeMoves];
    match goal with
    | |- context [if ?b then _ else _] => destruct b
    end; reflexivity.
Qed.

Variable maxMoves : Z.

Lemma readLoop_advance (fuel : nat) s g s' g' :
  status s = Ok ->
  readToken maxMoves s g = (false, s', g') ->
  (String.length (input s') < String.length (input s))%nat ->
  (String.length (input s) < fuel)%nat ->
  exists fuel',
    readLoop fuel maxMoves s g = readLoop fuel' maxMoves s' g'
    /\ (String.length (input s') < fuel')%nat.
Proof.
  intros Hst Htok Hlen Hfuel.
  destruct fuel as [|fuel]; [lia |].
  exists fuel. cbn [readLoop]. rewrite Hst, Htok. split; [reflexivity | lia].
Qed.

Lemma readLoop_stop (fuel : nat) s g s' g' :
  status s = Ok ->
  readToken maxMoves s g = (true, s', g') ->
  (String.length (input s) < fuel)%nat ->
  readLoop fuel maxMoves s g = (s', g').
Proof.
  intros Hst Htok Hfuel.
  destruct fuel as [|fuel]; [lia |].
  cbn [readLoop]. rewrite Hst, Htok. reflexivity.
Qed.

Lemma parseMove_input s g :
  input (snd (fst (parseMove s g))) = input s.
Proof.
  unfold parseMove, firstMoveSetup.
  destruct (QMap.isEmpty (m_tags g)); [reflexivity |].
  destruct (m_moves g).
  - destruct (setUpPosition (board s) (m_tags g)) as [[ok b] tags].
    destruct ok; cbn [negb]; [| reflexivity].
    match goal with
    | |- context [match ?o with Some _ => _ | None => _ end] => destruct o
    end; reflexivity.
  - cbn [negb].
    match goal with
    | |- context [match ?o with Some _ => _ | None => _ end] => destruct o
    end; reflexivity.
Qed.

(** A turn of the loop that does not stop has read something. *)
Lemma readToken_shrinks s g s' g' :
  readToken maxMoves s g = (false, s', g') ->
  (String.length (input s') < String.length (input s))%nat.
Proof.
  unfold readToken.
  destruct (readNext s) as [token s1] eqn:Hnext.
  pose proof (readNext_shrinks s token s1 Hnext) as Hshrink.
  destruct token; try discriminate;
    try (intros Heq; injection Heq as <- _; apply Hshrink; discriminate).
  pose proof (parseMove_input s1 g) as Hsame.
  destruct (parseMove s1 g) as [[ok s2] g2]. cbn [fst snd] in Hsame.
  intros Heq. injection Heq as _ <- _. rewrite Hsame.
  apply Hshrink. discriminate.
Qed.

(** The loop of [read] does not depend on its fuel once the fuel
    exceeds the length of the text: the loop ends by a token or by
    the stream's status, never for lack of fuel. *)
Lemma readLoop_enough_fuel (fuel1 : nat) :
  forall (fuel2 : nat) s g,
    (String.length (input s) < fuel1)%nat ->
    (String.length (input s) < fuel2)%nat ->
    readLoop fuel1 maxMoves s g = readLoop fuel2 maxMoves s g.
Proof.
  induction fuel1 as [|fuel1 IH]; intros fuel2 s g H1 H2; [lia |].
  destruct fuel2 as [|fuel2]; [lia |].
  cbn [readLoop]. destruct (status s); [| reflexivity].
  destruct (readToken maxMoves s g) as [[stop s'] g'] eqn:Htok.
  destruct stop; [reflexivity |].
  pose proof (readToken_shrinks s g s' g' Htok) as Hshrink.
  apply IH; lia.
Qed.

(** A move number is skipped. *)
Lemma readToken_number s g (ws rest : string) (n : Z) :
  input s = ws ++ (QString_number n ++ ". ") ++ rest ->
  allChars isSpace ws = true ->
  phase s <> OutOfGame ->
  0 < n ->
  exists s',
    readToken maxMoves s g = (false, s', g)
    /\ input s' = " " ++ rest /\ status s' = Ok /\ phase s' = InGame
    /\ board s' = board s.
Proof.
  intros Hin Hws Hph Hn.
  destruct (classify_number n Hn) as (c & w & Heq & Hcl & Hstart & Hword).
  assert (Hin' : input s = ws ++ String c w ++ (" " ++ rest)).
  { rewrite Hin, <- Heq. strnorm. reflexivity. }
  eexists. unfold readToken.
  rewrite (readNext_word s ws c w (" " ++ rest) Hin' Hws Hph Hstart Hword);
    [| reflexivity].
  rewrite Hcl. repeat split.
Qed.

(** A comment joins the last move. *)
Lemma readToken_comment s g (ws text rest : string) :
  input s = ws ++ ("{" ++ text ++ "}") ++ rest ->
  allChars isSpace ws = true ->
  phase s <> OutOfGame ->
  commentOk text = true ->
  exists s',
    readToken maxMoves s g = (false, s', appendComment g text)
    /\ input s' = rest /\ status s' = Ok /\ phase s' = InGame
    /\ board s' = board s.
Proof.
  intros Hin Hws Hph Hok.
  assert (Hin' : input s = ws ++ "{" ++ text ++ "}" ++ rest).
  { rewrite Hin. strnorm. reflexivity. }
  eexists. unfold readToken.
  rewrite (readNext_comment s ws text rest Hin' Hws Hph Hok).
  repeat split.
Qed.

(** A move the board takes is recorded. *)
Lemma readToken_move orig s g (ws san rest : string) (strs : list string) :
  input s = ws ++ san ++ rest ->
  allChars isSpace ws = true ->
  phase s <> OutOfGame ->
  sanOk san = true ->
  stopsAt wordEnd rest ->
  rosterAs orig (m_tags g) ->
  Z.of_nat (S (length (m_moves g))) < maxMoves ->
  (match m_moves g with
   | [] => readable (board s) (m_tags g) (san :: strs)
   | _ => playable (board s) (san :: strs)
   end) = true ->
  exists s' g',
    readToken maxMoves s g = (false, s', g')
    /\ input s' = rest /\ status s' = Ok /\ phase s' = InGame
    /\ rosterAs orig (m_tags g')
    /\ map moveString (m_moves g')
       = (map moveString (m_moves g) ++ [san])%list
    /\ length (m_moves g') = S (length (m_moves g))
    /\ playable (board s') strs = true.
Proof.
  intros Hin Hws Hph Hsan Hrest Hr Hmax Hplay.
  destruct (classify_san san Hsan) as (Hcl & c & w & -> & Hstart & Hword).
  unfold readToken.
  rewrite (readNext_word s ws c w rest Hin Hws Hph Hstart Hword Hrest).
  rewrite Hcl.
  set (s1 := PgnStream.mk rest (board s) Ok InGame (String c w) (tagName s)
                          (tagValue s)).
  destruct (parseMove_ok orig s1 g (String c w) strs eq_refl Hr Hplay)
    as (b' & g' & Hparse & Hr' & Hmoves & Hlen & Hplay').
  rewrite Hparse. exists (with_board s1 b'), g'.
  rewrite Hlen.
  replace (maxMoves <=? Z.of_nat (S (length (m_moves g)))) with false
    by (symmetry; apply Z.leb_gt; exact Hmax).
  repeat split; assumption.
Qed.

(** The tokens of one move: its number when it has one, the move,
    its comment when it is written. *)
Lemma readLoop_one_move orig mode (data : MoveData) (numbered : bool)
    (movenum : Z) (next : string) (strs : list string)
    (fuel : nat) s g (ws : string) :
  input s = ws ++ moveToken mode numbered movenum data ++ next ->
  allChars isSpace ws = true ->
  status s = Ok ->
  phase s <> OutOfGame ->
  (numbered = true -> 0 < movenum) ->
  sanOk (moveString data) = true ->
  (mode = Verbose -> commentOk (comment data) = true) ->
  stopsAt wordEnd next ->
  rosterAs orig (m_tags g) ->
  (String.length (input s) < fuel)%nat ->
  Z.of_nat (S (length (m_moves g))) < maxMoves ->
  (match m_moves g with
   | [] => readable (board s) (m_tags g) (moveString data :: strs)
   | _ => playable (board s) (moveString data :: strs)
   end) = true ->
  exists fuel' s' g',
    readLoop fuel maxMoves s g = readLoop fuel' maxMoves s' g'
    /\ input s' = next /\ status s' = Ok /\ phase s' = InGame
    /\ (String.length (input s') < fuel')%nat
    /\ rosterAs orig (m_tags g')
    /\ map moveString (m_moves g')
       = (map moveString (m_moves g) ++ [moveString data])%list
    /\ length (m_moves g') = S (length (m_moves g))
    /\ playable (board s') strs = true.
Proof.
  intros Hin Hws Hst Hph Hnum Hsan Hcmt Hnext Hr Hfuel Hmax Hplay.
  unfold moveToken in Hin.
  (* the move number *)
  assert (Hafter_number :
    exists fuel1 s1 ws1,
      readLoop fuel maxMoves s g = readLoop fuel1 maxMoves s1 g
      /\ input s1
         = ws1 ++ moveString data
           ++ (if bool_decide (mode = Verbose)
                  && negb (isEmpty (comment data))
               then " {" ++ comment data ++ "}" else "")
           ++ next
      /\ allChars isSpace ws1 = true
      /\ status s1 = Ok /\ phase s1 <> OutOfGame
      /\ board s1 = board s
      /\ (String.length (input s1) < fuel1)%nat).
  { destruct numbered.
    - destruct (readToken_number s g ws
                  (moveString data
                   ++ (if bool_decide (mode = Verbose)
                          && negb (isEmpty (comment data))
                       then " {" ++ comment data ++ "}" else "")
                   ++ next) movenum)
        as (s1 & Htok & Hin1 & Hst1 & Hph1 & Hb1);
        [rewrite Hin; strnorm; reflexivity | assumption | assumption
        | apply Hnum; reflexivity |].
      destruct (readLoop_advance fuel s g s1 g Hst Htok) as (fuel1 & Hloop & Hf1);
        [| exact Hfuel |].
      { rewrite Hin1, Hin, !length_append. simpl. lia. }
      exists fuel1, s1, " ". rewrite Hph1.
      repeat split; try assumption; congruence.
    - exists fuel, s, ws. rewrite append_nil_l in Hin.
      rewrite append_assoc in Hin.
      repeat split; assumption. }
  destruct Hafter_number
    as (fuel1 & s1 & ws1 & Hloop1 & Hin1 & Hws1 & Hst1 & Hph1 & Hb1 & Hf1).
  rewrite <- Hb1 in Hplay.
  (* the move *)
  set (cmt := if bool_decide (mode = Verbose)
                 && negb (isEmpty (comment data))
              then " {" ++ comment data ++ "}" else "") in *.
  assert (Hstop : stopsAt wordEnd (cmt ++ next)).
  { subst cmt. destruct (bool_decide (mode = Verbose)
                         && negb (isEmpty (comment data)));
      [reflexivity | exact Hnext]. }
  destruct (readToken_move orig s1 g ws1 (moveString data) (cmt ++ next) strs
              Hin1 Hws1 Hph1 Hsan Hstop Hr Hmax Hplay)
    as (s2 & g2 & Htok2 & Hin2 & Hst2 & Hph2 & Hr2 & Hm2 & Hl2 & Hp2).
  destruct (readLoop_advance fuel1 s1 g s2 g2 Hst1 Htok2)
    as (fuel2 & Hloop2 & Hf2); [| exact Hf1 |].
  { rewrite Hin2, Hin1, !length_append.
    destruct (moveString data); [discriminate | simpl; lia]. }
  (* the comment *)
  subst cmt.
  destruct (bool_decide (mode = Verbose) && negb (isEmpty (comment data)))
    eqn:Hverbose.
  - apply andb_true_iff in Hverbose as [Hmode _].
    apply bool_decide_eq_true in Hmode.
    destruct (readToken_comment s2 g2 " " (comment data) next)
      as (s3 & Htok3 & Hin3 & Hst3 & Hph3 & Hb3);
      [rewrite Hin2; strnorm; reflexivity | reflexivity | congruence
      | apply Hcmt, Hmode |].
    destruct (readLoop_advance fuel2 s2 g2 s3 _ Hst2 Htok3)
      as (fuel3 & Hloop3 & Hf3); [| exact Hf2 |].
    { rewrite Hin3, Hin2, !length_append. simpl. lia. }
    destruct (appendComment_fields g2 (comment data)) as (Ht & Hms & Hlen).
    exists fuel3, s3, (appendComment g2 (comment data)).
    rewrite Hloop1, Hloop2, Hloop3, Ht, Hms, Hlen, Hb3.
    repeat split; assumption.
  - rewrite append_nil_l in Hin2.
    exists fuel2, s2, g2. rewrite Hloop1, Hloop2.
    repeat split; assumption.
Qed.

(** The termination marker, or the end of the text without one. *)
Lemma readLoop_marker orig (res : string) (fuel : nat) s g (ws : string) :
  input s = ws ++ res ++ nl ++ nl ->
  allChars isSpace ws = true ->
  status s = Ok ->
  phase s <> OutOfGame ->
  resultOk res = true ->
  (res <> "" -> shown orig "Result" = res) ->
  rosterAs orig (m_tags g) ->
  (String.length (input s) < fuel)%nat ->
  exists s' g',
    readLoop fuel maxMoves s g = (s', g')
    /\ rosterAs orig (m_tags g')
    /\ m_moves g' = m_moves g.
Proof.
  intros Hin Hws Hst Hph Hres Hshown Hr Hfuel.
  destruct (isEmpty res) eqn:Hempty.
  - apply isEmpty_true in Hempty. subst res.
    exists (atEnd s), g.
    split; [| split; [exact Hr | reflexivity]].
    apply readLoop_stop; [exact Hst | | exact Hfuel].
    unfold readToken. rewrite readNext_end; [reflexivity | | exact Hph].
    rewrite Hin, allChars_app, Hws. reflexivity.
  - apply isEmpty_false in Hempty.
    destruct (classify_result res Hres Hempty)
      as (c & w & -> & Hcl & Hstart & Hword).
    eexists. eexists.
    split; [| split].
    + apply readLoop_stop; [exact Hst | | exact Hfuel].
      unfold readToken.
      rewrite (readNext_word s ws c w (nl ++ nl) Hin Hws Hph Hstart Hword);
        [| reflexivity].
      rewrite Hcl. reflexivity.
    + cbn [with_tags m_tags tokenString].
      intros tag Htag.
      destruct (decide (tag = "Result")) as [-> | Hne].
      * rewrite lookup_insert_eq, (Hshown Hempty). reflexivity.
      * rewrite lookup_insert_ne by congruence. apply Hr, Htag.
    + reflexivity.
Qed.

(** The move loop of [write], read back. *)
Lemma readLoop_movetext orig mode (res : string) (moves : list MoveData) :
  resultOk res = true ->
  (res <> "" -> shown orig "Result" = res) ->
  Forall (fun data => sanOk (moveString data) = true) moves ->
  (mode = Verbose ->
   Forall (fun data => commentOk (comment data) = true) moves) ->
  forall (i lineLength movenum side : Z) (fuel : nat) s g (ws : string),
    input s = ws ++ writeMoves mode res moves i lineLength movenum side ->
    allChars isSpace ws = true ->
    status s = Ok ->
    phase s <> OutOfGame ->
    0 <= movenum ->
    rosterAs orig (m_tags g) ->
    (String.length (input s) < fuel)%nat ->
    Z.of_nat (length (m_moves g) + length moves) < maxMoves ->
    (match m_moves g with
     | [] => readable (board s) (m_tags g) (map moveString moves)
     | _ => playable (board s) (map moveString moves)
     end) = true ->
    exists s' g',
      readLoop fuel maxMoves s g = (s', g')
      /\ rosterAs orig (m_tags g')
      /\ map moveString (m_moves g')
         = (map moveString (m_moves g) ++ map moveString moves)%list.
Proof.
  intros Hres Hshown Hsans Hcmts.
  induction moves as [|data rest IH];
    intros i lineLength movenum side fuel s g ws
           Hin Hws Hst Hph Hmn Hr Hfuel Hmax Hplay.
  - cbn [writeMoves] in Hin.
    assert (Hin' : exists ws', input s = ws' ++ res ++ nl ++ nl
                               /\ allChars isSpace ws' = true).
    { destruct (80 <=? lineLength + size res).
      - exists (ws ++ nl). rewrite Hin, allChars_app, Hws.
        split; [strnorm; reflexivity | reflexivity].
      - exists (ws ++ " "). rewrite Hin, allChars_app, Hws.
        split; [strnorm; reflexivity | reflexivity]. }
    destruct Hin' as (ws' & Hin' & Hws').
    destruct (readLoop_marker orig res fuel s g ws' Hin' Hws' Hst Hph Hres
                Hshown Hr Hfuel) as (s' & g' & Hloop & Hr' & Hm').
    exists s', g'. rewrite Hm', app_nil_r. auto.
  - cbn [writeMoves] in Hin. cbn [map] in Hplay.
    apply Forall_cons_1 in Hsans as [Hsan Hsans].
    assert (Hcmt : mode = Verbose -> commentOk (comment data) = true).
    { intros Hv. specialize (Hcmts Hv).
      apply Forall_cons_1 in Hcmts as [Hc _]. exact Hc. }
    assert (Hcmts' : mode = Verbose ->
                     Forall (fun d => commentOk (comment d) = true) rest).
    { intros Hv. specialize (Hcmts Hv).
      apply Forall_cons_1 in Hcmts as [_ Hc]. exact Hc. }
    specialize (IH Hsans Hcmts').
    set (numbered := (side =? Z.of_nat (sideIndex White)) || (i =? 0)) in *.
    set (movenum' := if numbered then movenum + 1 else movenum) in *.
    set (str := moveToken mode numbered movenum' data) in *.
    set (side' := if side =? 0 then 1 else 0) in *.
    assert (Hin' :
      exists ws' lineLength',
        input s = ws' ++ str
                  ++ writeMoves mode res rest (i + 1) lineLength' movenum' side'
        /\ allChars isSpace ws' = true).
    { destruct ((lineLength =? 0) || (80 <=? lineLength + size str)).
      - exists (ws ++ nl), (size str). rewrite Hin, allChars_app, Hws.
        split; [strnorm; reflexivity | reflexivity].
      - exists (ws ++ " "), (lineLength + (size str + 1)).
        rewrite Hin, allChars_app, Hws.
        split; [strnorm; reflexivity | reflexivity]. }
    destruct Hin' as (ws' & lineLength' & Hin' & Hws').
    assert (Hmn' : 0 <= movenum') by (subst movenum'; destruct numbered; lia).
    destruct (readLoop_one_move orig mode data numbered movenum'
                (writeMoves mode res rest (i + 1) lineLength' movenum' side')
                (map moveString rest) fuel s g ws' Hin' Hws' Hst Hph)
      as (fuel1 & s1 & g1 & Hloop1 & Hin1 & Hst1 & Hph1 & Hf1 & Hr1 & Hm1
          & Hl1 & Hp1);
      try assumption.
    { intros Hn. subst movenum'. rewrite Hn. lia. }
    { apply writeMoves_stopsAt. }
    { cbn [length] in Hmax. lia. }
    assert (Hin1' : input s1
              = "" ++ writeMoves mode res rest (i + 1) lineLength' movenum'
                        side') by (rewrite Hin1; reflexivity).
    assert (Hph1' : phase s1 <> OutOfGame) by congruence.
    assert (Hmax1 : Z.of_nat (length (m_moves g1) + length rest) < maxMoves)
      by (rewrite Hl1; cbn [length] in Hmax; lia).
    assert (Hp1' : (match m_moves g1 with
                    | [] => readable (board s1) (m_tags g1)
                                     (map moveString rest)
                    | _ => playable (board s1) (map moveString rest)
                    end) = true)
      by (destruct (m_moves g1); [discriminate | exact Hp1]).
    destruct (IH (i + 1) lineLength' movenum' side' fuel1 s1 g1 ""
                 Hin1' eq_refl Hst1 Hph1' Hmn' Hr1 Hf1 Hmax1 Hp1')
      as (s' & g' & Hloop & Hr' & Hm').
    exists s', g'. rewrite Hloop1, Hloop, Hm', Hm1, <- app_assoc.
    auto.
Qed.

(** The tag section, read back pair by pair. *)
Lemma readLoop_tags (pairs : list (string * string)) :
  forallb tagOk pairs = true ->
  forall (fuel : nat) s g (ws rest : string),
    input s = ws ++ tagLines pairs ++ rest ->
    allChars isSpace ws = true ->
    status s = Ok ->
    phase s = InTags ->
    (String.length (input s) < fuel)%nat ->
    exists fuel' s' ws',
      readLoop fuel maxMoves s g
      = readLoop fuel' maxMoves s'
          (with_tags g
             (fold_left (fun acc kv => <[fst kv := snd kv]> acc) pairs
                        (m_tags g)))
      /\ input s' = ws' ++ rest
      /\ allChars isSpace ws' = true
      /\ status s' = Ok /\ phase s' = InTags /\ board s' = board s
      /\ (String.length (input s') < fuel')%nat.
Proof.
  induction pairs as [|[name value] pairs IH];
    intros Hok fuel s g ws rest Hin Hws Hst Hph Hfuel.
  - exists fuel, s, ws. cbn [fold_left tagLines fold_right] in *.
    rewrite append_nil_l in Hin.
    destruct g. repeat split; assumption.
  - cbn [forallb] in Hok. apply andb_true_iff in Hok as [Hok1 Hok].
    cbn [tagLines fold_right fst snd] in Hin.
    fold (tagLines pairs) in Hin.
    assert (Hin1 : input s = ws ++ tagLine name value
                             ++ (tagLines pairs ++ rest))
      by (rewrite Hin; rewrite !append_assoc; reflexivity).
    pose proof (readNext_tag s ws name value (tagLines pairs ++ rest)
                  Hin1 Hws Hph Hok1) as Hnext.
    set (s1 := PgnStream.mk (nl ++ tagLines pairs ++ rest) (board s) Ok InTags
                            "" name value) in *.
    assert (Htok : readToken maxMoves s g
                   = (false, s1, with_tags g (<[name := value]> (m_tags g))))
      by (unfold readToken; rewrite Hnext; reflexivity).
    destruct (readLoop_advance fuel s g s1 _ Hst Htok) as (fuel1 & Hloop1 & Hf1);
      [| exact Hfuel |].
    { subst s1. cbn [input]. rewrite Hin1. unfold tagLine.
      rewrite !length_append. simpl. lia. }
    destruct (IH Hok fuel1 s1 (with_tags g (<[name := value]> (m_tags g)))
                 nl rest eq_refl eq_refl eq_refl eq_refl Hf1)
      as (fuel2 & s2 & ws2 & Hloop2 & Hin2 & Hws2 & Hst2 & Hph2 & Hb2 & Hf2).
    exists fuel2, s2, ws2. rewrite Hloop1, Hloop2.
    cbn [fold_left fst snd with_tags m_tags m_startingSide m_eco m_moves] in *.
    repeat split; assumption.
Qed.

End Reader.

(** *** What [write] emits as tags *)

Lemma tagLines_app (a b : list (string * string)) :
  tagLines (a ++ b) = tagLines a ++ tagLines b.
Proof.
  induction a as [|kv a IH]; [reflexivity |].
  cbn [app tagLines fold_right]. fold (tagLines (a ++ b)). fold (tagLines a).
  rewrite IH, append_assoc. reflexivity.
Qed.

Lemma writeTag_nonempty (k v : string) :
  isEmpty v = false -> writeTag k v = tagLine k v.
Proof. intros Hv. unfold writeTag. rewrite Hv. reflexivity. Qed.

Lemma write_supplementary (l : list (string * string)) :
  fold_right (fun kv out => writeTag (fst kv) (snd kv) ++ out) ""
    (List.filter (fun kv => negb (rosterContains (fst kv))
                            && negb (isEmpty (snd kv))) l)
  = tagLines
      (List.filter (fun kv => negb (rosterContains (fst kv))
                              && negb (isEmpty (snd kv))) l).
Proof.
  induction l as [|[k v] l IH]; [reflexivity |].
  cbn [List.filter fst snd].
  destruct (negb (rosterContains k) && negb (isEmpty v)) eqn:Hkeep;
    [| exact IH].
  apply andb_true_iff in Hkeep as [_ Hv]. apply negb_true_iff in Hv.
  cbn [fold_right tagLines fst snd].
  rewrite IH, (writeTag_nonempty k v Hv). reflexivity.
Qed.

Lemma write_tags_text (mode : PgnMode) (tags : gmap string string) :
  writeRoster tags ++ writeOtherTags mode tags
  = tagLines (writtenTags mode tags).
Proof.
  unfold writtenTags. rewrite tagLines_app. f_equal.
  - unfold writeRoster, roster. cbn [fold_right map tagLines fst snd].
    rewrite !PgnWriteProofs.writeTag_shown. reflexivity.
  - destruct mode; cbn [writeOtherTags].
    + destruct (QMap.contains tags "FEN"); [| reflexivity].
      cbn [tagLines fold_right fst snd].
      rewrite !PgnWriteProofs.writeTag_shown, append_nil_r. reflexivity.
    + apply write_supplementary.
Qed.

(** *** The tags a reader ends up with *)

Lemma fold_insert_other (pairs : list (string * string)) :
  forall (m : gmap string string) (k : string),
    ~ In k (map fst pairs) ->
    fold_left (fun acc kv => <[fst kv := snd kv]> acc) pairs m !! k = m !! k.
Proof.
  induction pairs as [|[k0 v0] pairs IH]; intros m k Hk; [reflexivity |].
  cbn [fold_left fst snd map In] in *.
  rewrite IH by tauto. apply lookup_insert_ne. tauto.
Qed.

Lemma supplementary_not_roster (tags : gmap string string) (k : string) :
  In k (map fst (supplementaryTags tags)) -> k ∉ roster.
Proof.
  intros Hin. apply in_map_iff in Hin as ([k' v] & Hk & Hin).
  cbn [fst] in Hk. subst k'.
  unfold supplementaryTags in Hin. apply filter_In in Hin as [_ Hkeep].
  apply andb_true_iff in Hkeep as [Hk _]. apply negb_true_iff in Hk.
  apply not_in_roster, Hk.
Qed.

Lemma tagsRead_roster (mode : PgnMode) (tags : gmap string string) :
  rosterAs tags (tagsRead mode tags).
Proof.
  intros tag Htag. unfold tagsRead, writtenTags.
  rewrite fold_left_app, fold_insert_other.
  - unfold roster in *. cbn [map fold_left fst snd].
    repeat (apply elem_of_cons in Htag as [-> | Htag]);
      [..| apply elem_of_nil in Htag; contradiction];
      repeat (rewrite lookup_insert_ne by discriminate);
      apply lookup_insert_eq.
  - intros Hin. destruct mode.
    + destruct (QMap.contains tags "FEN"); [| contradiction].
      cbn [map fst In] in Hin.
      destruct Hin as [<- | [<- | []]];
        revert Htag; apply not_in_roster; reflexivity.
    + apply supplementary_not_roster in Hin. contradiction.
Qed.

Lemma shown_value (tags : gmap string string) (tag : string) :
  QMap.value tags tag <> "" -> shown tags tag = QMap.value tags tag.
Proof.
  unfold shown, QMap.value.
  destruct (tags !! tag) as [[|c v]|]; cbn; congruence.
Qed.

(** *** Writing, then reading *)

(** C6, refuted as stated, on the game of scenario 5 (tags Event,
    Site, White, Black, Result and three moves; no Date, no Round):
    written and read back, the game has its three moves and its five
    roster values, but the Date and the Round, which it did not have,
    now read "?": [write] prints the question mark for a missing
    roster tag and [read] takes it for the value. *)
Lemma write_read_counterexample :
  let text := write "" Games.scenario5 Minimal in
  let '(ok, _, g') := read (PgnStream.open text 0%nat) PgnGame.new 1000 in
  ok = true
  /\ map moveString (m_moves g') = ["e4"; "e5"; "Nf3"]
  /\ PgnGame.tagValue g' "Event" = "Test"
  /\ PgnGame.tagValue Games.scenario5 "Date" = ""
  /\ PgnGame.tagValue g' "Date" = "?"
  /\ PgnGame.tagValue Games.scenario5 "Round" = ""
  /\ PgnGame.tagValue g' "Round" = "?".
Proof. vm_compute. repeat split; reflexivity. Qed.

Section Roundtrip.
Context {EcoNode : Type} `{EcoCatalogue EcoNode}.
Context {Board Move : Type} `{PgnBoard Board Move}.

(** C6, as amended: take a game that is written (its tag map is not
    empty) and is well formed for the format: no written tag name
    holds white space and no written tag value a quote, every move
    string starts with a letter and holds neither white space nor an
    opening brace, no comment written ([Verbose]) holds a closing
    brace, and the Result tag is empty or one of 1-0, 0-1, 1/2-1/2,
    *.  Let the reader's board take the moves from the position the
    written tags set up, and let there be fewer moves than
    [maxMoves].  Then reading the written text succeeds, every roster
    tag reads as it was written (its value, or "?" if the game had
    none), and the move strings read are the game's, in order. *)
Theorem write_read_roundtrip (g g0 : PgnGame.t EcoNode) (mode : PgnMode)
    (b0 : Board) (maxMoves : Z) :
  m_tags g <> ∅ ->
  forallb tagOk (writtenTags mode (m_tags g)) = true ->
  forallb (fun data => sanOk (moveString data)) (m_moves g) = true ->
  (mode = Verbose ->
   forallb (fun data => commentOk (comment data)) (m_moves g) = true) ->
  resultOk (QMap.value (m_tags g) "Result") = true ->
  readable b0 (tagsRead mode (m_tags g)) (map moveString (m_moves g)) = true ->
  Z.of_nat (length (m_moves g)) < maxMoves ->
  exists s' g',
    read (PgnStream.open (write "" g mode) b0) g0 maxMoves = (true, s', g')
    /\ (forall tag, tag ∈ roster -> PgnGame.tagValue g' tag = shown (m_tags g) tag)
    /\ map moveString (m_moves g') = map moveString (m_moves g).
Proof.
  intros Hne Htags Hsans Hcmts Hres Hread Hmax.
  assert (Htext : write "" g mode
                  = tagLines (writtenTags mode (m_tags g))
                    ++ writeMovetext g mode).
  { unfold write. rewrite (PgnWriteProofs.QMap_isEmpty_false _ Hne).
    rewrite append_nil_l, <- append_assoc, write_tags_text. reflexivity. }
  assert (Hstart : exists rest,
             tagLines (writtenTags mode (m_tags g)) = String "[" rest).
  { unfold writtenTags, roster. cbn [map app tagLines fold_right fst].
    unfold tagLine at 1. eexists. strnorm. reflexivity. }
  destruct Hstart as (rest0 & Hstart).
  unfold read. rewrite Htext.
  unfold nextGame, PgnStream.open. cbn [input board].
  rewrite Hstart, append_cons. cbn [takeUntil Ascii.eqb Bool.eqb].
  cbn [negb]. rewrite <- append_cons, <- Hstart.
  set (text := tagLines (writtenTags mode (m_tags g)) ++ writeMovetext g mode).
  set (s1 := PgnStream.mk text b0 Ok InTags "" "" "").
  (* the tags *)
  destruct (readLoop_tags maxMoves (writtenTags mode (m_tags g)) Htags
              (S (String.length (input s1))) s1 (clear g0) ""
              (writeMovetext g mode) eq_refl eq_refl eq_refl eq_refl
              ltac:(lia))
    as (fuel2 & s2 & ws2 & Hloop2 & Hin2 & Hws2 & Hst2 & Hph2 & Hb2 & Hf2).
  cbn [input] in Hloop2. rewrite Hloop2.
  unfold clear in *. cbn [m_tags] in *.
  fold (tagsRead mode (m_tags g)) in *.
  set (g2 := with_tags (PgnGame.mk NoSide eco_root ∅ [])
                       (tagsRead mode (m_tags g))) in *.
  (* the moves *)
  assert (Hsans' : Forall (fun data => sanOk (moveString data) = true)
                          (m_moves g))
    by (apply List.Forall_forall; intros d Hd;
        apply (proj1 (forallb_forall _ _) Hsans d Hd)).
  assert (Hcmts' : mode = Verbose ->
                   Forall (fun data => commentOk (comment data) = true)
                          (m_moves g)).
  { intros Hv. apply List.Forall_forall. intros d Hd.
    apply (proj1 (forallb_forall _ _) (Hcmts Hv) d Hd). }
  destruct (readLoop_movetext maxMoves (m_tags g) mode
              (QMap.value (m_tags g) "Result") (m_moves g) Hres
              (shown_value _ _) Hsans' Hcmts'
              0 0 0 (Z.of_nat (sideIndex (m_startingSide g)))
              fuel2 s2 g2 ws2)
    as (s3 & g3 & Hloop3 & Hr3 & Hm3).
  - exact Hin2.
  - exact Hws2.
  - exact Hst2.
  - congruence.
  - lia.
  - apply tagsRead_roster.
  - exact Hf2.
  - cbn [g2 with_tags m_moves length]. lia.
  - cbn [g2 with_tags m_moves m_tags]. rewrite Hb2. exact Hread.
  - rewrite Hloop3, (rosterAs_nonempty _ _ Hr3).
    eexists. eexists. split; [reflexivity |].
    split; [| exact Hm3].
    intros tag Htag. unfold PgnGame.tagValue, QMap.value. cbn [with_tags m_tags].
    rewrite lookup_insert_ne.
    + rewrite (Hr3 tag Htag). reflexivity.
    + intros <-. revert Htag. apply not_in_roster. reflexivity.
Qed.

End Roundtrip.

Lemma write_read_roundtrip_witness :
  m_tags Games.scenario5 <> ∅
  /\ exists s' g',
      read (PgnStream.open (write "" Games.scenario5 Verbose) 0%nat)
           PgnGame.new 1000
      = (true, s', g')
      /\ PgnGame.tagValue g' "White" = "A"
      /\ map moveString (m_moves g') = ["e4"; "e5"; "Nf3"].
Proof.
  assert (Hne : m_tags Games.scenario5 <> ∅).
  { intros Heq.
    assert (Hl : m_tags Games.scenario5 !! "Event" = Some "Test")
      by (vm_compute; reflexivity).
    rewrite Heq, lookup_empty in Hl. discriminate. }
  split; [exact Hne |].
  destruct (write_read_roundtrip Games.scenario5 PgnGame.new Verbose 0%nat
              1000 Hne)
    as (s' & g' & Hread & Hroster & Hmoves).
  - vm_compute. reflexivity.
  - vm_compute. reflexivity.
  - intros _. vm_compute. reflexivity.
  - vm_compute. reflexivity.
  - vm_compute. reflexivity.
  - vm_compute. reflexivity.
  - exists s', g'. split; [exact Hread |]. split; [| exact Hmoves].
    rewrite (Hroster "White"); [vm_compute; reflexivity |].
    apply in_roster. reflexivity.
Defined.

End PgnReadProofs.

(** ** GameAdjudicator: the resign rule, and what the rules never do *)

Module GameAdjudicatorRunsProofs.
Import Chess GameAdjudicator GameAdjudicatorProofs GameAdjudicatorRuns.
Local Open Scope Z_scope.

(** [addEval] never touches the resign thresholds either. *)
Lemma addEval_resign_config a board eval :
  let a' := addEval a board eval in
  m_resignMoveCount a' = m_resignMoveCount a
  /\ m_resignScore a' = m_resignScore a.
Proof.
  destruct a as [mn mc ds cnt rmc rs rc tb res].
  unfold addEval, drawRule, resignRule. fields.
  destruct tb; fields; branches; auto.
Qed.

Lemma addEvals_resign_config a calls :
  let a' := addEvals a calls in
  m_resignMoveCount a' = m_resignMoveCount a
  /\ m_resignScore a' = m_resignScore a.
Proof.
  induction calls as [|c calls IH] using rev_ind; [simpl; auto |].
  rewrite addEvals_snoc. cbv zeta in *.
  pose proof (addEval_resign_config (addEvals a calls) (fst c) (snd c)) as Hc.
  cbv zeta in Hc. intuition congruence.
Qed.

Lemma consecutiveHopeless_snoc rs side calls c :
  consecutiveHopeless rs side (calls ++ [c])
  = if bool_decide (evaluating c = side)
    then (if hopeless rs c then consecutiveHopeless rs side calls + 1 else 0)
    else consecutiveHopeless rs side calls.
Proof.
  unfold consecutiveHopeless, callsOf. rewrite List.filter_app. cbn [List.filter].
  destruct (bool_decide (evaluating c = side)).
  - rewrite rev_app_distr. simpl.
    destruct (hopeless rs c); simpl; lia.
  - rewrite app_nil_r. reflexivity.
Qed.

(** One call, with only the resign rule at work: the counter of the
    evaluating side goes up by one or back to zero, the other side's
    stays. *)
Lemma addEval_resignCount a board eval (s : Side) :
  m_tbEnabled a = false -> m_drawMoveNum a <= 0 -> 0 < m_resignMoveCount a ->
  sideToMove board <> NoSide -> s <> NoSide ->
  resignCount (addEval a board eval) s
  = if bool_decide (evaluating (board, eval) = s)
    then Some (if hopeless (m_resignScore a) (board, eval)
               then default 0 (resignCount a s) + 1 else 0)
    else resignCount a s.
Proof.
  destruct a as [mn mc ds cnt rmc rs [c0 c1] tb res]. fields.
  intros -> Hdraw Hres Hside Hs.
  apply Z.ltb_lt in Hres.
  assert (Hoff : (0 <? mn) = false) by (apply Z.ltb_ge; exact Hdraw).
  unfold resignCount, evaluating, hopeless, addEval, drawRule, resignRule.
  fields. rewrite Hoff. fields. try rewrite Hres. fields.
  destruct (depth eval <=? 0) eqn:Hd; fields.
  - assert (H : (0 <? depth eval) = false) by
      (apply Z.ltb_ge; apply Z.leb_le in Hd; lia).
    rewrite H. fields.
    destruct (sideToMove board), s; try congruence; reflexivity.
  - assert (H : (0 <? depth eval) = true) by
      (apply Z.ltb_lt; apply Z.leb_gt in Hd; lia).
    rewrite H. fields.
    destruct (sideToMove board), s; try congruence;
      cbn [opposite sideIndex array_get array_set fst snd from_option id bool_decide
           decide_rel Side_eq_dec Side_rec Side_rect];
      destruct (score eval <=? rs);
      match goal with
      | |- context [rmc <=? ?n] => destruct (rmc <=? n)
      end; reflexivity.
Qed.

(** Each counter is the length of the current run of hopeless
    evaluations of its side. *)
Lemma addEvals_resignCount a calls (s : Side) :
  m_tbEnabled a = false -> m_drawMoveNum a <= 0 -> 0 < m_resignMoveCount a ->
  m_resignScoreCount a = (0, 0) ->
  Forall (fun c => sideToMove (fst c) <> NoSide) calls ->
  s <> NoSide ->
  resignCount (addEvals a calls) s
  = Some (consecutiveHopeless (m_resignScore a) s calls).
Proof.
  intros Htb Hdraw Hres Hzero Hsides Hs.
  induction calls as [|c calls IH] using rev_ind.
  - unfold resignCount. cbn [addEvals fold_left]. rewrite Hzero.
    destruct s; try congruence; reflexivity.
  - apply Forall_app in Hsides as [Hsides Hc].
    apply Forall_cons_1 in Hc as [Hc _].
    specialize (IH Hsides).
    rewrite addEvals_snoc, consecutiveHopeless_snoc.
    pose proof (addEvals_config a calls) as (Hn & _ & _ & Ht).
    pose proof (addEvals_resign_config a calls) as (Hm & Hr).
    rewrite addEval_resignCount by congruence.
    rewrite Hr, IH. destruct c as [b e]. cbn [fst snd from_option id].
    destruct (bool_decide (evaluating (b, e) = s)); reflexivity.
Qed.

(** What a call does to the result when only the resign rule is at
    work. *)
Lemma addEval_resign_result a board eval :
  m_tbEnabled a = false -> m_drawMoveNum a <= 0 -> 0 < m_resignMoveCount a ->
  let side := opposite (sideToMove board) in
  let a' := addEval a board eval in
  (0 < depth eval ->
   m_resignMoveCount a <= default 0 (resignCount a' side) ->
   sideToMove board <> NoSide ->
   m_result a' = winResult side)
  /\ (m_result a' <> m_result a ->
      m_result a' = winResult side /\ 0 < depth eval
      /\ (sideToMove board <> NoSide ->
          m_resignMoveCount a <= default 0 (resignCount a' side))).
Proof.
  destruct a as [mn mc ds cnt rmc rs [c0 c1] tb res]. fields.
  intros -> Hdraw Hres. cbv zeta.
  apply Z.ltb_lt in Hres.
  assert (Hoff : (0 <? mn) = false) by (apply Z.ltb_ge; exact Hdraw).
  unfold resignCount, addEval, drawRule, resignRule.
  fields. rewrite Hoff. fields. try rewrite Hres. fields.
  destruct (depth eval <=? 0) eqn:Hd; fields.
  - apply Z.leb_le in Hd. split; [lia | congruence].
  - apply Z.leb_gt in Hd.
    destruct (sideToMove board);
      cbn [opposite sideIndex array_get array_set fst snd from_option id];
      destruct (score eval <=? rs);
      match goal with
      | |- context [rmc <=? ?n] => destruct (rmc <=? n) eqn:Hcount
      end;
      fields; cbn [array_get fst snd from_option id];
      first [apply Z.leb_le in Hcount | apply Z.leb_gt in Hcount];
      (split;
       [intros ? ? ?; first [reflexivity | lia | congruence]
       | intros Hch;
         first [congruence
               | split; [reflexivity
                        | split; [lia | intros ?; first [lia | congruence]]]]]).
Qed.

(** X1: the resign rule over a game.  With tablebase adjudication and
    the draw rule off, a resign rule set (resignMoveCount > 0), the
    counters at zero and every evaluation made on a board with a side
    to move: after each call the counter of the side that handed in
    the evaluation is the number of the latest real evaluations of
    that side in a row with score <= resignScore (the other side's
    evaluations in between do not count and do not interrupt), the
    other side's counter is as it was, a real evaluation that brings
    the run to resignMoveCount leaves a win of the opponent ("TCEC win
    rule") in the result field, and the call changes the result to
    nothing else and for no other reason. *)
Theorem resign_rule_sequence (a0 : t) (calls : list (Board * MoveEvaluation))
    (board : Board) (eval : MoveEvaluation) :
  m_tbEnabled a0 = false ->
  m_drawMoveNum a0 <= 0 ->
  0 < m_resignMoveCount a0 ->
  m_resignScoreCount a0 = (0, 0) ->
  Forall (fun c => sideToMove (fst c) <> NoSide) (calls ++ [(board, eval)]) ->
  let side := opposite (sideToMove board) in
  let a := addEvals a0 calls in
  let a' := addEval a board eval in
  let run :=
    consecutiveHopeless (m_resignScore a0) side (calls ++ [(board, eval)]) in
  resignCount a' side = Some run
  /\ resignCount a' (opposite side) = resignCount a (opposite side)
  /\ (0 < depth eval -> m_resignMoveCount a0 <= run ->
      m_result a' = winResult side)
  /\ (m_result a' <> m_result a ->
      m_result a' = winResult side /\ 0 < depth eval
      /\ m_resignMoveCount a0 <= run).
Proof.
  intros Htb Hdraw Hres Hzero Hsides side a a' run.
  assert (Hboard : sideToMove board <> NoSide).
  { apply Forall_app in Hsides as [_ Hc].
    apply Forall_cons_1 in Hc as [Hc _]. exact Hc. }
  assert (Hside : side <> NoSide) by (apply opposite_NoSide; exact Hboard).
  pose proof (addEvals_config a0 calls) as (Hn & _ & _ & Ht).
  pose proof (addEvals_resign_config a0 calls) as (Hm & Hr).
  fold a in Hn, Ht, Hm, Hr.
  assert (Hrun : resignCount a' side = Some run).
  { subst a' a run. rewrite <- addEvals_snoc with (c := (board, eval)).
    apply addEvals_resignCount; assumption. }
  pose proof (addEval_resign_result a board eval) as Hstep.
  cbv zeta in Hstep. fold side a' in Hstep. rewrite Hrun, Hm in Hstep.
  cbn [from_option id] in Hstep.
  destruct Hstep as [Hwin Hchange]; [congruence | lia | lia |].
  split; [exact Hrun |]. split; [| split].
  - subst a'. rewrite addEval_resignCount;
      try congruence; try lia; [| apply opposite_NoSide; exact Hside].
    rewrite bool_decide_eq_false_2; [reflexivity |].
    unfold evaluating. cbn [fst]. fold side.
    destruct side; simpl; congruence.
  - intros Hd Hlong. apply Hwin; assumption.
  - intros Hch. destruct (Hchange Hch) as (H1 & H2 & H3).
    split; [exact H1 |]. split; [exact H2 |]. apply H3. exact Hboard.
Qed.

Lemma resign_rule_sequence_witness :
  let calls := [lostCall White 40; levelCall Black 41; lostCall White 42;
                levelCall Black 43] in
  let a' := addEval (addEvals resignOnly calls)
                    (fst (lostCall White 44)) (snd (lostCall White 44)) in
  resignCount a' White = Some 3
  /\ m_result a' = mkResult Adjudication Black "TCEC win rule".
Proof.
  cbv zeta.
  pose proof (resign_rule_sequence resignOnly
                [lostCall White 40; levelCall Black 41; lostCall White 42;
                 levelCall Black 43]
                (fst (lostCall White 44)) (snd (lostCall White 44))) as Hrule.
  cbv zeta in Hrule.
  destruct Hrule as (Hcount & _ & Hwin & _).
  - reflexivity.
  - vm_compute. congruence.
  - reflexivity.
  - reflexivity.
  - repeat constructor; simpl; congruence.
  - split.
    + exact Hcount.
    + apply Hwin; vm_compute; congruence.
Defined.

(** X2: an adjudicator without work never gives a verdict.  With
    tablebase adjudication off and neither a draw rule
    (drawMoveNum <= 0) nor a resign rule (resignMoveCount <= 0) set,
    as in a newly constructed adjudicator, no sequence of evaluations
    changes the result. *)
Theorem addEvals_no_rule (a : t) (calls : list (Board * MoveEvaluation)) :
  m_tbEnabled a = false ->
  m_drawMoveNum a <= 0 ->
  m_resignMoveCount a <= 0 ->
  result (addEvals a calls) = result a.
Proof.
  intros Htb Hdraw Hres. unfold result.
  induction calls as [|c calls IH] using rev_ind; [reflexivity |].
  rewrite addEvals_snoc, <- IH.
  pose proof (addEvals_config a calls) as (Hn & _ & _ & Ht).
  pose proof (addEvals_resign_config a calls) as (Hm & _).
  destruct (addEvals a calls) as [mn mc ds cnt rmc rs rc tb res].
  cbn [m_drawMoveNum m_tbEnabled m_resignMoveCount m_result] in *.
  subst mn tb rmc. rewrite Htb.
  unfold addEval, drawRule, resignRule. fields.
  assert (H1 : (0 <? m_drawMoveNum a) = false) by (apply Z.ltb_ge; exact Hdraw).
  assert (H2 : (0 <? m_resignMoveCount a) = false)
    by (apply Z.ltb_ge; exact Hres).
  rewrite H1. fields. rewrite H2.
  destruct (depth (snd c) <=? 0); reflexivity.
Qed.

Lemma addEvals_no_rule_witness :
  result (addEvals new [lostCall White 40; lostCall White 42;
                        lostCall White 44])
  = Result_default.
Proof.
  apply (addEvals_no_rule new
           [lostCall White 40; lostCall White 42; lostCall White 44]).
  - reflexivity.
  - simpl; lia.
  - simpl; lia.
Defined.

(** The two verdicts of the heuristic rules are terminal. *)
Lemma heuristic_terminal (r : Result) :
  r = drawResult \/ (exists side, r = winResult side) -> isNone r = false.
Proof. intros [-> | [side ->]]; reflexivity. Qed.

(** X3: without tablebase adjudication a verdict is never taken
    back.  Once the result is terminal it stays terminal through
    every later evaluation (it can still change from one verdict to
    another). *)
Theorem verdict_stays (a : t) (calls : list (Board * MoveEvaluation)) :
  m_tbEnabled a = false ->
  isNone (result a) = false ->
  isNone (result (addEvals a calls)) = false.
Proof.
  intros Htb Hterm. unfold result in *.
  induction calls as [|c calls IH] using rev_ind; [exact Hterm |].
  rewrite addEvals_snoc.
  pose proof (addEvals_config a calls) as (_ & _ & _ & Ht).
  destruct (addEvals a calls) as [mn mc ds cnt rmc rs rc tb res].
  cbn [m_tbEnabled m_result] in *. subst tb. rewrite Htb.
  unfold addEval, drawRule, resignRule. fields.
  branches; first [exact IH | reflexivity].
Qed.

Lemma verdict_stays_witness :
  isNone (result (addEvals
                    (addEvals resignOnly
                       [lostCall White 40; lostCall White 42;
                        lostCall White 44])
                    [levelCall Black 45; levelCall White 46]))
  = false.
Proof.
  apply (verdict_stays
           (addEvals resignOnly
              [lostCall White 40; lostCall White 42; lostCall White 44])
           [levelCall Black 45; levelCall White 46]).
  - reflexivity.
  - reflexivity.
Defined.

(** X4: a draw rule with moveCount 0 looks at no score.  With
    tablebase adjudication off, drawMoveNum > 0, drawMoveCount = 0
    and a counter that is not negative, the first real evaluation
    made at or after move drawMoveNum is adjudicated a draw, whatever
    its score. *)
Theorem draw_rule_zero_count (a : t) (board : Board) (eval : MoveEvaluation) :
  m_tbEnabled a = false ->
  0 < m_drawMoveNum a ->
  m_drawMoveCount a = 0 ->
  0 <= m_drawScoreCount a ->
  0 < depth eval ->
  m_drawMoveNum a <= plyCount board ÷ 2 ->
  result (addEval a board eval) = drawResult.
Proof.
  destruct a as [mn mc ds cnt rmc rs rc tb res]. fields.
  intros -> Hnum -> Hcnt Hd Hply. unfold result.
  unfold addEval, drawRule. fields.
  assert (H1 : (depth eval <=? 0) = false) by (apply Z.leb_gt; exact Hd).
  assert (H2 : (0 <? mn) = true) by (apply Z.ltb_lt; exact Hnum).
  assert (H3 : (mn <=? plyCount board ÷ 2) = true)
    by (apply Z.leb_le; exact Hply).
  rewrite H1, H2.
  destruct (Z.abs (score eval) <=? ds); fields; rewrite H3; fields.
  - assert (H4 : (0 * 2 <=? cnt + 1) = true) by (apply Z.leb_le; lia).
    rewrite H4. reflexivity.
  - reflexivity.
Qed.

Lemma draw_rule_zero_count_witness :
  result (addEval drawAtMove30 (fst (lostCall White 60))
                  (snd (lostCall White 60)))
  = mkResult Adjudication NoSide "TCEC draw rule".
Proof.
  apply (draw_rule_zero_count drawAtMove30 (fst (lostCall White 60))
           (snd (lostCall White 60))).
  - reflexivity.
  - simpl; lia.
  - reflexivity.
  - simpl; lia.
  - simpl; lia.
  - vm_compute. congruence.
Defined.

Lemma consecutiveQuiet_le drawScore calls :
  consecutiveQuiet drawScore calls <= Z.of_nat (length calls).
Proof.
  unfold consecutiveQuiet. rewrite <- (length_rev calls).
  generalize (rev calls). intros l.
  induction l as [|c l IH]; simpl; [lia |].
  destruct (quiet drawScore c); simpl in *; lia.
Qed.

(** X5: after [resetDrawMoveCount] the draw rule starts over.  With
    tablebase adjudication off and the draw rule on, if the draw
    verdict is not in the result field when the counter is reset,
    then it cannot be there before 2 * drawMoveCount further
    evaluations have been handed in. *)
Theorem draw_after_reset (a : t) (calls : list (Board * MoveEvaluation)) :
  m_tbEnabled a = false ->
  0 < m_drawMoveNum a ->
  result a <> drawResult ->
  result (addEvals (resetDrawMoveCount a) calls) = drawResult ->
  m_drawMoveCount a * 2 <= Z.of_nat (length calls).
Proof.
  unfold result. intros Htb Hnum Hres.
  set (a0 := resetDrawMoveCount a).
  assert (Htb0 : m_tbEnabled a0 = false) by exact Htb.
  assert (Hnum0 : 0 < m_drawMoveNum a0) by exact Hnum.
  assert (Hzero : m_drawScoreCount a0 = 0) by reflexivity.
  induction calls as [|c calls IH] using rev_ind; [intros Hd; contradiction |].
  intros Hd. rewrite length_app. cbn [length].
  destruct (decide (m_result (addEvals a0 calls) = drawResult)) as [Hbefore|Hbefore].
  - specialize (IH Hbefore). lia.
  - pose proof (addEvals_config a0 calls) as (Hn & Hc & Hs & Ht).
    rewrite addEvals_snoc in Hd.
    apply addEval_draw_iff in Hd as (_ & Hcount & _); try congruence.
    rewrite <- addEvals_snoc in Hcount.
    rewrite addEvals_drawScoreCount in Hcount by assumption.
    pose proof (consecutiveQuiet_le (m_drawScore a0) (calls ++ [c])) as Hle.
    rewrite length_app in Hle. cbn [length] in Hle.
    rewrite Hc in Hcount. change (m_drawMoveCount a0) with (m_drawMoveCount a) in Hcount.
    lia.
Qed.

Lemma draw_after_reset_witness :
  let calls := [quietCall Black 2; quietCall White 3] in
  result (addEvals (resetDrawMoveCount quickDraw) calls) = drawResult
  /\ m_drawMoveCount quickDraw * 2 <= 2.
Proof.
  cbv zeta.
  assert (Hd : result (addEvals (resetDrawMoveCount quickDraw)
                         [quietCall Black 2; quietCall White 3])
               = drawResult) by (vm_compute; reflexivity).
  split; [exact Hd |].
  apply (draw_after_reset quickDraw [quietCall Black 2; quietCall White 3]).
  - reflexivity.
  - vm_compute; reflexivity.
  - vm_compute; congruence.
  - exact Hd.
Defined.

End GameAdjudicatorRunsProofs.


(** ** PgnGame: tags, ECO classification, result, numbering *)

Module PgnGameTagsProofs.
Import Chess Text TextProofs PgnGame PgnGameTags PgnWriteProofs.
Local Open Scope Z_scope.

Section Game.
Context {EcoNode : Type} `{EcoCatalogue EcoNode}.
Variable toShortString : Result -> string.
Implicit Types (g : PgnGame.t EcoNode).

(** X7: what a setter stores its getter returns, for every text, the
    empty one included: event, site, the two player names, variant
    and starting position.  [setVariant] keeps no tag for "standard"
    and [setPlayerName] does nothing for [NoSide]. *)
Theorem setters_read_back g (text : string) (side : Side) :
  event (setEvent g text) = text
  /\ site (setSite g text) = text
  /\ playerName (setPlayerName g White text) White = text
  /\ playerName (setPlayerName g Black text) Black = text
  /\ setPlayerName g NoSide text = g
  /\ variant (setVariant g text) = text
  /\ m_tags (setVariant g "standard") !! "Variant" = None
  /\ startingFenString (setStartingFenString g side text) = text
  /\ startingSide (setStartingFenString g side text) = side.
Proof.
  repeat split.
  - unfold event, setEvent, QMap.value. cbn [m_tags with_tags].
    rewrite lookup_insert_eq. reflexivity.
  - unfold site, setSite, QMap.value. cbn [m_tags with_tags].
    rewrite lookup_insert_eq. reflexivity.
  - unfold playerName, setPlayerName, QMap.value. cbn [m_tags with_tags].
    rewrite lookup_insert_eq. reflexivity.
  - unfold playerName, setPlayerName, QMap.value. cbn [m_tags with_tags].
    rewrite lookup_insert_eq. reflexivity.
  - unfold variant, setVariant, QMap.contains, QMap.value.
    destruct (bool_decide (text = "standard")) eqn:Hstd;
      cbn [m_tags with_tags].
    + apply bool_decide_eq_true in Hstd. subst text.
      rewrite lookup_delete_eq.
      rewrite bool_decide_eq_false_2; [reflexivity |].
      intros [x Hx]. discriminate.
    + rewrite lookup_insert_eq.
      rewrite bool_decide_eq_true_2; [reflexivity | eauto].
  - unfold setVariant. cbn [bool_decide decide_rel]. cbn [m_tags with_tags].
    apply lookup_delete_eq.
  - unfold startingFenString, setStartingFenString, QMap.value.
    destruct text as [|c text]; cbn [isEmpty m_tags].
    + rewrite lookup_delete_ne by discriminate.
      rewrite lookup_delete_eq. reflexivity.
    + rewrite lookup_insert_ne by discriminate.
      rewrite lookup_insert_eq. reflexivity.
  - unfold startingSide, setStartingFenString.
    destruct (isEmpty text); reflexivity.
Qed.

(** X8: a starting position and the [Minimal] mode.  After
    [setStartingFenString] with a non-empty FEN the game is no
    standard game any more, and [write] in [Minimal] mode puts the
    lines [[FEN "..."]] and [[SetUp "1"]] between the roster and
    the movetext; after [setStartingFenString] with an empty FEN it
    puts nothing there. *)
Theorem setup_tags_written g (out : string) (side : Side)
    (c : ascii) (fen : string) :
  let set := setStartingFenString g side (String c fen) in
  let unset := setStartingFenString g side "" in
  isStandard set = false
  /\ write out set Minimal
     = out ++ writeRoster (m_tags set)
           ++ tagLine "FEN" (String c fen) ++ tagLine "SetUp" "1"
           ++ writeMovetext set Minimal
  /\ writeOtherTags Minimal (m_tags unset) = "".
Proof.
  cbv zeta. unfold setStartingFenString. cbn [isEmpty].
  set (tags := <["SetUp" := "1"]> (<["FEN" := String c fen]> (m_tags g))).
  assert (Hfen : tags !! "FEN" = Some (String c fen)).
  { subst tags. rewrite lookup_insert_ne by discriminate.
    apply lookup_insert_eq. }
  assert (Hsetup : tags !! "SetUp" = Some "1")
    by (subst tags; apply lookup_insert_eq).
  assert (Hhas : QMap.contains tags "FEN" = true).
  { unfold QMap.contains. apply bool_decide_eq_true. rewrite Hfen. eauto. }
  split; [| split].
  - unfold isStandard. cbn [m_tags]. fold tags. rewrite Hhas.
    apply andb_false_r.
  - unfold write. cbn [m_tags]. fold tags.
    rewrite QMap_isEmpty_false
      by (intros Heq; rewrite Heq, lookup_empty in Hfen; discriminate).
    unfold writeOtherTags. rewrite Hhas.
    unfold QMap.value. rewrite Hfen, Hsetup. cbn [from_option id].
    unfold writeTag, tagLine. cbn [isEmpty negb].
    rewrite !append_assoc. reflexivity.
  - unfold writeOtherTags, QMap.contains. cbn [m_tags].
    rewrite bool_decide_eq_false_2; [reflexivity |].
    intros [x Hx]. rewrite lookup_delete_ne in Hx by discriminate.
    rewrite lookup_delete_eq in Hx. discriminate.
Qed.

Lemma addMove_appends g md : m_moves (addMove g md) = (m_moves g ++ [md])%list.
Proof.
  unfold addMove. cbn [m_eco m_moves m_tags m_startingSide].
  repeat match goal with
         | |- context [match ?x with _ => _ end] => destruct x
         end;
    unfold setTag;
    repeat match goal with
           | |- context [if ?b then _ else _] => destruct b
           end; reflexivity.
Qed.

(** One move added to a game that is off the catalogue. *)
Lemma addMove_off_catalogue g md :
  m_eco g = None \/ isStandard g = false ->
  m_tags (addMove g md) = m_tags g /\ m_eco (addMove g md) = None.
Proof.
  intros Hoff. unfold addMove. cbn [m_eco m_moves m_tags m_startingSide].
  assert (Hstd :
    isStandard {| m_startingSide := m_startingSide g; m_eco := m_eco g;
                  m_tags := m_tags g; m_moves := m_moves g ++ [md] |}
    = isStandard g) by reflexivity.
  rewrite Hstd.
  destruct (m_eco g) as [node|]; [| split; reflexivity].
  destruct Hoff as [Hoff | Hoff]; [discriminate |].
  rewrite Hoff. split; reflexivity.
Qed.

(** X9: a game off the opening catalogue stays off it.  When the game
    has no catalogue node (it left the catalogue, or never had one)
    or is not a standard game (a variant, or a set-up position),
    [addMove] appends the moves and nothing else: the tags are as
    they were, and after the first move the game has no catalogue
    node. *)
Theorem addMoves_off_catalogue g (moves : list MoveData) :
  m_eco g = None \/ isStandard g = false ->
  m_moves (addMoves g moves) = (m_moves g ++ moves)%list
  /\ m_tags (addMoves g moves) = m_tags g
  /\ (moves <> [] -> m_eco (addMoves g moves) = None).
Proof.
  revert g. induction moves as [|md moves IH]; intros g Hoff.
  - cbn [addMoves fold_left]. rewrite app_nil_r. repeat split. congruence.
  - cbn [addMoves fold_left]. fold (addMoves (addMove g md) moves).
    destruct (addMove_off_catalogue g md Hoff) as [Htags Heco].
    destruct (IH (addMove g md) (or_introl Heco)) as (Hm & Ht & He).
    rewrite Hm, Ht, addMove_appends, Htags, <- app_assoc.
    repeat split. intros _.
    destruct moves as [|md' moves]; [exact Heco | apply He; discriminate].
Qed.

(** X10: the catalogue's leaf names the opening.  When a standard
    game on catalogue node [node] gets a move that leads to a leaf,
    the game moves to the leaf and the tags "ECO", "Opening" and
    "Variation" answer with the leaf's code, opening and variation;
    a name the leaf leaves empty removes what an earlier leaf had
    stored under that tag. *)
Theorem addMove_leaf_tags g (node leaf : EcoNode) (md : MoveData) :
  m_eco g = Some node ->
  isStandard g = true ->
  eco_child node (moveString md) = Some leaf ->
  eco_isLeaf leaf = true ->
  let g' := addMove g md in
  m_eco g' = Some leaf
  /\ tagValue g' "ECO" = eco_ecoCode leaf
  /\ tagValue g' "Opening" = eco_opening leaf
  /\ tagValue g' "Variation" = eco_variation leaf
  /\ m_moves g' = (m_moves g ++ [md])%list.
Proof.
  intros Heco Hstd Hchild Hleaf g'.
  assert (Hm : m_moves g' = (m_moves g ++ [md])%list)
    by apply addMove_appends.
  subst g'. unfold addMove in *.
  cbn [m_eco m_moves m_tags m_startingSide] in *.
  assert (Hstd' :
    isStandard {| m_startingSide := m_startingSide g; m_eco := m_eco g;
                  m_tags := m_tags g; m_moves := m_moves g ++ [md] |}
    = isStandard g) by reflexivity.
  rewrite Hstd', Heco, Hstd, Hchild, Hleaf in *.
  split; [| split; [| split; [| split; [| exact Hm]]]].
  - unfold setTag.
    repeat match goal with
           | |- context [if ?b then _ else _] => destruct b
           end; reflexivity.
  - unfold tagValue, QMap.value, setTag.
    destruct (eco_ecoCode leaf) eqn:Hcode, (eco_opening leaf),
      (eco_variation leaf); cbn [isEmpty m_tags with_tags];
      repeat first [rewrite lookup_insert_ne by discriminate
                   | rewrite lookup_delete_ne by discriminate];
      first [rewrite lookup_insert_eq | rewrite lookup_delete_eq];
      reflexivity.
  - unfold tagValue, QMap.value, setTag.
    destruct (eco_ecoCode leaf), (eco_opening leaf) eqn:Hop,
      (eco_variation leaf); cbn [isEmpty m_tags with_tags];
      repeat first [rewrite lookup_insert_ne by discriminate
                   | rewrite lookup_delete_ne by discriminate];
      first [rewrite lookup_insert_eq | rewrite lookup_delete_eq];
      reflexivity.
  - unfold tagValue, QMap.value, setTag.
    destruct (eco_ecoCode leaf), (eco_opening leaf),
      (eco_variation leaf) eqn:Hvar; cbn [isEmpty m_tags with_tags];
      first [rewrite lookup_insert_eq | rewrite lookup_delete_eq];
      reflexivity.
Qed.

(** X11: [setResultDescription] touches the comment of the last move
    and nothing else.  For a game whose last move is [last], a
    non-empty description becomes that move's comment, after the
    comment it had and a comma if it had one; the moves before, the
    move strings and the tags stay.  An empty description, or a game
    without moves, changes nothing. *)
Theorem setResultDescription_last g (before : list MoveData)
    (last : MoveData) (c : ascii) (descr : string) :
  m_moves g = (before ++ [last])%list ->
  let g' := setResultDescription g (String c descr) in
  m_moves g'
  = (before
     ++ [mkMoveData (key last) (genericMove last) (moveString last)
           (if isEmpty (comment last) then String c descr
            else comment last ++ ", " ++ String c descr)])%list
  /\ map moveString (m_moves g') = map moveString (m_moves g)
  /\ m_tags g' = m_tags g
  /\ setResultDescription g "" = g
  /\ (forall g0, m_moves g0 = [] ->
        setResultDescription g0 (String c descr) = g0).
Proof.
  intros Hmoves g'.
  assert (Hg' : m_moves g'
    = (before
       ++ [mkMoveData (key last) (genericMove last) (moveString last)
             (if isEmpty (comment last) then String c descr
              else comment last ++ ", " ++ String c descr)])%list).
  { subst g'. unfold setResultDescription. cbn [isEmpty].
    rewrite Hmoves, rev_app_distr. cbn [rev app m_moves].
    rewrite rev_involutive.
    destruct (comment last) as [|c' text]; cbn [isEmpty].
    - reflexivity.
    - rewrite append_assoc. reflexivity. }
  split; [exact Hg' |]. split; [| split; [| split]].
  - rewrite Hg', Hmoves, !map_app. reflexivity.
  - subst g'. unfold setResultDescription. cbn [isEmpty].
    destruct (rev (m_moves g)); reflexivity.
  - reflexivity.
  - intros g0 Hnone. unfold setResultDescription. cbn [isEmpty].
    rewrite Hnone. reflexivity.
Qed.

(** The tags after [setResult], tag by tag. *)
Lemma setResult_lookup g (r : Result) (k : string) :
  m_tags (setResult toShortString g r) !! k
  = if decide (k = "Termination") then terminationOf (type r)
    else if decide (k = "Result") then Some (toShortString r)
    else m_tags g !! k.
Proof.
  unfold setResult, terminationOf.
  destruct (decide (k = "Termination")) as [-> | Hterm].
  - destruct (type r); cbn [m_tags with_tags];
      first [apply lookup_insert_eq | apply lookup_delete_eq].
  - destruct (decide (k = "Result")) as [-> | Hres].
    + destruct (type r); cbn [m_tags with_tags];
        first [rewrite lookup_insert_ne by discriminate
              | rewrite lookup_delete_ne by discriminate];
        apply lookup_insert_eq.
    + destruct (type r); cbn [m_tags with_tags];
        first [rewrite lookup_insert_ne by congruence
              | rewrite lookup_delete_ne by congruence];
        rewrite lookup_insert_ne by congruence; reflexivity.
Qed.

(** X12: the tags tell the last result only.  After [setResult] the
    "Result" tag is the result's short text, and the "Termination"
    tag is there exactly for an adjudication ("adjudication"), a
    timeout ("time forfeit"), a disconnection ("abandoned") and a
    game without result ("unterminated"); for every other kind it is
    removed.  So a second [setResult] leaves no trace of the first. *)
Theorem setResult_last_wins g (r1 r2 : Result) :
  m_tags (setResult toShortString (setResult toShortString g r1) r2)
  = m_tags (setResult toShortString g r2)
  /\ tagValue (setResult toShortString g r2) "Result" = toShortString r2
  /\ m_tags (setResult toShortString g r2) !! "Termination"
     = terminationOf (type r2).
Proof.
  split; [| split].
  - apply map_eq. intros k. rewrite !setResult_lookup.
    destruct (decide (k = "Termination")); [reflexivity |].
    destruct (decide (k = "Result")); reflexivity.
  - unfold tagValue, QMap.value. rewrite setResult_lookup.
    reflexivity.
  - rewrite setResult_lookup. reflexivity.
Qed.

End Game.



(** *** The supplementary tags *)

Lemma string_leb_trans (a b c : string) :
  String.leb a b = true -> String.leb b c = true -> String.leb a c = true.
Proof.
  unfold String.leb.
  revert b c. induction a as [|x a IH]; intros b c Hab Hbc.
  - destruct c; reflexivity.
  - destruct b as [|y b]; [discriminate |].
    destruct c as [|z c]; [discriminate |].
    cbn [String.compare] in *. unfold Ascii.compare in *.
    destruct (N.compare_spec (N_of_ascii x) (N_of_ascii y)) as [Hxy|Hxy|Hxy];
      [| | discriminate];
      (destruct (N.compare_spec (N_of_ascii y) (N_of_ascii z))
         as [Hyz|Hyz|Hyz]; [| | discriminate]).
    + rewrite Hxy, Hyz, N.compare_refl. apply (IH b c); assumption.
    + rewrite Hxy. rewrite (proj2 (N.compare_lt_iff _ _) Hyz). reflexivity.
    + rewrite <- Hyz. rewrite (proj2 (N.compare_lt_iff _ _) Hxy). reflexivity.
    + assert (Hxz : (N_of_ascii x < N_of_ascii z)%N) by lia.
      rewrite (proj2 (N.compare_lt_iff _ _) Hxz). reflexivity.
Qed.

Lemma keyLe_trans (a b c : string * string) :
  QMap.keyLe a b -> QMap.keyLe b c -> QMap.keyLe a c.
Proof. unfold QMap.keyLe. apply string_leb_trans. Qed.

Lemma keyLe_total (a b : string * string) : QMap.keyLe a b \/ QMap.keyLe b a.
Proof. unfold QMap.keyLe. apply String.leb_total. Qed.

Lemma StronglySorted_filter {A} (R : A -> A -> Prop) (p : A -> bool)
    (l : list A) :
  StronglySorted R l -> StronglySorted R (List.filter p l).
Proof.
  induction 1 as [|x l Hsorted IH Hall]; cbn [List.filter]; [constructor |].
  destruct (p x); [| exact IH].
  constructor; [exact IH |].
  apply List.Forall_forall. intros y Hy. apply filter_In in Hy as [Hy _].
  revert y Hy. apply List.Forall_forall. exact Hall.
Qed.

Lemma NoDup_List_filter {A} (p : A -> bool) (l : list A) :
  NoDup l -> NoDup (List.filter p l).
Proof.
  induction 1 as [|x l Hx Hnd IH]; cbn [List.filter]; [constructor |].
  destruct (p x); [| exact IH].
  constructor; [| exact IH].
  intros Hin. apply Hx. apply list_elem_of_In in Hin.
  apply filter_In in Hin as [Hin _]. apply list_elem_of_In. exact Hin.
Qed.

Lemma toList_lookup (tags : gmap string string) (k v : string) :
  In (k, v) (QMap.toList tags) <-> tags !! k = Some v.
Proof.
  unfold QMap.toList. rewrite <- list_elem_of_In, merge_sort_Permutation.
  apply elem_of_map_to_list.
Qed.

(** X30: the tags after the roster, in [Verbose] mode.  [write]
    emits a tag pair line for every tag that is not a roster tag and
    has a value that is not empty, for no other tag, for none twice,
    and in the ascending order of the tag names. *)
Theorem supplementary_tags_sorted (tags : gmap string string) :
  (forall k v,
      In (k, v) (supplementaryTags tags)
      <-> tags !! k = Some v /\ rosterContains k = false /\ v <> "")
  /\ NoDup (map fst (supplementaryTags tags))
  /\ StronglySorted (fun a b => String.leb a b = true)
                    (map fst (supplementaryTags tags))
  /\ writeOtherTags Verbose tags
     = PgnReader.tagLines (supplementaryTags tags).
Proof.
  split; [| split; [| split]].
  - intros k v. unfold supplementaryTags.
    rewrite filter_In, toList_lookup. cbn [fst snd].
    rewrite andb_true_iff, !negb_true_iff, isEmpty_false. tauto.
  - apply NoDup_fmap_fst.
    + intros k v1 v2 H1 H2. unfold supplementaryTags in *.
      apply list_elem_of_In in H1, H2.
      apply filter_In in H1 as [H1 _]. apply filter_In in H2 as [H2 _].
      apply toList_lookup in H1, H2. congruence.
    + unfold supplementaryTags. apply NoDup_List_filter.
      unfold QMap.toList. rewrite merge_sort_Permutation.
      apply NoDup_map_to_list.
  - assert (Hsorted : StronglySorted QMap.keyLe (supplementaryTags tags)).
    { unfold supplementaryTags. apply StronglySorted_filter.
      unfold QMap.toList. apply StronglySorted_merge_sort.
      - intros a b c. apply keyLe_trans.
      - intros a b. apply keyLe_total. }
    induction Hsorted as [|x l Hsorted IH Hall]; cbn [map]; constructor.
    + exact IH.
    + apply List.Forall_forall. intros k Hk.
      apply in_map_iff in Hk as (y & <- & Hy).
      revert y Hy. apply List.Forall_forall. exact Hall.
  - apply PgnReadProofs.write_supplementary.
Qed.

Lemma addMoves_off_catalogue_witness :
  m_tags (addMoves Games.scenario5 [Games.san "Nc6"; Games.san "Bb5"])
  = m_tags Games.scenario5
  /\ m_moves (addMoves Games.scenario5 [Games.san "Nc6"; Games.san "Bb5"])
     = [Games.san "e4"; Games.san "e5"; Games.san "Nf3"; Games.san "Nc6";
        Games.san "Bb5"].
Proof.
  destruct (addMoves_off_catalogue Games.scenario5
              [Games.san "Nc6"; Games.san "Bb5"]) as (Hm & Ht & _).
  - left. reflexivity.
  - split; [exact Ht | exact Hm].
Defined.

Lemma addMove_leaf_tags_witness :
  let g' := @addMove nat kingsPawn afterE4 (Games.san "e5") in
  tagValue g' "ECO" = "C20"
  /\ tagValue g' "Opening" = "King's Pawn Game"
  /\ tagValue g' "Variation" = "".
Proof.
  cbv zeta.
  destruct (@addMove_leaf_tags nat kingsPawn afterE4 1%nat 2%nat
              (Games.san "e5"))
    as (_ & Hc & Ho & Hv & _).
  - reflexivity.
  - vm_compute. reflexivity.
  - reflexivity.
  - reflexivity.
  - split; [exact Hc | split; [exact Ho | exact Hv]].
Defined.

Lemma setResultDescription_last_witness :
  m_moves (setResultDescription Games.scenario5 "White mates")
  = [Games.san "e4"; Games.san "e5"; Games.annotated "Nf3" "White mates"].
Proof.
  apply (setResultDescription_last Games.scenario5
           [Games.san "e4"; Games.san "e5"] (Games.san "Nf3")
           "W"%char "hite mates").
  reflexivity.
Defined.


Lemma writeMovetext_lines_within_witness :
  Forall (fun l => (String.length l <= 80)%nat)
         (lines (writeMovetext Games.scenario5 Verbose)).
Proof.
  apply (writeMovetext_lines_within Games.scenario5 Verbose).
  - repeat constructor; vm_compute; congruence.
  - vm_compute. congruence.
Defined.

End PgnGameTagsProofs.

(** ** PgnGame::read: the moves it records *)

Module PgnReplayProofs.
Import Chess Text TextProofs PgnGame PgnStream PgnReader PgnReplay.
Local Open Scope Z_scope.

Section Reader.
Context {EcoNode : Type} `{EcoCatalogue EcoNode}.
Context {Board Move : Type} `{PgnBoard Board Move}.
Implicit Types (s : PgnStream.t Board) (g : PgnGame.t EcoNode).

Lemma addMove_snoc g md : m_moves (addMove g md) = (m_moves g ++ [md])%list.
Proof.
  unfold addMove. cbn [m_eco m_moves m_tags m_startingSide].
  repeat match goal with
         | |- context [match ?x with _ => _ end] => destruct x
         end;
    unfold setTag;
    repeat match goal with
           | |- context [if ?b then _ else _] => destruct b
           end; reflexivity.
Qed.

(** The lexer reads; it does not touch the board. *)
Lemma readNext_board s : board (snd (readNext s)) = board s.
Proof.
  unfold readNext, readTag, atEnd.
  repeat match goal with
         | |- context [match ?x with _ => _ end] =>
             destruct x; cbn [snd board]
         | |- context [let '(_, _) := ?x in _] =>
             destruct x; cbn [snd board]
         end; reflexivity.
Qed.

Lemma replay_snoc (b : Board) (moves : list MoveData) (md : MoveData) :
  replay b (moves ++ [md])
  = match replay b moves with
    | Some b' => replay b' [md]
    | None => None
    end.
Proof.
  revert b. induction moves as [|m moves IH]; intros b; [reflexivity |].
  cbn [app replay].
  destruct (moveFromString b (moveString m)) as [move|]; [| reflexivity].
  destruct (bool_decide (key m = boardKey b)
            && bool_decide (genericMove m = boardGenericMove b move));
    [apply IH | reflexivity].
Qed.

(** A comment added to the last move changes nothing for [replay]. *)
Lemma replay_appendComment (b : Board) g text :
  replay b (m_moves (appendComment g text)) = replay b (m_moves g).
Proof.
  unfold appendComment.
  destruct (List.rev (m_moves g)) as [|lastMove before] eqn:Hrev;
    [reflexivity |].
  cbn [m_moves].
  assert (Hm : m_moves g = (List.rev before ++ [lastMove])%list).
  { rewrite <- (rev_involutive (m_moves g)), Hrev. reflexivity. }
  rewrite Hm, !replay_snoc. reflexivity.
Qed.

Lemma appendComment_length g text :
  length (m_moves (appendComment g text)) = length (m_moves g).
Proof.
  unfold appendComment.
  destruct (List.rev (m_moves g)) as [|lastMove before] eqn:Hrev;
    [reflexivity |].
  cbn [m_moves].
  assert (Hm : m_moves g = (List.rev before ++ [lastMove])%list).
  { rewrite <- (rev_involutive (m_moves g)), Hrev. reflexivity. }
  rewrite Hm, !length_app. reflexivity.
Qed.

(** A position that was set up came from [setFenString]. *)
Lemma setUpPosition_set (b b' : Board) (tags tags' : gmap string string) :
  setUpPosition b tags = (true, b', tags') ->
  exists b0 fen, setFenString b0 fen = Some b'.
Proof.
  unfold setUpPosition.
  repeat match goal with
         | |- context [match ?x with _ => _ end] =>
             let Heq := fresh "Heq" in destruct x eqn:Heq; cbn [negb]
         end; intros Hs; try discriminate;
    injection Hs as <- _; eauto.
Qed.

Lemma parseMove_onRecord s g :
  onRecord s g ->
  onRecord (snd (fst (parseMove s g))) (snd (parseMove s g)).
Proof.
  intros Hrec. unfold parseMove.
  destruct (QMap.isEmpty (m_tags g)); [exact Hrec |].
  destruct (m_moves g) as [|m0 rest] eqn:Hmoves.
  - unfold firstMoveSetup.
    destruct (setUpPosition (board s) (m_tags g)) as [[ok b'] tags'] eqn:Hset.
    destruct ok; cbn [negb fst snd].
    + apply setUpPosition_set in Hset as (b0 & fen & Hfen).
      cbn [board with_board tokenString].
      destruct (moveFromString b' (tokenString s)) as [move|] eqn:Hmove;
        cbn [fst snd].
      * right. exists b0, fen, b'. split; [exact Hfen |].
        rewrite addMove_snoc. cbn [m_moves]. rewrite Hmoves.
        cbn [app replay moveString key genericMove board with_board].
        rewrite Hmove, !bool_decide_eq_true_2 by reflexivity.
        reflexivity.
      * left. exact Hmoves.
    + left. exact Hmoves.
  - cbn [negb].
    destruct (moveFromString (board s) (tokenString s)) as [move|] eqn:Hmove;
      cbn [fst snd]; [| exact Hrec].
    destruct Hrec as [Hnone | (b0 & fen & b1 & Hfen & Hplay)];
      [congruence |].
    right. exists b0, fen, b1. split; [exact Hfen |].
    rewrite addMove_snoc, replay_snoc, Hplay.
    cbn [replay moveString key genericMove board with_board].
    rewrite Hmove, !bool_decide_eq_true_2 by reflexivity.
    reflexivity.
Qed.

Lemma parseMove_length s g :
  length (m_moves (snd (parseMove s g)))
  = (length (m_moves g)
     + if fst (fst (parseMove s g)) then 1 else 0)%nat.
Proof.
  unfold parseMove.
  destruct (QMap.isEmpty (m_tags g)); [cbn [fst snd]; lia |].
  assert (Hfirst : forall ok s1 g1,
            firstMoveSetup s g = (ok, s1, g1) -> m_moves g1 = m_moves g).
  { unfold firstMoveSetup. intros ok s1 g1.
    destruct (setUpPosition (board s) (m_tags g)) as [[ok' b'] tags'].
    intros Heq. injection Heq as _ _ <-. reflexivity. }
  destruct (match m_moves g with
            | [] => firstMoveSetup s g
            | _ :: _ => (true, s, g)
            end) as [[ok s1] g1] eqn:Hsetup.
  assert (Hm : m_moves g1 = m_moves g).
  { destruct (m_moves g) eqn:Hmoves; [exact (Hfirst _ _ _ Hsetup) |].
    injection Hsetup as _ _ <-. exact Hmoves. }
  destruct ok; cbn [negb fst snd]; [| rewrite Hm; lia].
  destruct (moveFromString (board s1) (tokenString s1)); cbn [fst snd].
  - rewrite addMove_snoc, length_app, Hm. reflexivity.
  - rewrite Hm. lia.
Qed.

Variable maxMoves : Z.

(** One turn of the loop keeps the game on record. *)
Lemma readToken_onRecord s g :
  onRecord s g ->
  onRecord (snd (fst (readToken maxMoves s g)))
           (snd (readToken maxMoves s g)).
Proof.
  intros Hrec. unfold readToken.
  pose proof (readNext_board s) as Hboard.
  destruct (readNext s) as [token s1]. cbn [snd] in Hboard.
  assert (Hrec1 : onRecord s1 g).
  { destruct Hrec as [Hnone | (b0 & fen & b1 & Hfen & Hplay)];
      [left; exact Hnone |].
    right. exists b0, fen, b1. rewrite Hboard. auto. }
  destruct token; cbn [fst snd]; try exact Hrec1.
  - pose proof (parseMove_onRecord s1 g Hrec1) as Hp.
    destruct (parseMove s1 g) as [[ok s2] g2]. exact Hp.
  - destruct Hrec1 as [Hnone | (b0 & fen & b1 & Hfen & Hplay)].
    + left. unfold appendComment. rewrite Hnone. exact Hnone.
    + right. exists b0, fen, b1. rewrite replay_appendComment. auto.
Qed.

Lemma readLoop_onRecord (fuel : nat) :
  forall s g,
    onRecord s g ->
    onRecord (fst (readLoop fuel maxMoves s g))
             (snd (readLoop fuel maxMoves s g)).
Proof.
  induction fuel as [|fuel IH]; intros s g Hrec; [exact Hrec |].
  cbn [readLoop]. destruct (status s); [| exact Hrec].
  pose proof (readToken_onRecord s g Hrec) as Hstep.
  destruct (readToken maxMoves s g) as [[stop s1] g1]. cbn [fst snd] in Hstep.
  destruct stop; [exact Hstep | apply IH; exact Hstep].
Qed.

Lemma readToken_limit s g :
  roomLeft maxMoves g ->
  withinLimit maxMoves (snd (readToken maxMoves s g))
  /\ (fst (fst (readToken maxMoves s g)) = false ->
      roomLeft maxMoves (snd (readToken maxMoves s g))).
Proof.
  intros Hroom.
  assert (Hin : withinLimit maxMoves g).
  { unfold withinLimit. destruct Hroom as [-> | Hlt]; simpl; lia. }
  unfold readToken. destruct (readNext s) as [token s1].
  destruct token; cbn [fst snd m_moves with_tags]; try (split; auto; fail).
  - pose proof (parseMove_length s1 g) as Hlen.
    destruct (parseMove s1 g) as [[ok s2] g2]. cbn [fst snd] in *.
    unfold withinLimit, roomLeft in *.
    destruct ok; cbn [negb orb].
    + destruct (maxMoves <=? Z.of_nat (length (m_moves g2))) eqn:Hfull.
      * split; [| discriminate].
        destruct Hroom as [Hnone | Hlt]; [rewrite Hnone in Hlen |];
          simpl in Hlen; lia.
      * apply Z.leb_gt in Hfull. split; [lia | intros _; right; exact Hfull].
    + split; [| discriminate]. rewrite Hlen. lia.
  - unfold withinLimit, roomLeft in *.
    rewrite appendComment_length. split; [exact Hin |].
    intros _. destruct Hroom as [Hnone | Hlt]; [| right; exact Hlt].
    left. unfold appendComment. rewrite Hnone. exact Hnone.
Qed.

Lemma readLoop_limit (fuel : nat) :
  forall s g,
    roomLeft maxMoves g -> withinLimit maxMoves (snd (readLoop fuel maxMoves s g)).
Proof.
  induction fuel as [|fuel IH]; intros s g Hroom.
  - cbn [readLoop snd]. unfold withinLimit.
    destruct Hroom as [-> | Hlt]; simpl; lia.
  - cbn [readLoop].
    assert (Hin : withinLimit maxMoves g).
    { unfold withinLimit. destruct Hroom as [-> | Hlt]; simpl; lia. }
    destruct (status s); [| exact Hin].
    pose proof (readToken_limit s g Hroom) as [Hlimit Hnext].
    destruct (readToken maxMoves s g) as [[stop s1] g1]. cbn [fst snd] in *.
    destruct stop; [exact Hlimit | apply IH; apply Hnext; reflexivity].
Qed.

(** X14: what a successful [read] leaves in the game.  Whatever the
    text holds, when [read] returns true the tags are not empty, the
    "PlyCount" tag is the number of moves read, and that number is at
    most [maxMoves] (at most one when [maxMoves] is below one: the
    limit is looked at after a move is taken). *)
Theorem read_ply_count s g s' g' :
  read s g maxMoves = (true, s', g') ->
  PgnGame.tagValue g' "PlyCount"
  = QString_number (Z.of_nat (length (m_moves g')))
  /\ Z.of_nat (length (m_moves g')) <= Z.max maxMoves 1
  /\ m_tags g' <> ∅.
Proof.
  unfold read. destruct (nextGame s) as [found s1].
  destruct found; cbn [negb]; [| discriminate].
  pose proof (readLoop_limit (S (String.length (input s1))) s1 (clear g)
                (or_introl eq_refl)) as Hlimit.
  destruct (readLoop (S (String.length (input s1))) maxMoves s1 (clear g))
    as [s2 g2].
  cbn [snd] in Hlimit.
  destruct (QMap.isEmpty (m_tags g2)); [discriminate |].
  intros Heq. injection Heq as _ <-. cbn [m_moves with_tags m_tags].
  split; [| split; [exact Hlimit |]].
  - unfold PgnGame.tagValue, QMap.value. cbn [m_tags with_tags].
    rewrite lookup_insert_eq. reflexivity.
  - intros Hempty.
    assert (Hl : (<["PlyCount" :=
                     QString_number (Z.of_nat (length (m_moves g2)))]>
                    (m_tags g2) : gmap string string) !! "PlyCount"
                 = None) by (rewrite Hempty; apply lookup_empty).
    rewrite lookup_insert_eq in Hl. discriminate.
Qed.

(** X15: [read] records played moves only.  Whatever the text holds
    and whether [read] returns true or false, the moves in the game
    afterwards, if any, are a line the board accepted: played again
    from a position that [setFenString] set up, each move string is
    parsed by the board in the position reached, each record holds
    that position's key and the generic form of the parsed move, and
    the line ends in the position the stream's board is left in. *)
Theorem read_moves_on_record s g (ok : bool) s' g' :
  read s g maxMoves = (ok, s', g') ->
  m_moves g' <> [] ->
  exists b0 fen b1,
    setFenString b0 fen = Some b1
    /\ replay b1 (m_moves g') = Some (board s').
Proof.
  unfold read. destruct (nextGame s) as [found s1].
  destruct found; cbn [negb].
  - pose proof (readLoop_onRecord (S (String.length (input s1))) s1 (clear g)
                  (or_introl eq_refl)) as Hrec.
    destruct (readLoop (S (String.length (input s1))) maxMoves s1 (clear g))
      as [s2 g2].
    cbn [fst snd] in Hrec.
    destruct (QMap.isEmpty (m_tags g2)); intros Heq;
      injection Heq as _ <- <-; cbn [m_moves with_tags]; intros Hsome;
      (destruct Hrec as [Hnone | Hrec]; [contradiction | exact Hrec]).
  - intros Heq. injection Heq as _ _ <-. intros Hsome.
    exfalso. apply Hsome. reflexivity.
Qed.

End Reader.

Lemma read_ply_count_witness :
  let '(ok, s', g') :=
    read (PgnStream.open twoGames 0%nat) (PgnGame.new (EcoNode := unit)) 1000 in
  ok = true
  /\ PgnGame.tagValue g' "PlyCount" = "3"
  /\ length (m_moves g') = 3%nat.
Proof.
  destruct (read (PgnStream.open twoGames 0%nat)
                 (PgnGame.new (EcoNode := unit)) 1000)
    as [[ok s'] g'] eqn:Hread.
  assert (Hok : ok = true) by (vm_compute in Hread; congruence).
  subst ok.
  assert (Hlen : length (m_moves g') = 3%nat)
    by (vm_compute in Hread; injection Hread as _ <-; reflexivity).
  destruct (read_ply_count 1000 _ _ _ _ Hread) as (Hply & _ & _).
  rewrite Hlen in Hply.
  split; [reflexivity | split; [exact Hply | exact Hlen]].
Defined.

Lemma read_moves_on_record_witness :
  let '(ok, s', g') :=
    read afterFirstGame (PgnGame.new (EcoNode := unit)) 1000 in
  map moveString (m_moves g') = ["d4"]
  /\ exists b0 fen b1,
       PgnStream.setFenString b0 fen = Some b1
       /\ replay b1 (m_moves g') = Some (board s').
Proof.
  destruct (read afterFirstGame (PgnGame.new (EcoNode := unit)) 1000)
    as [[ok s'] g'] eqn:Hread.
  assert (Hmoves : map moveString (m_moves g') = ["d4"])
    by (vm_compute in Hread; injection Hread as _ _ <-; reflexivity).
  split; [exact Hmoves |].
  apply (read_moves_on_record 1000 _ _ _ _ _ Hread).
  intros Hnone. rewrite Hnone in Hmoves. discriminate.
Defined.

End PgnReplayProofs.


(** ** ChessGame: the handlers, and a game from set-up to its first move *)

Module ChessGameStartProofs.
Import Chess Text ChessGame ChessGameProofs ChessGameStart.
Local Open Scope list_scope.

Section Handlers.
Context {Board Move : Type} `{BoardRules Board Move}.
Variable evalIsEmpty : MoveEvaluation -> bool.
Implicit Types (c : ChessGame.t Board Move) (ready : Player -> bool).

Ltac fields :=
  cbn [m_board m_player m_gameInProgress m_result m_moves m_comments
       effects emit with_result with_gameInProgress playerAt
       arePlayersReady fst snd negb andb orb].

Ltac branches :=
  repeat match goal with
         | |- context [if ?b then _ else _] => destruct b eqn:?; fields
         end.

(** [syncPlayers] changes nothing but the effects. *)
Lemma syncPlayers_state ready c (sender : Player) (ignoreSender : bool) :
  let c' := syncPlayers ready c sender ignoreSender in
  m_board c' = m_board c /\ m_player c' = m_player c
  /\ m_gameInProgress c' = m_gameInProgress c /\ m_result c' = m_result c
  /\ m_moves c' = m_moves c /\ m_comments c' = m_comments c.
Proof.
  destruct c as [b [p0 p1] prog res moves comments eff].
  unfold syncPlayers, arePlayersReady. fields. branches; repeat split.
Qed.

(** What [syncPlayers] adds to the effects. *)
Lemma syncPlayers_effects ready c (sender : Player) (ignoreSender : bool) :
  exists new,
    effects (syncPlayers ready c sender ignoreSender) = effects c ++ new
    /\ (In EmitPlayersReady new <-> arePlayersReady ready c = true)
    /\ (forall i, (i < 2)%nat ->
          ignoreSender = true \/ sender = O ->
          ready (playerAt c i) = false ->
          In (ConnectReady (playerAt c i)) new).
Proof.
  destruct c as [b [p0 p1] prog res moves comments eff].
  unfold syncPlayers, arePlayersReady. fields.
  destruct ignoreSender, (Nat.eqb sender 0) eqn:Hs; fields;
    rewrite ?Hs, ?Nat.eqb_refl; fields;
    destruct (ready p0) eqn:H0, (ready p1) eqn:H1; fields;
    repeat (progress (rewrite ?Hs, ?H0, ?H1, ?Nat.eqb_refl; fields));
    rewrite <- ?app_assoc; eexists; (split; [reflexivity |]);
    (split;
     [split; [intros Hin; simpl in Hin; intuition discriminate
             | intros Hr; try discriminate; simpl; auto]
     | intros [|[|i]] Hi Hwhy Hnot; cbn [playerAt m_player fst snd] in *; simpl;
       try lia; try congruence; auto]).
  all: destruct Hwhy as [Hw | Hw]; try discriminate.
  all: subst sender; discriminate.
Qed.

(** [endGame] on a game in progress. *)
Lemma endGame_running ready c (sender : Player) :
  m_gameInProgress c = true ->
  let c' := endGame ready c sender in
  m_gameInProgress c' = false
  /\ gameState c' = gameState c
  /\ m_player c' = m_player c
  /\ exists new,
       effects c'
       = effects c
         ++ [PlayerEndGame (playerAt c 0) (m_result c);
             PlayerEndGame (playerAt c 1) (m_result c);
             ConnectGameEnded] ++ new.
Proof.
  intros Hrun. cbv zeta. unfold endGame. rewrite Hrun. cbn [negb].
  match goal with
  | |- context [syncPlayers ready ?x sender true] => set (c1 := x)
  end.
  destruct (syncPlayers_state ready c1 sender true)
    as (Hb & Hpl & Hp & Hr & Hm & Hc).
  destruct (syncPlayers_effects ready c1 sender true) as (new & Hnew & _).
  cbv zeta in *. rewrite Hp, Hpl.
  split; [reflexivity |]. split; [| split; [reflexivity |]].
  - unfold gameState. rewrite Hb, Hr, Hm, Hc. reflexivity.
  - exists new. rewrite Hnew. subst c1. fields.
    rewrite <- !app_assoc. reflexivity.
Qed.

(** [endGame] on any game. *)
Lemma endGame_over ready c (sender : Player) :
  m_gameInProgress (endGame ready c sender) = false
  /\ gameState (endGame ready c sender) = gameState c.
Proof.
  destruct (m_gameInProgress c) eqn:Hrun.
  - destruct (endGame_running ready c sender Hrun) as (Hover & Hstate & _).
    split; assumption.
  - unfold endGame. rewrite Hrun. split; [exact Hrun | reflexivity].
Qed.

(** X17: a game ends once.  [endGame] leaves the game not in
    progress whatever it was, with result, moves, comments and board
    as they were; on a game in progress it tells both players the
    result and connects [gameEnded] before it synchronises the
    players; and a second [endGame] does nothing at all. *)
Theorem endGame_once ready c (sender sender' : Player) :
  let c' := endGame ready c sender in
  m_gameInProgress c' = false
  /\ gameState c' = gameState c
  /\ endGame ready c' sender' = c'
  /\ (m_gameInProgress c = true ->
      exists new,
        effects c'
        = effects c
          ++ [PlayerEndGame (playerAt c 0) (m_result c);
              PlayerEndGame (playerAt c 1) (m_result c);
              ConnectGameEnded] ++ new).
Proof.
  cbv zeta.
  destruct (endGame_over ready c sender) as [Hover Hstate].
  split; [exact Hover |]. split; [exact Hstate | split].
  - unfold endGame at 1. rewrite Hover. reflexivity.
  - intros Hrun. apply (endGame_running ready c sender Hrun).
Qed.

(** [onMoveMade] for the move of the player to move. *)
Lemma onMoveMade_played (debug : bool) ready c (sender : Player)
    (move : Move) (eval : MoveEvaluation) :
  sender <> O ->
  m_gameInProgress c = true ->
  isLegalMove (m_board c) move = true ->
  sender = playerToMove c ->
  exists c',
    onMoveMade evalIsEmpty debug ready c sender move eval = Some c'
    /\ m_moves c' = m_moves c ++ [move]
    /\ m_comments c' = m_comments c ++ [evalComment evalIsEmpty eval]
    /\ m_board c' = makeMove (m_board c) move
    /\ m_result c' = boardResult (makeMove (m_board c) move)
    /\ m_gameInProgress c' = isNone (boardResult (makeMove (m_board c) move))
    /\ m_player c' = m_player c.
Proof.
  intros Hsender Hrun Hlegal Hturn.
  unfold onMoveMade.
  assert (Hs : negb (Nat.eqb sender 0) = true)
    by (apply negb_true_iff, Nat.eqb_neq; exact Hsender).
  rewrite Hs, Hrun, Hlegal, !Q_ASSERT_holds.
  rewrite <- Hturn, Nat.eqb_refl. cbn [negb].
  eexists. split; [reflexivity |].
  fields.
  destruct (isNone (boardResult (makeMove (m_board c) move))) eqn:Hnone;
    fields.
  - repeat split.
  - match goal with
    | |- context [endGame ready ?x sender] => set (c1 := x)
    end.
    assert (Hrun1 : m_gameInProgress c1 = true) by reflexivity.
    destruct (endGame_running ready c1 sender Hrun1)
      as (Hover & Hstate & Hpl & _).
    unfold gameState in Hstate.
    injection Hstate as Hr Hm Hc Hb.
    rewrite Hover, Hr, Hm, Hc, Hb, Hpl. subst c1. fields. repeat split.
Qed.

(** X18: a move of the player to move is recorded and played.  In a
    game in progress, for a legal move sent by the player to move,
    [onMoveMade] (with or without assertions) appends the move to the
    moves and the comment of its evaluation to the comments, plays
    the move on the board and takes the board's result; the game
    stays in progress exactly when that result is none. *)
Theorem onMoveMade_records (debug : bool) ready c (sender : Player)
    (move : Move) (eval : MoveEvaluation) :
  sender <> O ->
  m_gameInProgress c = true ->
  isLegalMove (m_board c) move = true ->
  sender = playerToMove c ->
  exists c',
    onMoveMade evalIsEmpty debug ready c sender move eval = Some c'
    /\ m_moves c' = m_moves c ++ [move]
    /\ m_comments c' = m_comments c ++ [evalComment evalIsEmpty eval]
    /\ m_board c' = makeMove (m_board c) move
    /\ m_result c' = boardResult (makeMove (m_board c) move)
    /\ m_gameInProgress c' = isNone (boardResult (makeMove (m_board c) move)).
Proof.
  intros Hsender Hrun Hlegal Hturn.
  destruct (onMoveMade_played debug ready c sender move eval
              Hsender Hrun Hlegal Hturn)
    as (c' & Hc' & Hm & Hc & Hb & Hr & Hp & _).
  exists c'. auto 10.
Qed.

(** X19: the handlers keep a game consistent.  If the comments run
    along the moves (one comment per move) and the game has no result
    while it is in progress, then the same holds after a move
    event in a release build, whoever sent it, after a forfeit, and
    after [endGame]. *)
Theorem handlers_consistent ready c (sender : Player) :
  consistent c ->
  (forall move eval c',
      onMoveMade evalIsEmpty false ready c sender move eval = Some c' ->
      consistent c')
  /\ (forall result, consistent (onForfeit ready c sender result))
  /\ consistent (endGame ready c sender).
Proof.
  intros [Hlen Hnone].
  assert (Hend : forall c0 s0,
            length (m_comments c0) = length (m_moves c0) ->
            consistent (endGame ready c0 s0)).
  { intros c0 s0 Hlen0.
    destruct (endGame_over ready c0 s0) as (Hover & Hstate).
    unfold gameState in Hstate.
    injection Hstate as _ Hm Hc _.
    split; [rewrite Hm, Hc; exact Hlen0 |].
    rewrite Hover. discriminate. }
  split; [| split].
  - intros move eval c'. unfold onMoveMade. rewrite !Q_ASSERT_release.
    destruct (negb (Nat.eqb sender (playerToMove c))).
    + intros Heq. injection Heq as <-. split; [exact Hlen | exact Hnone].
    + intros Heq. injection Heq as <-. fields.
      match goal with
      | |- consistent (emit (if ?b then ?x else ?y) _) =>
          destruct b eqn:Hres
      end.
      * split; fields; [rewrite !length_app, Hlen; reflexivity |].
        intros _. exact Hres.
      * match goal with
        | |- consistent (emit (endGame ready ?x sender) _) =>
            specialize (Hend x sender)
        end.
        destruct Hend as [Hl Hn];
          [fields; rewrite !length_app, Hlen; reflexivity |].
        split; [exact Hl | exact Hn].
  - intros result. unfold onForfeit.
    destruct (m_gameInProgress c) eqn:Hrun; cbn [negb].
    + apply Hend. exact Hlen.
    + split; [exact Hlen | rewrite Hrun; discriminate].
  - apply Hend. exact Hlen.
Qed.

End Handlers.

Section Start.
Context {Board Move BookMove : Type}.
Context `{rules : BoardRules Board Move} `{fen : FenBoard Board}
        `{bookBoard : BookBoard Board Move BookMove} `{players : Players}.
Implicit Types (g : ChessGameStart.t Board Move) (ready : Player -> bool).

Lemma step_log g (f : ChessGame.t Board Move -> ChessGame.t Board Move)
    (new : list (Effect Move)) :
  effects (f (game g)) = effects (game g) ++ new ->
  log (step g f) = log g ++ map Core new.
Proof.
  intros Heff. unfold step. cbn [log]. rewrite Heff.
  rewrite drop_app_length. reflexivity.
Qed.

Lemma step_silent g (f : ChessGame.t Board Move -> ChessGame.t Board Move) :
  effects (f (game g)) = effects (game g) ->
  step g f = mk (f (game g)) (m_fen g) (m_hasTags g) (log g).
Proof.
  intros Heff. unfold step. rewrite Heff.
  rewrite drop_all. cbn [map]. rewrite app_nil_r. reflexivity.
Qed.

Lemma step_emit_const g (e : Effect Move) :
  step g (fun c => emit c e)
  = mk (emit (game g) e) (m_fen g) (m_hasTags g) (log g ++ [Core e]).
Proof.
  unfold step. cbn [emit effects]. rewrite drop_app_length. reflexivity.
Qed.

Lemma step_emit g (e : ChessGame.t Board Move -> Effect Move) :
  step g (fun c => emit c (e c))
  = mk (emit (game g) (e (game g))) (m_fen g) (m_hasTags g)
       (log g ++ [Core (e (game g))]).
Proof.
  unfold step. cbn [emit effects]. rewrite drop_app_length. reflexivity.
Qed.

(** The third loop of [start]: the opening is played move by move,
    each with a comment, and nothing else in the game changes. *)
Lemma playOpening_plays (debug : bool) (moves : list Move) :
  forall g,
    (debug = true -> legalLine (board g) moves = true) ->
    exists g',
      playOpening debug g moves = Some g'
      /\ board g' = playLine (board g) moves
      /\ m_comments (game g')
         = m_comments (game g) ++ repeat "book"%string (length moves)
      /\ m_moves (game g') = m_moves (game g)
      /\ m_player (game g') = m_player (game g)
      /\ m_gameInProgress (game g') = m_gameInProgress (game g)
      /\ m_result (game g') = m_result (game g)
      /\ m_fen g' = m_fen g /\ m_hasTags g' = m_hasTags g
      /\ exists new, log g' = log g ++ new.
Proof.
  induction moves as [|move rest IH]; intros g Hlegal.
  - exists g. cbn [playOpening playLine fold_left length repeat].
    rewrite app_nil_r. repeat split. exists []. rewrite app_nil_r.
    reflexivity.
  - cbn [playOpening].
    assert (Hok : debug && negb (isLegalMove (board g) move) = false).
    { destruct debug; [| reflexivity].
      specialize (Hlegal eq_refl). cbn [legalLine] in Hlegal.
      apply andb_true_iff in Hlegal as [-> _]. reflexivity. }
    unfold Q_ASSERT. rewrite Hok.
    rewrite (step_emit _ (fun c => PlayerMakeMove (playerToWait c) move)).
    rewrite (step_silent _ (fun c => with_board c (makeMove (m_board c) move)))
      by reflexivity.
    rewrite (step_silent _ (fun c => with_comments c (m_comments c ++ ["book"%string])))
      by reflexivity.
    rewrite step_emit_const.
    match goal with
    | |- context [playOpening debug ?x rest] => set (g1 := x)
    end.
    destruct (IH g1) as (g' & Hplay & Hb & Hc & Hm & Hp & Hr & Hres & Hf & Ht
                         & new & Hlog).
    { intros Hd. specialize (Hlegal Hd). cbn [legalLine] in Hlegal.
      apply andb_true_iff in Hlegal as [_ Hrest]. exact Hrest. }
    exists g'. split; [exact Hplay |].
    rewrite Hb, Hc, Hm, Hp, Hr, Hres, Hf, Ht, Hlog. subst g1.
    cbn [board game m_board m_comments m_moves m_player m_gameInProgress
         m_result m_fen m_hasTags log note emit with_board with_comments
         playLine fold_left length repeat].
    rewrite <- !app_assoc. cbn [app].
    repeat split. eexists. reflexivity.
Qed.

(** A turn of the first loop that finds nothing wrong. *)
Lemma checkPlayer_passes (debug : bool) ready (sender : Player) g (i : nat)
    (k : ChessGameStart.t Board Move -> option (ChessGameStart.t Board Move)) :
  playerAt (game g) i <> O ->
  ready (playerAt (game g) i) = true ->
  supportsVariant (playerAt (game g) i) = true ->
  checkPlayer debug ready sender g i k = k g.
Proof.
  intros Hp Hr Hs. unfold checkPlayer.
  assert (Hn : negb (Nat.eqb (playerAt (game g) i) 0) = true)
    by (apply negb_true_iff, Nat.eqb_neq; exact Hp).
  rewrite Hn, Hr, Hs, !Q_ASSERT_holds. reflexivity.
Qed.

(** A turn of the first loop that finds a player without the
    variant, in a game that was just put in progress. *)
Lemma checkPlayer_fails (debug : bool) ready (sender : Player) g (i : nat)
    (k : ChessGameStart.t Board Move -> option (ChessGameStart.t Board Move)) :
  playerAt (game g) i <> O ->
  ready (playerAt (game g) i) = true ->
  supportsVariant (playerAt (game g) i) = false ->
  m_gameInProgress (game g) = true ->
  exists g',
    checkPlayer debug ready sender g i k = Some g'
    /\ m_result (game g') = mkResult ResultError NoSide ""
    /\ m_gameInProgress (game g') = false
    /\ m_board (game g') = m_board (game g)
    /\ m_moves (game g') = m_moves (game g)
    /\ m_comments (game g') = m_comments (game g)
    /\ m_fen g' = m_fen g /\ m_hasTags g' = m_hasTags g
    /\ exists new,
         log g'
         = log g
           ++ Core (Debug "doesn't support variant")
           :: Core (PlayerEndGame (playerAt (game g) 0)
                                  (mkResult ResultError NoSide ""))
           :: Core (PlayerEndGame (playerAt (game g) 1)
                                  (mkResult ResultError NoSide ""))
           :: Core ConnectGameEnded :: map Core new.
Proof.
  intros Hp Hr Hs Hrun. unfold checkPlayer.
  assert (Hn : negb (Nat.eqb (playerAt (game g) i) 0) = true)
    by (apply negb_true_iff, Nat.eqb_neq; exact Hp).
  rewrite Hn, Hr, Hs, !Q_ASSERT_holds. cbn [negb].
  rewrite step_emit_const.
  rewrite (step_silent _ (fun c => with_result c _)) by reflexivity.
  cbn [game m_fen m_hasTags log].
  match goal with
  | |- context [step ?x (fun c => endGame ready c sender)] => set (g1 := x)
  end.
  assert (Hrun1 : m_gameInProgress (game g1) = true) by exact Hrun.
  destruct (endGame_running ready (game g1) sender Hrun1)
    as (Hover & Hstate & _ & new & Hnew).
  unfold gameState in Hstate. injection Hstate as Hres Hm Hc Hb.
  clear Hrun1. subst g1.
  cbn [game m_fen m_hasTags log m_result with_result emit effects playerAt
       m_player m_board m_moves m_comments] in *.
  eexists. split; [reflexivity |].
  cbn [game step m_fen m_hasTags log m_result with_result emit effects
       playerAt m_player m_board m_moves m_comments].
  rewrite Hover, Hres, Hm, Hc, Hb.
  repeat split.
  exists new. rewrite Hnew, drop_app_length.
  rewrite <- !app_assoc. reflexivity.
Qed.

(** X20: [start] waits for the players.  While a player is not
    ready, [start] resets the result and does not begin: the board,
    the moves, the comments and the progress flag stay, [start] is
    connected to [playersReady], every player that is not ready is
    asked to report, and [playersReady] is not sent. *)
Theorem start_waits (debug : bool) ready g (sender : Player) :
  arePlayersReady ready (game g) = false ->
  exists g' new,
    start debug ready g sender = Some g'
    /\ m_result (game g') = Result_default
    /\ m_gameInProgress (game g') = m_gameInProgress (game g)
    /\ board g' = board g
    /\ m_moves (game g') = m_moves (game g)
    /\ m_comments (game g') = m_comments (game g)
    /\ log g' = log g ++ ConnectStart :: map Core new
    /\ ~ In EmitPlayersReady new
    /\ (forall i, (i < 2)%nat ->
          ready (playerAt (game g) i) = false ->
          In (ConnectReady (playerAt (game g) i)) new).
Proof.
  intros Hnot. unfold start.
  rewrite (step_silent _ (fun c => with_result c _)) by reflexivity.
  cbn [game]. 
  assert (Hr : arePlayersReady ready (with_result (game g) Result_default)
               = arePlayersReady ready (game g)) by reflexivity.
  rewrite Hr, Hnot. cbn [negb].
  match goal with
  | |- context [step ?x (fun c => syncPlayers ready c sender true)] =>
      set (g1 := x)
  end.
  destruct (syncPlayers_state ready (game g1) sender true)
    as (Hb & _ & Hp & Hres & Hm & Hc).
  destruct (syncPlayers_effects ready (game g1) sender true)
    as (new & Hnew & Hemit & Hconn).
  exists (step g1 (fun c => syncPlayers ready c sender true)), new.
  split; [reflexivity |].
  unfold board. cbn [game step].
  cbv zeta in Hb, Hp, Hres, Hm, Hc. rewrite Hb, Hp, Hres, Hm, Hc.
  repeat split.
  - cbn [log step]. rewrite Hnew, drop_app_length. subst g1.
    cbn [log note]. rewrite <- app_assoc. reflexivity.
  - intros Hin. apply Hemit in Hin. subst g1.
    cbn [game note] in Hin. rewrite Hr in Hin. congruence.
  - intros i Hi Hnr. apply (Hconn i Hi); [left; reflexivity | exact Hnr].
Qed.

(** X21: a player without the variant ends the game at once.  With
    both players there and ready, if one of them does not support
    the variant, [start] ends the game with the result
    [ResultError]: the game is not in progress, both players are
    told the result, the board, the moves and the comments are as
    they were, and no player was given a new game. *)
Theorem start_unsupported (debug : bool) ready g (sender : Player) :
  playerAt (game g) 0 <> O -> playerAt (game g) 1 <> O ->
  arePlayersReady ready (game g) = true ->
  supportsVariant (playerAt (game g) 0) = false
  \/ supportsVariant (playerAt (game g) 1) = false ->
  exists g',
    start debug ready g sender = Some g'
    /\ m_result (game g') = mkResult ResultError NoSide ""
    /\ m_gameInProgress (game g') = false
    /\ board g' = board g
    /\ m_moves (game g') = m_moves (game g)
    /\ m_comments (game g') = m_comments (game g)
    /\ In (Core (PlayerEndGame (playerAt (game g) 0)
                   (mkResult ResultError NoSide ""))) (log g')
    /\ In (Core (PlayerEndGame (playerAt (game g) 1)
                   (mkResult ResultError NoSide ""))) (log g')
    /\ (forall p side opponent,
          In (PlayerNewGame p side opponent) (log g') ->
          In (PlayerNewGame p side opponent) (log g)).
Proof.
  intros Hp0 Hp1 Hready Hno. unfold start.
  rewrite (step_silent _ (fun c => with_result c _)) by reflexivity.
  cbn [game].
  assert (Hr : arePlayersReady ready (with_result (game g) Result_default)
               = arePlayersReady ready (game g)) by reflexivity.
  rewrite Hr, Hready. cbn [negb].
  rewrite (step_silent _ (fun c => with_gameInProgress c true))
    by reflexivity.
  cbn [game note m_fen m_hasTags log].
  match goal with
  | |- context [checkPlayer debug ready sender ?x 0%nat ?k] =>
      set (g1 := x); set (k0 := k)
  end.
  unfold arePlayersReady in Hready.
  apply andb_true_iff in Hready as [Hr0 Hr1].
  assert (Hfinish : forall i k,
            (i < 2)%nat ->
            supportsVariant (playerAt (game g) i) = false ->
            exists g',
              checkPlayer debug ready sender g1 i k = Some g'
              /\ m_result (game g') = mkResult ResultError NoSide ""
              /\ m_gameInProgress (game g') = false
              /\ board g' = board g
              /\ m_moves (game g') = m_moves (game g)
              /\ m_comments (game g') = m_comments (game g)
              /\ In (Core (PlayerEndGame (playerAt (game g) 0)
                             (mkResult ResultError NoSide ""))) (log g')
              /\ In (Core (PlayerEndGame (playerAt (game g) 1)
                             (mkResult ResultError NoSide ""))) (log g')
              /\ (forall p side opponent,
                    In (PlayerNewGame p side opponent) (log g') ->
                    In (PlayerNewGame p side opponent) (log g))).
  { intros i k Hi Hsup.
    destruct (checkPlayer_fails debug ready sender g1 i k)
      as (g' & Hg' & Hres & Hover & Hb & Hm & Hc & _ & _ & new & Hlog).
    - destruct i as [|[|i]]; [exact Hp0 | exact Hp1 | lia].
    - destruct i as [|[|i]]; [exact Hr0 | exact Hr1 | lia].
    - exact Hsup.
    - reflexivity.
    - exists g'. split; [exact Hg' |].
      unfold board. rewrite Hres, Hover, Hb, Hm, Hc, Hlog.
      subst g1. cbn [game log m_board m_moves m_comments with_result
                     with_gameInProgress playerAt m_player].
      repeat split.
      + apply in_or_app. right. simpl. auto.
      + apply in_or_app. right. simpl. auto.
      + intros p side opponent Hin.
        apply in_app_or in Hin as [Hin | Hin].
        * apply in_app_or in Hin as [Hin | Hin]; [exact Hin |].
          simpl in Hin. destruct Hin as [Hin | []]. discriminate.
        * simpl in Hin.
          destruct Hin as [Hin | [Hin | [Hin | [Hin | Hin]]]];
            try discriminate.
          apply in_map_iff in Hin as (e & He & _). discriminate. }
  destruct (supportsVariant (playerAt (game g) 0)) eqn:Hs0.
  - destruct Hno as [Hno | Hno]; [discriminate |].
    rewrite checkPlayer_passes; [| exact Hp0 | exact Hr0 | exact Hs0].
    subst k0. cbv beta. apply Hfinish; [lia | exact Hno].
  - apply Hfinish; [lia | exact Hs0].
Qed.

(** [start] on a game whose players are there, ready and know the
    variant, and whose starting position the board takes. *)
Lemma start_runs (debug : bool) ready g (sender : Player) (b0 : Board) :
  playerAt (game g) 0 <> O -> playerAt (game g) 1 <> O ->
  arePlayersReady ready (game g) = true ->
  supportsVariant (playerAt (game g) 0) = true ->
  supportsVariant (playerAt (game g) 1) = true ->
  board_setBoard (fenOf g) = Some b0 ->
  (debug = true -> legalLine b0 (m_moves (game g)) = true) ->
  exists g',
    start debug ready g sender = Some g'
    /\ board g' = playLine b0 (m_moves (game g))
    /\ m_moves (game g') = m_moves (game g)
    /\ m_comments (game g')
       = m_comments (game g)
         ++ repeat "book"%string (length (m_moves (game g)))
    /\ m_gameInProgress (game g') = true
    /\ m_result (game g') = Result_default
    /\ m_fen g' = fenOf g
    /\ m_hasTags g' = true
    /\ exists before,
         log g' = before ++ [Core (PlayerGo (playerToMove (game g')))].
Proof.
  intros Hp0 Hp1 Hready Hs0 Hs1 Hfen Hlegal. unfold start.
  rewrite (step_silent _ (fun c => with_result c _)) by reflexivity.
  cbn [game].
  assert (Hr : arePlayersReady ready (with_result (game g) Result_default)
               = arePlayersReady ready (game g)) by reflexivity.
  rewrite Hr, Hready. cbn [negb].
  rewrite (step_silent _ (fun c => with_gameInProgress c true))
    by reflexivity.
  cbn [game note m_fen m_hasTags log].
  unfold arePlayersReady in Hready.
  apply andb_true_iff in Hready as [Hr0 Hr1].
  rewrite checkPlayer_passes; [| exact Hp0 | exact Hr0 | exact Hs0].
  rewrite checkPlayer_passes; [| exact Hp1 | exact Hr1 | exact Hs1].
  unfold setBoard, fenOf in *. cbn [m_fen game m_hasTags log].
  rewrite Hfen.
  match goal with
  | |- context [playOpening debug ?x ?ms] => set (g1 := x); set (moves := ms)
  end.
  assert (Hmoves : moves = m_moves (game g)) by reflexivity.
  assert (Hboard : board g1 = b0) by reflexivity.
  destruct (playOpening_plays debug moves g1)
    as (g2 & Hplay & Hb & Hc & Hm & _ & Hrun & Hres & Hf & Ht & new & Hlog).
  { rewrite Hboard, Hmoves. exact Hlegal. }
  rewrite Hplay, (step_emit _ (fun c => PlayerGo (playerToMove c))).
  eexists. split; [reflexivity |].
  unfold board in *. cbn [game emit m_board m_moves m_comments
                           m_gameInProgress m_result m_fen m_hasTags log].
  rewrite Hb, Hc, Hm, Hrun, Hres, Hf, Ht, Hboard, Hmoves.
  repeat split.
  eexists. unfold playerToMove. cbn [m_board m_player]. reflexivity.
Qed.

(** What a step of the handlers' kind adds to the log leaves the
    connection of [start] as it is. *)
Lemma startConnected_step g
    (f : ChessGame.t Board Move -> ChessGame.t Board Move) :
  startConnected (step g f) = startConnected g.
Proof.
  unfold startConnected, step. cbn [log]. rewrite fold_left_app.
  generalize (drop (length (effects (game g))) (effects (f (game g)))).
  intros new. induction new as [|e new IH]; [reflexivity | exact IH].
Qed.

Lemma announced_In (new : list (Effect Move)) :
  announced new = true <-> In EmitPlayersReady new.
Proof.
  unfold announced. rewrite existsb_exists. split.
  - intros (e & Hin & He). destruct e; try discriminate. exact Hin.
  - intros Hin. exists EmitPlayersReady. split; [exact Hin | reflexivity].
Qed.

(** X16: [syncPlayers] announces readiness exactly when both players
    are ready, and the announcement starts a game that waits.  Up to
    its last statement the call changes nothing in the game but what
    it sends: the signal [playersReady] is among it if and only if
    both players are ready at the call, and when the call comes from
    no player (or ignores its sender) every player that is not ready
    is asked to report ([ready()] is connected to [syncPlayers]).
    Without the signal, or with [start] not connected to it, that is
    all the call does.  With the signal and [start] connected,
    [start] runs inside the call, on the game as it is after the
    signal and with no player as sender: where the players are there
    and know the variant and the board takes the starting position,
    the call returns with the game in progress, without a result, and
    the opening moves played. *)
Theorem syncPlayers_announces (debug : bool) ready g (sender : Player)
    (ignoreSender : bool) :
  let g1 := step g (fun c => syncPlayers ready c sender ignoreSender) in
  exists new,
    log g1 = log g ++ map Core new
    /\ (In EmitPlayersReady new <-> arePlayersReady ready (game g) = true)
    /\ (forall i, (i < 2)%nat ->
          ignoreSender = true \/ sender = O ->
          ready (playerAt (game g) i) = false ->
          In (ConnectReady (playerAt (game g) i)) new)
    /\ gameState (game g1) = gameState (game g)
    /\ m_gameInProgress (game g1) = m_gameInProgress (game g)
    /\ (arePlayersReady ready (game g) = false \/ startConnected g = false ->
        syncPlayersSlot debug ready g sender ignoreSender = Some g1)
    /\ (arePlayersReady ready (game g) = true -> startConnected g = true ->
        syncPlayersSlot debug ready g sender ignoreSender
        = start debug ready g1 O
        /\ forall b0,
             playerAt (game g) 0 <> O -> playerAt (game g) 1 <> O ->
             supportsVariant (playerAt (game g) 0) = true ->
             supportsVariant (playerAt (game g) 1) = true ->
             board_setBoard (fenOf g) = Some b0 ->
             (debug = true -> legalLine b0 (m_moves (game g)) = true) ->
             exists g',
               syncPlayersSlot debug ready g sender ignoreSender = Some g'
               /\ m_gameInProgress (game g') = true
               /\ m_result (game g') = Result_default
               /\ board g' = playLine b0 (m_moves (game g))).
Proof.
  cbv zeta.
  set (g1 := step g (fun c => syncPlayers ready c sender ignoreSender)).
  destruct (syncPlayers_state ready (game g) sender ignoreSender)
    as (Hb & Hpl & Hp & Hr & Hm & Hc).
  destruct (syncPlayers_effects ready (game g) sender ignoreSender)
    as (new & Hnew & Hemit & Hconn).
  cbv zeta in Hb, Hpl, Hp, Hr, Hm, Hc.
  assert (Hslot : syncPlayersSlot debug ready g sender ignoreSender
                  = if announced new then playersReady debug ready g1
                    else Some g1).
  { unfold syncPlayersSlot. fold g1. subst g1. cbn [game step].
    rewrite Hnew, drop_app_length. reflexivity. }
  assert (Hcon : startConnected g1 = startConnected g)
    by apply startConnected_step.
  exists new.
  split; [apply step_log; exact Hnew |].
  split; [exact Hemit |]. split; [exact Hconn |].
  split; [subst g1; cbn [game step]; unfold gameState;
          rewrite Hb, Hr, Hm, Hc; reflexivity |].
  split; [exact Hp |]. split.
  - intros [Hnot | Hoff]; rewrite Hslot.
    + destruct (announced new) eqn:Ha; [| reflexivity].
      apply announced_In, Hemit in Ha. congruence.
    + unfold playersReady. rewrite Hcon, Hoff.
      destruct (announced new); reflexivity.
  - intros Hready Hon.
    assert (Ha : announced new = true) by (apply announced_In, Hemit, Hready).
    assert (Hstart : syncPlayersSlot debug ready g sender ignoreSender
                     = start debug ready g1 O).
    { rewrite Hslot, Ha. unfold playersReady. rewrite Hcon, Hon.
      reflexivity. }
    split; [exact Hstart |].
    intros b0 Hp0 Hp1 Hs0 Hs1 Hfen Hlegal.
    assert (Hgame : m_player (game g1) = m_player (game g)) by exact Hpl.
    assert (Hmoves : m_moves (game g1) = m_moves (game g)) by exact Hm.
    destruct (start_runs debug ready g1 O b0)
      as (g' & Hg' & Hboard & _ & _ & Hrun & Hres & _).
    + unfold playerAt. rewrite Hgame. exact Hp0.
    + unfold playerAt. rewrite Hgame. exact Hp1.
    + unfold arePlayersReady, playerAt. rewrite Hgame. exact Hready.
    + unfold playerAt. rewrite Hgame. exact Hs0.
    + unfold playerAt. rewrite Hgame. exact Hs1.
    + exact Hfen.
    + rewrite Hmoves. exact Hlegal.
    + exists g'. rewrite Hstart, <- Hmoves. auto.
Qed.

(** X22: [start] plays the forced opening.  With both players there,
    ready and knowing the variant, and a starting position the board
    takes ([m_fen], or the variant's when [m_fen] is empty), [start]
    puts the game in progress with no result, sets up that position
    and plays the opening moves on it in order, adds the comment
    "book" for each of them and leaves the moves as they were; the
    last thing it does is to tell the player to move to go.  A build
    with assertions needs the opening moves to be legal where they
    are played.  A game that had no comments is consistent
    afterwards. *)
Theorem start_plays_opening (debug : bool) ready g (sender : Player)
    (b0 : Board) :
  playerAt (game g) 0 <> O -> playerAt (game g) 1 <> O ->
  arePlayersReady ready (game g) = true ->
  supportsVariant (playerAt (game g) 0) = true ->
  supportsVariant (playerAt (game g) 1) = true ->
  board_setBoard (fenOf g) = Some b0 ->
  (debug = true -> legalLine b0 (m_moves (game g)) = true) ->
  exists g',
    start debug ready g sender = Some g'
    /\ board g' = playLine b0 (m_moves (game g))
    /\ m_moves (game g') = m_moves (game g)
    /\ m_comments (game g')
       = m_comments (game g)
         ++ repeat "book"%string (length (m_moves (game g)))
    /\ m_gameInProgress (game g') = true
    /\ m_result (game g') = Result_default
    /\ m_hasTags g' = true
    /\ (exists before,
          log g' = before ++ [Core (PlayerGo (playerToMove (game g')))])
    /\ (m_comments (game g) = [] -> consistent (game g')).
Proof.
  intros Hp0 Hp1 Hready Hs0 Hs1 Hfen Hlegal.
  destruct (start_runs debug ready g sender b0 Hp0 Hp1 Hready Hs0 Hs1
              Hfen Hlegal)
    as (g' & Hg' & Hb & Hm & Hc & Hrun & Hres & _ & Ht & Hlog).
  exists g'. repeat (split; [assumption |]).
  intros Hnone. split.
  - rewrite Hc, Hm, Hnone. cbn [app]. apply repeat_length.
  - intros _. rewrite Hres. reflexivity.
Qed.

(** The loop of [setOpeningBook]. *)
Lemma bookLine_line (n : nat) (book : option (OpeningBook (BookMove := BookMove))) :
  forall (b : Board) (acc : list Move),
    exists line,
      bookLine n book b acc = (playLine b line, acc ++ line)
      /\ (length line <= n)%nat
      /\ legalLine b line = true
      /\ freshLine b line = true.
Proof.
  induction n as [|n IH]; intros b acc.
  - exists []. cbn. rewrite app_nil_r. repeat split. lia.
  - cbn [bookLine].
    set (move := bookMove b book).
    destruct (isLegalMove b move) eqn:Hlegal; cbn [negb orb].
    + destruct (isRepeatMove b move) eqn:Hrep.
      * exists []. cbn. rewrite app_nil_r. repeat split. lia.
      * destruct (IH (makeMove b move) (acc ++ [move]))
          as (line & Hline & Hlen & Hl & Hf).
        exists (move :: line). rewrite Hline, <- app_assoc.
        cbn [app playLine fold_left length legalLine freshLine].
        rewrite Hlegal, Hrep, Hl, Hf. repeat split. lia.
    + exists []. cbn. rewrite app_nil_r. repeat split. lia.
Qed.

(** [setOpeningBook] where it returns. *)
Lemma setOpeningBook_line (debug : bool) g
    (book : option (OpeningBook (BookMove := BookMove))) (maxMoves : Z)
    (g' : ChessGameStart.t Board Move) :
  setOpeningBook debug g book maxMoves = Some g' ->
  exists b0,
    board_setBoard (fenOf g) = Some b0
    /\ m_fen g' = fenOf g
    /\ (length (m_moves (game g')) <= Z.to_nat maxMoves)%nat
    /\ legalLine b0 (m_moves (game g')) = true
    /\ freshLine b0 (m_moves (game g')) = true
    /\ board g' = playLine b0 (m_moves (game g'))
    /\ m_player (game g') = m_player (game g)
    /\ m_comments (game g') = m_comments (game g)
    /\ m_gameInProgress (game g') = m_gameInProgress (game g)
    /\ log g' = log g.
Proof.
  unfold setOpeningBook, Q_ASSERT.
  destruct (debug && negb (bool_decide (is_Some book))); [discriminate |].
  destruct (debug && negb (negb (m_gameInProgress (game g))));
    [discriminate |].
  unfold setBoard, fenOf in *.
  destruct (board_setBoard _) as [b0|] eqn:Hfen; [| discriminate].
  unfold board. cbn [game m_board with_board m_fen m_hasTags log].
  destruct (bookLine_line (Z.to_nat maxMoves) book b0 [])
    as (line & Hline & Hlen & Hlegal & Hfresh).
  rewrite Hline. cbn [app].
  intros Heq. injection Heq as <-.
  exists b0. cbn [game m_fen m_moves m_board with_moves with_board
                  m_player m_comments m_gameInProgress log].
  repeat split; assumption.
Qed.

(** X23: a book opening is short, legal and new.  Where
    [setOpeningBook] returns, the starting position was set up and
    the opening it stored has at most [maxMoves] moves (none when
    [maxMoves] is not positive); every move is legal where it is
    played and repeats no position; the board is left at the end of
    the line; players, comments and the progress flag are
    untouched. *)
Theorem setOpeningBook_bounded (debug : bool) g
    (book : option (OpeningBook (BookMove := BookMove))) (maxMoves : Z)
    (g' : ChessGameStart.t Board Move) :
  setOpeningBook debug g book maxMoves = Some g' ->
  exists b0,
    board_setBoard (fenOf g) = Some b0
    /\ (Z.of_nat (length (m_moves (game g'))) <= Z.max maxMoves 0)%Z
    /\ legalLine b0 (m_moves (game g')) = true
    /\ freshLine b0 (m_moves (game g')) = true
    /\ board g' = playLine b0 (m_moves (game g'))
    /\ m_comments (game g') = m_comments (game g)
    /\ m_gameInProgress (game g') = m_gameInProgress (game g).
Proof.
  intros Hset.
  destruct (setOpeningBook_line debug g book maxMoves g' Hset)
    as (b0 & Hfen & _ & Hlen & Hlegal & Hfresh & Hb & _ & Hc & Hrun & _).
  exists b0. repeat (split; [first [assumption | lia] |]). exact Hrun.
Qed.

(** X24: a book opening passes the assertions of [start].  A game
    seeded by [setOpeningBook] and then started, with both players
    there, ready and knowing the variant, starts in a build with
    assertions too: [start] sets up the same position, finds every
    book move legal, and leaves the board where [setOpeningBook]
    left it, with one "book" comment per move. *)
Theorem start_after_book ready g (book : option (OpeningBook (BookMove := BookMove)))
    (maxMoves : Z) (g1 : ChessGameStart.t Board Move) (sender : Player) :
  setOpeningBook true g book maxMoves = Some g1 ->
  playerAt (game g) 0 <> O -> playerAt (game g) 1 <> O ->
  arePlayersReady ready (game g) = true ->
  supportsVariant (playerAt (game g) 0) = true ->
  supportsVariant (playerAt (game g) 1) = true ->
  exists g2,
    start true ready g1 sender = Some g2
    /\ board g2 = board g1
    /\ m_moves (game g2) = m_moves (game g1)
    /\ m_comments (game g2)
       = m_comments (game g)
         ++ repeat "book"%string (length (m_moves (game g1)))
    /\ m_gameInProgress (game g2) = true.
Proof.
  intros Hset Hp0 Hp1 Hready Hs0 Hs1.
  destruct (setOpeningBook_line true g book maxMoves g1 Hset)
    as (b0 & Hfen & Hf & _ & Hlegal & _ & Hb & Hpl & Hc & _ & _).
  assert (Hfen1 : board_setBoard (fenOf g1) = Some b0).
  { unfold fenOf in *. rewrite Hf. destruct (isEmpty (m_fen g)) eqn:He.
    - destruct (isEmpty startingFen); exact Hfen.
    - rewrite He. exact Hfen. }
  unfold arePlayersReady, playerAt in *. rewrite <- Hpl in *.
  destruct (start_runs true ready g1 sender b0 Hp0 Hp1 Hready Hs0 Hs1 Hfen1
              (fun _ => Hlegal))
    as (g2 & Hg2 & Hb2 & Hm2 & Hc2 & Hrun2 & _).
  exists g2. rewrite Hb2, Hm2, Hc2, Hb, Hc. auto.
Qed.

End Start.

Lemma onMoveMade_records_witness :
  exists c',
    onMoveMade neverEmpty true bothReady running 1%nat "e4"
               (mkEval 10 25 1200 "")
    = Some c'
    /\ m_moves c' = ["e4"]
    /\ m_comments c' = ["+0.25/10 1s"%string]
    /\ m_gameInProgress c' = true.
Proof.
  destruct (onMoveMade_records neverEmpty true bothReady running 1%nat "e4"
              (mkEval 10 25 1200 ""))
    as (c' & Hc' & Hm & Hc & _ & _ & Hrun).
  - discriminate.
  - reflexivity.
  - reflexivity.
  - reflexivity.
  - exists c'. split; [exact Hc' |]. split; [exact Hm |].
    split; [exact Hc | exact Hrun].
Defined.

Lemma handlers_consistent_witness :
  consistent (onForfeit bothReady running 1%nat (mkResult Timeout Black "")).
Proof.
  apply (handlers_consistent neverEmpty bothReady running 1%nat).
  split; [reflexivity | intros _; reflexivity].
Defined.

Lemma syncPlayers_announces_witness :
  exists waiting g',
    start true firstReady withOpening O = Some waiting
    /\ m_gameInProgress (game waiting) = false
    /\ startConnected waiting = true
    /\ syncPlayersSlot true bothReady waiting 2%nat false = Some g'
    /\ m_gameInProgress (game g') = true
    /\ board g' = 2%nat.
Proof.
  eexists. 
  destruct (syncPlayers_announces true bothReady
              (default withOpening (start true firstReady withOpening O))
              2%nat false)
    as (new & _ & _ & _ & _ & _ & _ & Hgo).
  destruct (Hgo eq_refl eq_refl) as [_ Hruns].
  destruct (Hruns 0%nat) as (g' & Hg' & Hrun & _ & Hboard);
    try discriminate; try reflexivity.
  exists g'.
  split; [reflexivity |]. split; [reflexivity |]. split; [reflexivity |].
  split; [exact Hg' |]. split; [exact Hrun | exact Hboard].
Defined.

Lemma start_waits_witness :
  exists g' new,
    start true firstReady withOpening O = Some g'
    /\ m_gameInProgress (game g') = false
    /\ m_comments (game g') = []
    /\ In (ConnectReady 2%nat) new
    /\ log g' = ConnectStart :: map Core new.
Proof.
  destruct (start_waits true firstReady withOpening O)
    as (g' & new & Hg' & _ & Hrun & _ & _ & Hc & Hlog & _ & Hconn).
  - reflexivity.
  - exists g', new. split; [exact Hg' |]. split; [exact Hrun |].
    split; [exact Hc |]. split; [| exact Hlog].
    apply (Hconn 1%nat); [lia | reflexivity].
Defined.

Lemma start_unsupported_witness :
  exists g',
    start (players := firstKnows) true bothReady withOpening O = Some g'
    /\ m_result (game g') = mkResult ResultError NoSide ""
    /\ m_gameInProgress (game g') = false
    /\ m_comments (game g') = [].
Proof.
  destruct (start_unsupported (players := firstKnows) true bothReady withOpening O)
    as (g' & Hg' & Hres & Hrun & _ & _ & Hc & _).
  - discriminate.
  - discriminate.
  - reflexivity.
  - right. reflexivity.
  - exists g'. auto.
Defined.

Lemma start_plays_opening_witness :
  exists g',
    start true bothReady withOpening O = Some g'
    /\ board g' = 2%nat
    /\ m_comments (game g') = ["book"%string; "book"%string]
    /\ m_gameInProgress (game g') = true
    /\ consistent (game g').
Proof.
  destruct (start_plays_opening true bothReady withOpening O 0%nat)
    as (g' & Hg' & Hb & _ & Hc & Hrun & _ & _ & _ & Hcons).
  - discriminate.
  - discriminate.
  - reflexivity.
  - reflexivity.
  - reflexivity.
  - reflexivity.
  - reflexivity.
  - exists g'. split; [exact Hg' |]. split; [exact Hb |].
    split; [exact Hc |]. split; [exact Hrun |]. apply Hcons. reflexivity.
Defined.

Lemma setOpeningBook_bounded_witness :
  exists g',
    setOpeningBook true fresh (Some twoMoveBook) 30 = Some g'
    /\ m_moves (game g') = ["e4"; "e5"]
    /\ legalLine 0%nat (m_moves (game g')) = true
    /\ board g' = 2%nat.
Proof.
  destruct (setOpeningBook true fresh (Some twoMoveBook) 30)
    as [g'|] eqn:Hset; [| vm_compute in Hset; discriminate].
  assert (Hmoves : m_moves (game g') = ["e4"; "e5"])
    by (vm_compute in Hset; injection Hset as <-; reflexivity).
  destruct (setOpeningBook_bounded true fresh (Some twoMoveBook) 30 g' Hset)
    as (b0 & Hfen & _ & Hlegal & _ & Hb & _).
  assert (Hb0 : b0 = 0%nat) by (vm_compute in Hfen; congruence).
  subst b0. exists g'. split; [reflexivity |]. split; [exact Hmoves |].
  split; [exact Hlegal |]. rewrite Hb, Hmoves. reflexivity.
Defined.

Lemma start_after_book_witness :
  exists g1 g2,
    setOpeningBook true fresh (Some twoMoveBook) 30 = Some g1
    /\ start true bothReady g1 O = Some g2
    /\ board g2 = board g1
    /\ m_gameInProgress (game g2) = true.
Proof.
  destruct (setOpeningBook true fresh (Some twoMoveBook) 30)
    as [g1|] eqn:Hset; [| vm_compute in Hset; discriminate].
  destruct (start_after_book bothReady fresh (Some twoMoveBook) 30 g1 O Hset)
    as (g2 & Hg2 & Hb & _ & _ & Hrun).
  - discriminate.
  - discriminate.
  - reflexivity.
  - reflexivity.
  - reflexivity.
  - exists g1, g2. auto.
Defined.

End ChessGameStartProofs.

(** ** EngineMatch: the score, the archive, the openings *)

Module EngineMatchScoreProofs.
Import Chess Text TextProofs EngineMatch EngineMatchProofs EngineMatchScore.
Local Open Scope Z_scope.
Local Open Scope list_scope.

Section Match.
Context {Move : Type}.
Implicit Types (m : EngineMatch.t Move).

Ltac fields :=
  cbn [m_bookDepth m_gameCount m_drawCount m_currentGame m_pgnGamesRead
       m_white m_black m_book m_debug m_repeatOpening m_variant m_engines
       m_fen m_openingMoves m_event m_site m_pgnInputOpen m_pgnOutput
       effects emit with_engines with_counters with_colours with_opening
       addWin] in *.

Ltac branches :=
  repeat match goal with
         | |- context [if ?b then _ else _] => destruct b eqn:?; fields
         | |- context [match ?o with Some _ => _ | None => _ end] =>
             destruct o eqn:?; fields
         end.

(** *** initialize *)

Lemma initEngines_all starts (engines : list EngineData) :
  forall next, (1 <= next)%nat ->
    let '(engines', warning) := initEngines starts next engines in
    (warning = None
     <-> Forall (fun d => startable starts d = true) engines)
    /\ (warning = None ->
        Forall (fun d => initialized d = true) engines'
        /\ map config engines' = map config engines
        /\ map settings engines' = map settings engines).
Proof.
  induction engines as [|it rest IH]; intros next Hnext.
  - cbn [initEngines]. split; [split; auto |]. intros _. auto.
  - cbn [initEngines].
    destruct (timeControlValid (settings it)) eqn:Hvalid; cbn [negb].
    + destruct (starts (command (config it))) eqn:Hstarts; cbn [negb].
      * specialize (IH (S next) ltac:(lia)).
        destruct (initEngines starts (S next) rest) as [rest' warning].
        destruct IH as [Hiff Hpost].
        split.
        -- rewrite Hiff. split.
           ++ intros Hall. constructor; [| exact Hall].
              unfold startable. rewrite Hvalid, Hstarts. reflexivity.
           ++ intros Hall. apply Forall_cons_1 in Hall as [_ Hall].
              exact Hall.
        -- intros Hnone. destruct (Hpost Hnone) as (Hinit & Hc & Hs).
           split; [| split].
           ++ constructor; [| exact Hinit].
              unfold initialized. cbn [wins engine process].
              destruct next; [lia | reflexivity].
           ++ cbn [map config]. rewrite Hc. reflexivity.
           ++ cbn [map settings]. rewrite Hs. reflexivity.
      * split; [| discriminate]. split; [discriminate |].
        intros Hall. apply Forall_cons_1 in Hall as [Hit _].
        unfold startable in Hit. rewrite Hvalid, Hstarts in Hit.
        discriminate.
    + split; [| discriminate]. split; [discriminate |].
      intros Hall. apply Forall_cons_1 in Hall as [Hit _].
      unfold startable in Hit. rewrite Hvalid in Hit. discriminate.
Qed.

(** X25: when a match can begin.  [initialize] returns true exactly
    when the match has two engines or more and each of them has a
    valid time control and a command that starts.  Then the game
    counter and the draw counter are zero, every engine has no wins,
    a process and an engine object, the engines' configurations and
    settings are as they were added, and no warning was logged. *)
Theorem initialize_succeeds m (starts : string -> bool) :
  (snd (initialize m starts) = true
   <-> (2 <= length (m_engines m))%nat
       /\ Forall (fun d => startable starts d = true) (m_engines m))
  /\ (snd (initialize m starts) = true ->
      let m' := fst (initialize m starts) in
      m_currentGame m' = 0 /\ m_drawCount m' = 0
      /\ Forall (fun d => initialized d = true) (m_engines m')
      /\ map config (m_engines m') = map config (m_engines m)
      /\ map settings (m_engines m') = map settings (m_engines m)
      /\ effects m' = effects m).
Proof.
  unfold initialize.
  destruct (Z.of_nat (length (m_engines m)) <? 2) eqn:Hfew.
  - apply Z.ltb_lt in Hfew. cbn [fst snd].
    split; [| discriminate]. split; [discriminate | intros [Hlen _]; lia].
  - apply Z.ltb_ge in Hfew. fields.
    pose proof (initEngines_all starts (m_engines m) 1%nat ltac:(lia))
      as Hall.
    destruct (initEngines starts 1 (m_engines m)) as [engines warning].
    destruct Hall as [Hiff Hpost].
    destruct warning as [msg|]; cbn [fst snd]; fields.
    + split; [| discriminate]. split; [discriminate |].
      intros [_ Hall]. apply Hiff in Hall. discriminate.
    + split.
      * split; [| reflexivity]. intros _. split; [lia |].
        apply Hiff. reflexivity.
      * intros _. destruct (Hpost eq_refl) as (Hinit & Hc & Hs). auto 10.
Qed.

(** *** The score *)

Lemma quit_each_frame (l : list EngineData) :
  forall m,
    let m' := fold_left
                (fun acc data =>
                   emit acc (QuitEngine (engine data) (process data))) l m in
    m_drawCount m' = m_drawCount m
    /\ m_bookDepth m' = m_bookDepth m
    /\ m_fen m' = m_fen m
    /\ m_openingMoves m' = m_openingMoves m
    /\ m_white m' = m_white m /\ m_black m' = m_black m
    /\ m_repeatOpening m' = m_repeatOpening m
    /\ m_book m' = m_book m
    /\ m_pgnInputOpen m' = m_pgnInputOpen m
    /\ m_pgnGamesRead m' = m_pgnGamesRead m.
Proof.
  induction l as [|d l IH]; intros m; cbn [fold_left]; [auto 10 |].
  destruct (IH (emit m (QuitEngine (engine d) (process d))))
    as (H1 & H2 & H3 & H4 & H5 & H6 & H7 & H8 & H9 & H10).
  cbv zeta. rewrite H1, H2, H3, H4, H5, H6, H7, H8, H9, H10. fields.
  auto 10.
Qed.

(** What the second part of [onGameEnded] leaves alone. *)
Lemma onGameEnded_frame m (result : Result) :
  let m1 := recordResult m result in
  let m' := onGameEnded m result in
  m_drawCount m' = m_drawCount m1
  /\ m_engines m' = m_engines m1
  /\ m_currentGame m' = m_currentGame m1
  /\ m_bookDepth m' = m_bookDepth m
  /\ m_fen m' = m_fen m
  /\ m_openingMoves m' = m_openingMoves m
  /\ m_repeatOpening m' = m_repeatOpening m
  /\ m_book m' = m_book m
  /\ m_pgnInputOpen m' = m_pgnInputOpen m
  /\ m_pgnGamesRead m' = m_pgnGamesRead m.
Proof.
  cbv zeta. unfold onGameEnded.
  assert (Hrec : let m1 := recordResult m result in
            m_bookDepth m1 = m_bookDepth m
            /\ m_fen m1 = m_fen m
            /\ m_openingMoves m1 = m_openingMoves m
            /\ m_repeatOpening m1 = m_repeatOpening m
            /\ m_book m1 = m_book m
            /\ m_pgnInputOpen m1 = m_pgnInputOpen m
            /\ m_pgnGamesRead m1 = m_pgnGamesRead m).
  { unfold recordResult, addWin. fields. branches; auto 10. }
  cbv zeta in Hrec. destruct Hrec as (R1 & R2 & R3 & R4 & R5 & R6 & R7).
  set (m1 := recordResult m result) in *.
  destruct ((m_currentGame m1 <? m_gameCount m1)
            && negb (bool_decide (code result = ResultError))
            && negb (bool_decide (code result = Disconnection))); fields.
  - auto 10.
  - pose proof (killEngines_fields m1) as (He & Hc & _ & _).
    pose proof (quit_each_frame (m_engines m1) m1)
      as (H1 & H2 & H3 & H4 & _ & _ & H7 & H8 & H9 & H10).
    cbv zeta in *. fold (killEngines m1) in *.
    rewrite He, Hc, H1, H2, H3, H4, H7, H8, H9, H10. auto 10.
Qed.

(** What [start] leaves alone. *)
Lemma start_frame m (seeding : Seeding Move) :
  let m' := start m seeding in
  m_drawCount m' = m_drawCount m
  /\ m_bookDepth m' = m_bookDepth m
  /\ m_repeatOpening m' = m_repeatOpening m
  /\ m_book m' = m_book m
  /\ m_pgnInputOpen m' = m_pgnInputOpen m
  /\ m_pgnOutput m' = m_pgnOutput m.
Proof.
  cbv zeta. unfold start, rememberOpening, seedGame, assignColours. fields.
  branches; auto 10.
Qed.

(** The pointers [start] sets. *)
Lemma start_pointers m (seeding : Seeding Move) :
  let w := Z.to_nat (m_currentGame m mod 2) in
  m_white (start m seeding) = Some w
  /\ m_black (start m seeding) = Some (1 - w)%nat.
Proof.
  cbv zeta. unfold start. fields.
  set (m0 := emit m (DebugMsg "Started game")).
  pose proof (assignColours_spec m0) as (Hw1 & Hb1 & _ & _).
  pose proof (seedGame_fields (assignColours m0) seeding)
    as (_ & Hw2 & Hb2 & _).
  pose proof (rememberOpening_fields (seedGame (assignColours m0) seeding)
                                     seeding)
    as (_ & Hw3 & Hb3 & _).
  cbv zeta in *. change (m_currentGame m0) with (m_currentGame m) in *.
  rewrite Hw3, Hb3, Hw2, Hb2. auto.
Qed.

(** The score after [recordResult], by the kind of result. *)
Lemma recordResult_score m (result : Result) :
  let m' := recordResult m result in
  (isDraw result = true ->
   m_drawCount m' = m_drawCount m + 1 /\ m_engines m' = m_engines m)
  /\ (isDraw result = false -> winner result = White ->
      m_drawCount m' = m_drawCount m
      /\ m_engines m' = m_engines (addWin m (m_white m)))
  /\ (isDraw result = false -> winner result = Black ->
      m_drawCount m' = m_drawCount m
      /\ m_engines m' = m_engines (addWin m (m_black m)))
  /\ (isDraw result = false -> winner result = NoSide ->
      m_drawCount m' = m_drawCount m /\ m_engines m' = m_engines m).
Proof.
  cbv zeta. unfold recordResult.
  destruct (isDraw result) eqn:Hdraw; fields.
  - split; [intros _; branches; auto |].
    split; [intros Hf; discriminate Hf |].
    split; intros Hf; discriminate Hf.
  - split; [intros Hf; discriminate Hf |].
    destruct (winner result) eqn:Hw.
    + rewrite (bool_decide_eq_true_2 (White = White)) by reflexivity.
      unfold addWin. fields.
      split; [| split; intros _ Hwin; discriminate Hwin].
      intros _ _. destruct (m_white m); fields;
        destruct (negb (isEmpty (m_pgnOutput m))); fields; auto.
    + rewrite (bool_decide_eq_false_2 (Black = White)) by discriminate.
      rewrite (bool_decide_eq_true_2 (Black = Black)) by reflexivity.
      unfold addWin. fields.
      split; [intros _ Hwin; discriminate Hwin |].
      split; [| intros _ Hwin; discriminate Hwin].
      intros _ _. destruct (m_black m); fields;
        destruct (negb (isEmpty (m_pgnOutput m))); fields; auto.
    + rewrite (bool_decide_eq_false_2 (NoSide = White)) by discriminate.
      rewrite (bool_decide_eq_false_2 (NoSide = Black)) by discriminate.
      fields.
      split; [intros _ Hwin; discriminate Hwin |].
      split; [intros _ Hwin; discriminate Hwin |].
      intros _ _.
      destruct (negb (isEmpty (m_pgnOutput m))); fields; auto.
Qed.

Lemma winsAt_addWin m (who i : nat) :
  winsAt (addWin m (Some who)) i
  = if decide (i = who) then (fun n => n + 1) <$> winsAt m i
    else winsAt m i.
Proof.
  unfold winsAt, addWin. fields.
  destruct (decide (i = who)) as [-> | Hne].
  - rewrite list_lookup_alter_eq. destruct (m_engines m !! who); reflexivity.
  - rewrite list_lookup_alter_ne by congruence. reflexivity.
Qed.

(** X26: who gets the point.  For the game with index g, started by
    [start] and ended with a result: the game counter goes up by
    one; a draw adds one to the draw counter and no win; a win of
    White adds one win to the engine at index g mod 2 of the engine
    list and nothing else, a win of Black one win to the other
    engine; a result that is no draw and has no winner counts for
    nobody. *)
Theorem game_scored m (seeding : Seeding Move) (result : Result) :
  let w := Z.to_nat (m_currentGame m mod 2) in
  let m' := onGameEnded (start m seeding) result in
  m_currentGame m' = m_currentGame m + 1
  /\ (isDraw result = true ->
      m_drawCount m' = m_drawCount m + 1
      /\ forall i, winsAt m' i = winsAt m i)
  /\ (isDraw result = false -> winner result = White ->
      m_drawCount m' = m_drawCount m
      /\ winsAt m' w = (fun n => n + 1) <$> winsAt m w
      /\ forall i, i <> w -> winsAt m' i = winsAt m i)
  /\ (isDraw result = false -> winner result = Black ->
      m_drawCount m' = m_drawCount m
      /\ winsAt m' (1 - w) = (fun n => n + 1) <$> winsAt m (1 - w)%nat
      /\ forall i, i <> (1 - w)%nat -> winsAt m' i = winsAt m i)
  /\ (isDraw result = false -> winner result = NoSide ->
      m_drawCount m' = m_drawCount m
      /\ forall i, winsAt m' i = winsAt m i).
Proof.
  intros w m'. subst m'.
  set (m1 := start m seeding).
  pose proof (start_fields m seeding) as (He & Hc & _).
  pose proof (start_frame m seeding) as (Hd & _).
  pose proof (start_pointers m seeding) as (Hw & Hb).
  cbv zeta in Hd, Hw, Hb. fold m1 w in He, Hc, Hd, Hw, Hb.
  pose proof (onGameEnded_frame m1 result) as (Fd & Fe & Fc & _).
  pose proof (recordResult_fields m1 result) as (Rc & _).
  pose proof (recordResult_score m1 result) as (Sd & Sw & Sb & Sn).
  cbv zeta in *.
  assert (Hat : forall i, winsAt m1 i = winsAt m i)
    by (intros i; unfold winsAt; rewrite He; reflexivity).
  split; [rewrite Fc, Rc, Hc; reflexivity |].
  split; [| split; [| split]].
  - intros Hdraw. destruct (Sd Hdraw) as [S1 S2].
    split; [rewrite Fd, S1, Hd; reflexivity |].
    intros i. unfold winsAt. rewrite Fe, S2, He. reflexivity.
  - intros Hdraw Hwin. destruct (Sw Hdraw Hwin) as [S1 S2].
    split; [rewrite Fd, S1, Hd; reflexivity |].
    assert (Hall : forall i,
              winsAt (onGameEnded m1 result) i
              = winsAt (addWin m1 (Some w)) i).
    { intros i. unfold winsAt. rewrite Fe, S2, Hw. reflexivity. }
    split.
    + rewrite Hall, winsAt_addWin, decide_True by reflexivity.
      rewrite Hat. reflexivity.
    + intros i Hi. rewrite Hall, winsAt_addWin, decide_False by exact Hi.
      apply Hat.
  - intros Hdraw Hwin. destruct (Sb Hdraw Hwin) as [S1 S2].
    split; [rewrite Fd, S1, Hd; reflexivity |].
    assert (Hall : forall i,
              winsAt (onGameEnded m1 result) i
              = winsAt (addWin m1 (Some (1 - w)%nat)) i).
    { intros i. unfold winsAt. rewrite Fe, S2, Hb. reflexivity. }
    split.
    + rewrite Hall, winsAt_addWin, decide_True by reflexivity.
      rewrite Hat. reflexivity.
    + intros i Hi. rewrite Hall, winsAt_addWin, decide_False by exact Hi.
      apply Hat.
  - intros Hdraw Hwin. destruct (Sn Hdraw Hwin) as [S1 S2].
    split; [rewrite Fd, S1, Hd; reflexivity |].
    intros i. unfold winsAt. rewrite Fe, S2, He. reflexivity.
Qed.

(** *** The book depth *)

(** X27: the book depth is positive.  [setBookDepth] refuses a depth
    that is not positive (it logs a warning and keeps the depth it
    has), and nothing else changes the depth: in every state a match
    object can reach the book depth is above zero. *)
Theorem bookDepth_positive m : reachable m -> 0 < m_bookDepth m.
Proof.
  induction 1 as [ | m c s _ IH | m d _ IH | m f o _ IH | m d _ IH
                 | m e _ IH | m n _ IH | m f o _ IH | m f _ IH | m r _ IH
                 | m x _ IH | m v _ IH | m starts _ IH | m sd _ IH
                 | m res _ IH ];
    try exact IH.
  - simpl. lia.
  - unfold addEngine. branches; exact IH.
  - unfold setBookDepth. destruct (d <=? 0) eqn:Hd; fields; [exact IH |].
    apply Z.leb_gt in Hd. exact Hd.
  - unfold setBookFile. destruct o; exact IH.
  - unfold setPgnInput. destruct o; exact IH.
  - unfold initialize.
    destruct (Z.of_nat (length (m_engines m)) <? 2); fields; [exact IH |].
    destruct (initEngines starts 1 (m_engines m)) as [engines w].
    destruct w; cbn [fst]; fields; exact IH.
  - pose proof (start_frame m sd) as (_ & Hb & _). cbv zeta in Hb.
    rewrite Hb. exact IH.
  - pose proof (onGameEnded_frame m res) as (_ & _ & _ & Hb & _).
    cbv zeta in Hb. rewrite Hb. exact IH.
Qed.

(** *** The archive *)

Lemma quitAll_no_write m : List.filter isWritePgn (quitAll m) = [].
Proof.
  unfold quitAll. induction (m_engines m) as [|d l IH]; [reflexivity |].
  cbn [map List.filter isWritePgn]. exact IH.
Qed.

(** X28: every game is archived once, under its number.  What
    [onGameEnded] adds to the effects holds exactly one write to the
    PGN output when an output file is set, with the match's event and
    site and the round number g + 1, g being the index of the game
    that ended; it holds none when no output file is set. *)
Theorem game_archived m (result : Result) :
  exists new,
    effects (onGameEnded m result) = effects m ++ new
    /\ List.filter isWritePgn new
       = if isEmpty (m_pgnOutput m) then []
         else [WritePgn (m_pgnOutput m) (m_event m) (m_site m)
                        (m_currentGame m + 1)].
Proof.
  unfold onGameEnded.
  assert (Hrec : exists new,
            effects (recordResult m result) = effects m ++ new
            /\ List.filter isWritePgn new
               = if isEmpty (m_pgnOutput m) then []
                 else [WritePgn (m_pgnOutput m) (m_event m) (m_site m)
                                (m_currentGame m + 1)]).
  { unfold recordResult, addWin. fields.
    destruct (isEmpty (m_pgnOutput m)) eqn:Hout; fields;
      destruct (isDraw result); fields; rewrite ?Hout; cbn [negb]; fields;
      [| destruct (bool_decide (winner result = White)); fields;
         [destruct (m_white m); fields; rewrite ?Hout; cbn [negb]; fields
         | destruct (bool_decide (winner result = Black)); fields;
           [destruct (m_black m); fields | ];
           rewrite ?Hout; cbn [negb]; fields ]
       | | destruct (bool_decide (winner result = White)); fields;
         [destruct (m_white m); fields; rewrite ?Hout; cbn [negb]; fields
         | destruct (bool_decide (winner result = Black)); fields;
           [destruct (m_black m); fields | ];
           rewrite ?Hout; cbn [negb]; fields ]];
      rewrite <- ?app_assoc; eexists;
      (split; [reflexivity | reflexivity]). }
  destruct Hrec as (new & Hnew & Hfilter).
  set (m1 := recordResult m result) in *.
  destruct ((m_currentGame m1 <? m_gameCount m1)
            && negb (bool_decide (code result = ResultError))
            && negb (bool_decide (code result = Disconnection))); fields.
  - exists (new ++ [SingleShot 2000]). rewrite Hnew, <- app_assoc.
    split; [reflexivity |].
    rewrite List.filter_app, Hfilter. cbn. apply app_nil_r.
  - pose proof (killEngines_fields m1) as (_ & _ & _ & Hk).
    exists (new ++ quitAll m1 ++ [DebugMsg "Finished match"; EmitFinished]).
    rewrite Hk, Hnew, <- !app_assoc. split; [reflexivity |].
    rewrite !List.filter_app, Hfilter, quitAll_no_write. cbn.
    apply app_nil_r.
Qed.

(** *** Repeated openings *)

(** What [seedGame] does with a pending memo. *)
Lemma seedGame_memo m (seeding : Seeding Move) :
  m_fen m <> "" \/ m_openingMoves m <> [] ->
  exists new,
    effects (seedGame m seeding) = effects m ++ new
    /\ (m_fen m <> "" -> In (SetFenString (m_fen m)) new)
    /\ (m_openingMoves m <> [] -> In (SetOpeningMoves (m_openingMoves m)) new)
    /\ (forall d, ~ In (SetOpeningBook d) new)
    /\ (forall d, ~ In (LoadPgn d) new)
    /\ m_fen (seedGame m seeding) = ""
    /\ m_openingMoves (seedGame m seeding) = [].
Proof.
  intros Hmemo. unfold seedGame.
  destruct (isEmpty (m_fen m)) eqn:Hfen;
    destruct (bool_decide (length (m_openingMoves m) = 0%nat)) eqn:Hmoves;
    cbn [negb orb]; fields; rewrite ?Hmoves; cbn [negb]; fields.
  - apply isEmpty_true in Hfen. apply bool_decide_eq_true in Hmoves.
    apply length_zero_iff_nil in Hmoves. destruct Hmemo; contradiction.
  - apply isEmpty_true in Hfen.
    eexists. split; [reflexivity |].
    split; [intros Hne; contradiction |].
    split; [intros _; simpl; auto |].
    split; [intros d Hin; simpl in Hin; intuition discriminate |].
    split; [intros d Hin; simpl in Hin; intuition discriminate |].
    split; [exact Hfen | reflexivity].
  - apply bool_decide_eq_true in Hmoves.
    apply length_zero_iff_nil in Hmoves.
    eexists. split; [reflexivity |].
    split; [intros _; simpl; auto |].
    split; [intros Hne; contradiction |].
    split; [intros d Hin; simpl in Hin; intuition discriminate |].
    split; [intros d Hin; simpl in Hin; intuition discriminate |].
    split; [reflexivity | exact Hmoves].
  - rewrite <- !app_assoc. eexists. split; [reflexivity |].
    split; [intros _; simpl; auto |].
    split; [intros _; simpl; auto 6 |].
    split; [intros d Hin; simpl in Hin; intuition discriminate |].
    split; [intros d Hin; simpl in Hin; intuition discriminate |].
    split; reflexivity.
Qed.

Lemma assignColours_memo m :
  m_fen (assignColours m) = m_fen m
  /\ m_openingMoves (assignColours m) = m_openingMoves m
  /\ m_repeatOpening (assignColours m) = m_repeatOpening m.
Proof. unfold assignColours. branches; auto. Qed.

(** What [start] does with a pending memo, in an odd game. *)
Lemma start_memo m (seeding : Seeding Move) :
  m_fen m <> "" \/ m_openingMoves m <> [] ->
  Z.rem (m_currentGame m) 2 <> 0 ->
  exists new,
    effects (start m seeding) = effects m ++ new
    /\ (m_fen m <> "" -> In (SetFenString (m_fen m)) new)
    /\ (m_openingMoves m <> [] -> In (SetOpeningMoves (m_openingMoves m)) new)
    /\ (forall d, ~ In (SetOpeningBook d) new)
    /\ (forall d, ~ In (LoadPgn d) new)
    /\ m_fen (start m seeding) = ""
    /\ m_openingMoves (start m seeding) = [].
Proof.
  intros Hmemo Hodd. unfold start. fields.
  set (m0 := emit m (DebugMsg "Started game")).
  pose proof (assignColours_spec m0) as (_ & _ & _ & Heff1).
  pose proof (assignColours_fields m0) as (_ & Hc1 & _).
  pose proof (assignColours_memo m0) as (Hf1 & Hm1 & _).
  set (m1 := assignColours m0) in *.
  pose proof (seedGame_fields m1 seeding) as (_ & _ & _ & Hc2 & _).
  destruct (seedGame_memo m1 seeding)
    as (new & Hnew & H1 & H2 & H3 & H4 & H5 & H6).
  { rewrite Hf1, Hm1. exact Hmemo. }
  cbv zeta in *.
  set (m2 := seedGame m1 seeding) in *.
  assert (Hsame : rememberOpening m2 seeding = m2).
  { unfold rememberOpening. rewrite Hc2, Hc1.
    change (m_currentGame m0) with (m_currentGame m).
    assert (Hrem : (Z.rem (m_currentGame m) 2 =? 0) = false)
      by (apply Z.eqb_neq; exact Hodd).
    rewrite Hrem, andb_false_r. reflexivity. }
  rewrite Hsame. fields. rewrite Hnew, Heff1.
  change (effects m0) with (effects m ++ [DebugMsg "Started game"]).
  rewrite Hf1, Hm1 in *.
  change (m_fen m0) with (m_fen m) in *.
  change (m_openingMoves m0) with (m_openingMoves m) in *.
  rewrite <- !app_assoc. eexists. split; [reflexivity |].
  split; [intros Hne; pose proof (H1 Hne); rewrite ?in_app_iff; simpl;
          tauto |].
  split; [intros Hne; pose proof (H2 Hne); rewrite ?in_app_iff; simpl;
          tauto |].
  split; [| split; [| split; [exact H5 | exact H6]]].
  - intros d Hin. rewrite ?in_app_iff in Hin. simpl in Hin.
    pose proof (H3 d). intuition discriminate.
  - intros d Hin. rewrite ?in_app_iff in Hin. simpl in Hin.
    pose proof (H4 d). intuition discriminate.
Qed.

(** What [start] remembers of an even game. *)
Lemma start_remembers m (seeding : Seeding Move) :
  m_repeatOpening m = true ->
  Z.rem (m_currentGame m) 2 = 0 ->
  m_fen (start m seeding) = startingFen seeding
  /\ m_openingMoves (start m seeding) = seededMoves seeding.
Proof.
  intros Hrep Heven.
  unfold start, rememberOpening. fields.
  set (m0 := emit m (DebugMsg "Started game")).
  pose proof (assignColours_fields m0) as (_ & Hc1 & _).
  pose proof (seedGame_fields (assignColours m0) seeding)
    as (_ & _ & _ & Hc2 & _ & Hr2 & _).
  cbv zeta in *.
  assert (Hr1 : m_repeatOpening (assignColours m0) = m_repeatOpening m).
  { unfold assignColours. branches; reflexivity. }
  rewrite Hr2, Hr1, Hrep, Hc2, Hc1.
  change (m_currentGame m0) with (m_currentGame m).
  rewrite Heven. cbn [Z.eqb andb]. fields. auto.
Qed.

(** X29: an opening is played twice.  With repeated openings on, the
    opening of an even game (its starting FEN and seeded moves, one
    of them not empty) is remembered when the game is started; when
    the next game is started, after the even game has ended, that
    FEN and those moves are handed to it, neither the book nor the
    PGN input is asked for an opening, and the memo is empty again. *)
Theorem opening_repeated m (first second : Seeding Move) (result : Result) :
  m_repeatOpening m = true ->
  Z.rem (m_currentGame m) 2 = 0 ->
  startingFen first <> "" \/ seededMoves first <> [] ->
  let played := onGameEnded (start m first) result in
  let next := start played second in
  m_fen played = startingFen first
  /\ m_openingMoves played = seededMoves first
  /\ m_fen next = "" /\ m_openingMoves next = []
  /\ exists new,
       effects next = effects played ++ new
       /\ (startingFen first <> "" -> In (SetFenString (startingFen first)) new)
       /\ (seededMoves first <> [] ->
           In (SetOpeningMoves (seededMoves first)) new)
       /\ (forall d, ~ In (SetOpeningBook d) new)
       /\ (forall d, ~ In (LoadPgn d) new).
Proof.
  intros Hrep Heven Hopening played next. subst next played.
  destruct (start_remembers m first Hrep Heven) as [Hfen Hmoves].
  pose proof (start_fields m first) as (_ & Hcur & _).
  set (m1 := start m first) in *.
  pose proof (onGameEnded_frame m1 result)
    as (_ & _ & Hc & _ & Ff & Fm & _).
  pose proof (recordResult_fields m1 result) as (Rc & _).
  cbv zeta in *.
  set (m2 := onGameEnded m1 result) in *.
  assert (Hodd : Z.rem (m_currentGame m2) 2 <> 0).
  { rewrite Hc, Rc, Hcur.
    pose proof (Z.rem_mod_nonneg (m_currentGame m) 2) as Hnn.
    intros Hzero.
    apply Z.rem_divide in Heven; [| lia]. apply Z.rem_divide in Hzero; [| lia].
    destruct Heven as [a Ha]. destruct Hzero as [b Hb]. lia. }
  destruct (start_memo m2 second) as (new & Hnew & H1 & H2 & H3 & H4 & H5 & H6).
  { rewrite Ff, Fm, Hfen, Hmoves. exact Hopening. }
  { exact Hodd. }
  rewrite Ff, Fm, Hfen, Hmoves in *.
  split; [reflexivity |]. split; [reflexivity |].
  split; [exact H5 |]. split; [exact H6 |].
  exists new. auto 10.
Qed.

End Match.

Lemma bookDepth_positive_witness :
  0 < m_bookDepth (setBookDepth (setBookDepth (new (Move := string)) 12)
                                (-3)).
Proof.
  apply (bookDepth_positive
           (setBookDepth (setBookDepth (new (Move := string)) 12) (-3))).
  repeat constructor.
Defined.

Lemma opening_repeated_witness :
  let next :=
    start (onGameEnded (start repeating sicilian)
                       (mkResult Draw NoSide "Draw by stalemate"))
          noSeed in
  m_openingMoves next = []
  /\ In (SetOpeningMoves ["e4"; "c5"]) (effects next).
Proof.
  cbv zeta.
  destruct (opening_repeated repeating sicilian noSeed
              (mkResult Draw NoSide "Draw by stalemate"))
    as (_ & _ & _ & Hm & new & Hnew & _ & Hmoves & _).
  - reflexivity.
  - reflexivity.
  - right. discriminate.
  - split; [exact Hm |].
    rewrite Hnew. apply in_or_app. right. apply Hmoves. discriminate.
Defined.

End EngineMatchScoreProofs.


